(** * Student Finance Tracker: validators, search, storage and state container

    A shallow embedding of the logic core of the tracker
    ([scripts/validators.js], [scripts/search.js], [scripts/storage.js],
    [scripts/state.js]) together with the parts of the JavaScript host the
    code relies on (strings, numbers, [RegExp], [localStorage]).

    Conventions of the embedding:
    - a JavaScript string is the list of its code units; the model covers
      code units below 256, one [ascii] each;
    - a JavaScript number is an exact rational or [NaN]; binary64 rounding,
      signed zero and the infinities are not modelled;
    - the clock, the id generator and the storage quota are explicit
      inputs of the functions that consult them. *)

From Stdlib Require Import String Ascii Bool Arith ZArith QArith Lia List.
From Stdlib Require Import Permutation Sorted Lqa.
Import ListNotations.

Open Scope string_scope.
Open Scope nat_scope.
Open Scope list_scope.

(** ** JavaScript strings *)

Definition jsstring := list ascii.

Coercion list_ascii_of_string : string >-> list.

Module JS.

Definition code (c : ascii) : nat := nat_of_ascii c.

Definition between (lo hi : nat) (c : ascii) : bool :=
  (lo <=? code c) && (code c <=? hi).

(** [WhiteSpace] and [LineTerminator] code units below 256: TAB, LF, VT,
    FF, CR, SP and NBSP.  [String.prototype.trim] and the class [\s] use
    the same set. *)
Definition isSpace (c : ascii) : bool :=
  between 9 13 c || (code c =? 32) || (code c =? 160).

Definition isLineTerminator (c : ascii) : bool :=
  (code c =? 10) || (code c =? 13).

Definition isDigit (c : ascii) : bool := between 48 57 c.

Definition isUpper (c : ascii) : bool := between 65 90 c.
Definition isLower (c : ascii) : bool := between 97 122 c.

(** The class [\w]: ASCII letters, digits and the underscore. *)
Definition isWord (c : ascii) : bool :=
  isUpper c || isLower c || isDigit c || (code c =? 95).

(** Case mapping of one code unit: the ASCII letters and the Latin-1
    letters whose other case is again below 256. *)
Definition toUpperChar (c : ascii) : ascii :=
  if isLower c || (between 224 254 c && negb (code c =? 247))
  then ascii_of_nat (code c - 32) else c.

Definition toLowerChar (c : ascii) : ascii :=
  if isUpper c || (between 192 222 c && negb (code c =? 215))
  then ascii_of_nat (code c + 32) else c.

Definition toLowerCase (s : jsstring) : jsstring := map toLowerChar s.

Fixpoint eqb (s t : jsstring) : bool :=
  match s, t with
  | [], [] => true
  | a :: s', b :: t' => Ascii.eqb a b && eqb s' t'
  | _, _ => false
  end.

Fixpoint trimStart (s : jsstring) : jsstring :=
  match s with
  | c :: s' => if isSpace c then trimStart s' else s
  | [] => []
  end.

Definition trimEnd (s : jsstring) : jsstring := rev (trimStart (rev s)).

Definition trim (s : jsstring) : jsstring := trimEnd (trimStart s).

(** [Array.prototype.join]. *)
Fixpoint join (sep : jsstring) (l : list jsstring) : jsstring :=
  match l with
  | [] => []
  | [x] => x
  | x :: r => x ++ sep ++ join sep r
  end.

(** [s.substring(i, j)] for [i <= j]. *)
Definition substring (i j : nat) (s : jsstring) : jsstring :=
  firstn (j - i) (skipn i s).

(** *** Numbers

    A number is [NaN] or an exact rational.  On decimal numerals of at most
    fifteen significant digits, the only ones the tracker produces, reading
    and printing agree with binary64. *)

Inductive number :=
| NaN
| Num (q : Q).

Definition zero : number := Num 0.


Definition sub (a b : number) : number :=
  match a, b with
  | Num x, Num y => Num (x - y)
  | _, _ => NaN
  end.

Definition mul (a b : number) : number :=
  match a, b with
  | Num x, Num y => Num (x * y)
  | _, _ => NaN
  end.

(** [a < b] and [a > b]; every comparison with [NaN] is false. *)
Definition lt (a b : number) : bool :=
  match a, b with
  | Num x, Num y => negb (Qle_bool y x)
  | _, _ => false
  end.

Definition gt (a b : number) : bool := lt b a.



Fixpoint digitsOf (fuel : nat) (z : Z) (acc : jsstring) : jsstring :=
  match fuel with
  | 0 => acc
  | S fuel' =>
      let acc' := ascii_of_nat (48 + Z.to_nat (z mod 10)) :: acc in
      if (z <? 10)%Z then acc' else digitsOf fuel' (z / 10) acc'
  end.

(** The decimal numeral of a non-negative integer. *)
Definition intToString (z : Z) : jsstring :=
  digitsOf (S (Z.to_nat (Z.log2 z))) z [].

Definition natToString (n : nat) : jsstring := intToString (Z.of_nat n).

Fixpoint fraction (fuel : nat) (r d : Z) : jsstring :=
  match fuel with
  | 0 => []
  | S fuel' =>
      if (r =? 0)%Z then []
      else ascii_of_nat (48 + Z.to_nat (r * 10 / d))
             :: fraction fuel' (r * 10 mod d) d
  end.

(** [String(a)]: the shortest decimal numeral, up to twenty fraction
    digits. *)
Definition numberToString (a : number) : jsstring :=
  match a with
  | NaN => "NaN"
  | Num q =>
      let n := Z.abs (Qnum q) in
      let d := Z.pos (Qden q) in
      let frac := fraction 20 (n mod d) d in
      (if (Qnum q <? 0)%Z then "-" else [])
      ++ intToString (n / d)
      ++ (if match frac with [] => true | _ => false end then [] else "." ++ frac)
  end.

Fixpoint readDigits (s : list ascii) (acc : Z) (count : nat)
    : Z * nat * list ascii :=
  match s with
  | c :: s' =>
      if isDigit c then readDigits s' (10 * acc + Z.of_nat (code c - 48)) (S count)
      else (acc, count, s)
  | [] => (acc, count, [])
  end.

Definition pow10 (n : Z) : Q :=
  if (n <? 0)%Z then 1 # Z.to_pos (10 ^ (- n)) else inject_Z (10 ^ n).

(** An optional sign at the head of a numeral. *)
Definition readSign (s : list ascii) : bool * list ascii :=
  match s with
  | c :: r =>
      if Ascii.eqb c "-" then (true, r)
      else if Ascii.eqb c "+" then (false, r)
      else (false, s)
  | [] => (false, [])
  end.

(** The digits after a decimal point, if a point is there. *)
Definition readFraction (s : list ascii) : Z * nat * list ascii :=
  match s with
  | c :: r => if Ascii.eqb c "." then readDigits r 0 0 else (0%Z, 0, s)
  | [] => (0%Z, 0, [])
  end.

(** The exponent part of a numeral, if one is there. *)
Definition readExponent (s : list ascii) : Z * list ascii :=
  match s with
  | c :: r =>
      if Ascii.eqb c "e" || Ascii.eqb c "E" then
        let '(neg, r1) := readSign r in
        let '(e, n, r2) := readDigits r1 0 0 in
        if n =? 0 then (0%Z, s) else (if neg then (- e)%Z else e, r2)
      else (0%Z, s)
  | [] => (0%Z, [])
  end.

(** The longest decimal numeral at the head of [s], with the text after
    it. *)
Definition readNumeral (s : list ascii) : option (Q * list ascii) :=
  let '(neg, s2) := readSign s in
  let '(ip, ni, s3) := readDigits s2 0 0 in
  let '(fp, nf, s4) := readFraction s3 in
  if ni + nf =? 0 then None
  else
    let mant := (ip * 10 ^ Z.of_nat nf + fp # Z.to_pos (10 ^ Z.of_nat nf))%Q in
    let '(e, s5) := readExponent s4 in
    let v := (mant * pow10 e)%Q in
    Some (if neg then (- v)%Q else v, s5).

(** [parseFloat(s)]: leading white space is skipped and text after the
    numeral is ignored; [NaN] when there is no numeral. *)
Definition parseFloat (s : jsstring) : number :=
  match readNumeral (trimStart s) with
  | Some (q, _) => Num q
  | None => NaN
  end.

(** [Number(s)] on a string: the whole trimmed text must be a numeral, and
    the empty text is zero. *)
Definition toNumber (s : jsstring) : number :=
  match trim s with
  | [] => Num 0
  | t =>
      match readNumeral t with
      | Some (q, []) => Num q
      | _ => NaN
      end
  end.

(** [a === b] on numbers. *)
Definition numEq (a b : number) : bool :=
  match a, b with
  | Num x, Num y => Qeq_bool x y
  | _, _ => false
  end.

Definition ofZ (z : Z) : number := Num (inject_Z z).

(** The integer a number is truncated to where an integer is expected. *)
Definition toInteger (a : number) : option Z :=
  match a with
  | NaN => None
  | Num q => Some (Z.quot (Qnum q) (Z.pos (Qden q)))
  end.

(** [s.split(sep)] for a one-character separator. *)
Fixpoint splitOn (sep : ascii) (s : jsstring) (cur : jsstring)
    : list jsstring :=
  match s with
  | [] => [rev cur]
  | c :: s' =>
      if Ascii.eqb c sep then rev cur :: splitOn sep s' []
      else splitOn sep s' (c :: cur)
  end.

Definition split (sep : ascii) (s : jsstring) : list jsstring :=
  splitOn sep s [].

(** *** Dates

    Calendar arithmetic of the proleptic Gregorian calendar, in days
    since 1970-01-01. *)

Definition daysFromCivil (y m d : Z) : Z :=
  let y1 := (if m <=? 2 then y - 1 else y)%Z in
  let era := (y1 / 400)%Z in
  let yoe := (y1 - era * 400)%Z in
  let mp := (if m <=? 2 then m + 9 else m - 3)%Z in
  let doy := ((153 * mp + 2) / 5 + d - 1)%Z in
  let doe := (yoe * 365 + yoe / 4 - yoe / 100 + doy)%Z in
  (era * 146097 + doe - 719468)%Z.

Definition civilFromDays (z : Z) : Z * Z * Z :=
  let z1 := (z + 719468)%Z in
  let era := (z1 / 146097)%Z in
  let doe := (z1 - era * 146097)%Z in
  let yoe := ((doe - doe / 1460 + doe / 36524 - doe / 146096) / 365)%Z in
  let doy := (doe - (365 * yoe + yoe / 4 - yoe / 100))%Z in
  let mp := ((5 * doy + 2) / 153)%Z in
  let d := (doy - (153 * mp + 2) / 5 + 1)%Z in
  let m := (if mp <? 10 then mp + 3 else mp - 9)%Z in
  ((if m <=? 2 then yoe + era * 400 + 1 else yoe + era * 400)%Z, m, d).

(** [new Date(year, monthIndex, day)] read back through [getFullYear],
    [getMonth] and [getDate]: a year from 0 to 99 counts from 1900, and a
    day or month out of range carries over. *)
Definition makeDate (year monthIndex day : number) : option (Z * Z * Z) :=
  match toInteger year, toInteger monthIndex, toInteger day with
  | Some y, Some mi, Some d =>
      let y1 := (if (0 <=? y) && (y <=? 99) then 1900 + y else y)%Z in
      let y2 := (y1 + mi / 12)%Z in
      let '(cy, cm, cd) :=
        civilFromDays (daysFromCivil y2 (mi mod 12 + 1) 1 + d - 1) in
      Some (cy, (cm - 1)%Z, cd)
  | _, _, _ => None
  end.

Definition allDigits (s : jsstring) : bool := forallb isDigit s.

(** [new Date(s)] as a number of milliseconds, for the date-only form
    [YYYY-MM-DD] the tracker stores; a day up to 31 is accepted in every
    month and carries over, as in V8.  Any other text gives [NaN]. *)
Definition dateValue (s : jsstring) : number :=
  match split "-" s with
  | [y; m; d] =>
      if (length y =? 4) && (length m =? 2) && (length d =? 2)
         && allDigits y && allDigits m && allDigits d then
        let '(yv, _, _) := readDigits y 0 0 in
        let '(mv, _, _) := readDigits m 0 0 in
        let '(dv, _, _) := readDigits d 0 0 in
        if ((1 <=? mv) && (mv <=? 12) && (1 <=? dv) && (dv <=? 31))%Z
        then ofZ ((daysFromCivil yv mv 1 + dv - 1) * 86400000)
        else NaN
      else NaN
  | _ => NaN
  end.

(** [Array.prototype.sort] with a comparator: stable, and a comparator
    value of [NaN] counts as zero. *)
Fixpoint insertSorted {A} (cmp : A -> A -> number) (x : A) (l : list A)
    : list A :=
  match l with
  | [] => [x]
  | y :: l' =>
      if gt (cmp x y) zero then y :: insertSorted cmp x l' else x :: y :: l'
  end.

Fixpoint sort {A} (cmp : A -> A -> number) (l : list A) : list A :=
  match l with
  | [] => []
  | x :: l' => insertSorted cmp x (sort cmp l')
  end.

(** [a <= b] and [a >= b]. *)
Definition le (a b : number) : bool :=
  match a, b with
  | Num x, Num y => Qle_bool x y
  | _, _ => false
  end.



(** [Math.min(a, b)]. *)
Definition min (a b : number) : number :=
  match a, b with
  | Num x, Num y => if Qle_bool x y then Num x else Num y
  | _, _ => NaN
  end.

End JS.

(** ** The host's regular expressions

    The pattern dialect of the code: literals, [.], classes and class
    escapes, anchors, word boundaries, groups, lookahead, back-references,
    alternation and greedy or lazy quantifiers, under the flags [g], [i]
    and [m].  The matcher is the backtracking matcher of the language
    definition, written with the list of outcomes in priority order: the
    head of the list is the match the engine reports. *)

Module RegExp.

Inductive cls := Digit | Word | Space.

Inductive citem :=
| CChar (c : ascii)
| CRange (lo hi : ascii)
| CEsc (k : cls) (neg : bool).

Inductive node :=
| Empty
| Char (c : ascii)
| Dot
| CharSet (neg : bool) (items : list citem)
| Bol
| Eol
| WordB (neg : bool)
| Look (neg : bool) (r : node)
| Group (idx : option nat) (r : node)
| Backref (n : nat)
| Seq (r1 r2 : node)
| Alt (r1 r2 : node)
| Repeat (lo : nat) (hi : option nat) (greedy : bool) (r : node).

Record Flags := { global : bool; ignoreCase : bool; multiline : bool }.

(** A position of the matcher: the text already passed (latest first), the
    text ahead, and the captures made so far. *)
Record mstate := {
  prev : list ascii;
  rest : list ascii;
  caps : list (nat * jsstring)
}.

Definition canon (f : Flags) (c : ascii) : ascii :=
  if ignoreCase f then JS.toUpperChar c else c.

Definition clsMatch (k : cls) (c : ascii) : bool :=
  match k with
  | Digit => JS.isDigit c
  | Word => JS.isWord c
  | Space => JS.isSpace c
  end.

Definition itemMatch (it : citem) (c : ascii) : bool :=
  match it with
  | CChar a => Ascii.eqb a c
  | CRange lo hi => JS.between (JS.code lo) (JS.code hi) c
  | CEsc k neg => xorb neg (clsMatch k c)
  end.

Definition setMatch (f : Flags) (items : list citem) (c : ascii) : bool :=
  existsb (fun it =>
    itemMatch it c ||
    (ignoreCase f &&
      (itemMatch it (JS.toUpperChar c) || itemMatch it (JS.toLowerChar c))))
    items.

Definition step (x : mstate) (ok : ascii -> bool) : list mstate :=
  match rest x with
  | c :: r =>
      if ok c then [{| prev := c :: prev x; rest := r; caps := caps x |}]
      else []
  | [] => []
  end.

Definition headIs (p : ascii -> bool) (s : list ascii) : bool :=
  match s with c :: _ => p c | [] => false end.

Definition atBoundary (x : mstate) : bool :=
  xorb (headIs JS.isWord (prev x)) (headIs JS.isWord (rest x)).

Definition isNil {A} (l : list A) : bool :=
  match l with [] => true | _ => false end.

Fixpoint lookupCap (n : nat) (cs : list (nat * jsstring)) : option jsstring :=
  match cs with
  | [] => None
  | (k, w) :: cs' => if k =? n then Some w else lookupCap n cs'
  end.

(** The text passed between two positions of one scan. *)
Definition consumed (x y : mstate) : jsstring :=
  firstn (length (rest x) - length (rest y)) (rest x).

Definition setCap (n : nat) (x y : mstate) : mstate :=
  {| prev := prev y; rest := rest y; caps := (n, consumed x y) :: caps y |}.

(** A back-reference passes the captured text again, compared through
    [canon]. *)
Fixpoint passText (f : Flags) (w : jsstring) (x : mstate) : list mstate :=
  match w with
  | [] => [x]
  | a :: w' =>
      flat_map (passText f w')
        (step x (fun c => Ascii.eqb (canon f c) (canon f a)))
  end.

Fixpoint groupsOf (r : node) : list nat :=
  match r with
  | Group (Some n) r' => n :: groupsOf r'
  | Group None r' | Look _ r' | Repeat _ _ _ r' => groupsOf r'
  | Seq a b | Alt a b => groupsOf a ++ groupsOf b
  | _ => []
  end.

Definition clearCaps (gs : list nat) (x : mstate) : mstate :=
  {| prev := prev x; rest := rest x;
     caps := filter (fun p => negb (existsb (Nat.eqb (fst p)) gs)) (caps x) |}.

(** The repeat matcher: an iteration that passes no text is refused once
    the minimum is reached, and the captures of the repeated atom are
    cleared before each iteration. *)
Fixpoint repeatM (once : mstate -> list mstate) (gs : list nat)
    (fuel lo : nat) (hi : option nat) (greedy : bool) (x : mstate)
    : list mstate :=
  match fuel with
  | 0 => []
  | S fuel' =>
      match hi with
      | Some 0 => [x]
      | _ =>
          let iter :=
            flat_map (fun y =>
              if (lo =? 0) && (length (rest y) =? length (rest x)) then []
              else repeatM once gs fuel' (pred lo) (option_map pred hi) greedy y)
              (once (clearCaps gs x)) in
          if negb (lo =? 0) then iter
          else if greedy then iter ++ [x] else x :: iter
      end
  end.

Fixpoint m (f : Flags) (r : node) (x : mstate) : list mstate :=
  match r with
  | Empty => [x]
  | Char a => step x (fun c => Ascii.eqb (canon f c) (canon f a))
  | Dot => step x (fun c => negb (JS.isLineTerminator c))
  | CharSet neg items => step x (fun c => xorb neg (setMatch f items c))
  | Bol =>
      if isNil (prev x) || (multiline f && headIs JS.isLineTerminator (prev x))
      then [x] else []
  | Eol =>
      if isNil (rest x) || (multiline f && headIs JS.isLineTerminator (rest x))
      then [x] else []
  | WordB neg => if xorb neg (atBoundary x) then [x] else []
  | Look neg r' =>
      match m f r' x with
      | [] => if neg then [x] else []
      | y :: _ =>
          if neg then []
          else [{| prev := prev x; rest := rest x; caps := caps y |}]
      end
  | Group None r' => m f r' x
  | Group (Some n) r' => map (setCap n x) (m f r' x)
  | Backref n =>
      match lookupCap n (caps x) with
      | None => [x]
      | Some w => passText f w x
      end
  | Seq a b => flat_map (m f b) (m f a x)
  | Alt a b => m f a x ++ m f b x
  | Repeat lo hi greedy r' =>
      repeatM (m f r') (groupsOf r') (S (lo + length (rest x))) lo hi greedy x
  end.

(** *** Reading a pattern

    [new RegExp(pattern, flags)] either builds the matcher or throws a
    [SyntaxError].  Lookbehind, named groups, legacy octal escapes and
    escapes of code units from 256 on are outside the dialect read here;
    the reader refuses them like a malformed pattern. *)

Inductive res (A : Type) :=
| Ok (a : A)
| Throw (reason : jsstring).
Arguments Ok {A} a.
Arguments Throw {A} reason.

Definition bind {A B} (r : res A) (k : A -> res B) : res B :=
  match r with
  | Ok a => k a
  | Throw e => Throw e
  end.

Notation "' pat <- r ;; k" := (bind r (fun x => match x with pat => k end))
  (at level 61, pat pattern, r at next level, right associativity).

Definition classEscape (c : ascii) : option citem :=
  match c with
  | "d"%char => Some (CEsc Digit false)
  | "D"%char => Some (CEsc Digit true)
  | "w"%char => Some (CEsc Word false)
  | "W"%char => Some (CEsc Word true)
  | "s"%char => Some (CEsc Space false)
  | "S"%char => Some (CEsc Space true)
  | _ => None
  end.

Definition controlEscape (c : ascii) : option ascii :=
  match c with
  | "t"%char => Some (ascii_of_nat 9)
  | "n"%char => Some (ascii_of_nat 10)
  | "v"%char => Some (ascii_of_nat 11)
  | "f"%char => Some (ascii_of_nat 12)
  | "r"%char => Some (ascii_of_nat 13)
  | _ => None
  end.

Fixpoint readNat (s : list ascii) (acc : nat) : nat * list ascii :=
  match s with
  | c :: s' =>
      if JS.isDigit c then readNat s' (10 * acc + (JS.code c - 48))
      else (acc, s)
  | [] => (acc, [])
  end.

Definition hexValue (c : ascii) : option nat :=
  if JS.isDigit c then Some (JS.code c - 48)
  else if JS.between 97 102 c then Some (JS.code c - 87)
  else if JS.between 65 70 c then Some (JS.code c - 55)
  else None.

Fixpoint readHex (n : nat) (s : list ascii) (acc : nat)
    : option (nat * list ascii) :=
  match n, s with
  | 0, _ => Some (acc, s)
  | S n', c :: r =>
      match hexValue c with
      | Some v => readHex n' r (16 * acc + v)
      | None => None
      end
  | S _, [] => None
  end.

(** An escape that stands for one character, in or out of a class: a
    control escape, [\0], [\xHH], [\uHHHH] below 256, [\cX], or the
    character itself. *)
Definition charEscape (c : ascii) (r : list ascii)
    : res (ascii * list ascii) :=
  match controlEscape c with
  | Some a => Ok (a, r)
  | None =>
      if Ascii.eqb c "0" && negb (headIs JS.isDigit r)
      then Ok (ascii_of_nat 0, r)
      else if JS.isDigit c then Throw "Invalid escape"
      else if Ascii.eqb c "x" then
        match readHex 2 r 0 with
        | Some (v, r') => Ok (ascii_of_nat v, r')
        | None => Ok (c, r)
        end
      else if Ascii.eqb c "u" then
        match readHex 4 r 0 with
        | Some (v, r') =>
            if v <? 256 then Ok (ascii_of_nat v, r')
            else Throw "Invalid escape"
        | None => Ok (c, r)
        end
      else if Ascii.eqb c "c" then
        match r with
        | l :: r' =>
            if JS.isUpper l || JS.isLower l
            then Ok (ascii_of_nat (JS.code l mod 32), r')
            else Throw "Invalid escape"
        | [] => Throw "Invalid escape"
        end
      else Ok (c, r)
  end.

Definition classAtom (s : list ascii) : res (citem * list ascii) :=
  match s with
  | [] => Throw "Unterminated character class"
  | "\"%char :: [] => Throw "\ at end of pattern"
  | "\"%char :: c :: r =>
      match classEscape c with
      | Some it => Ok (it, r)
      | None =>
          if Ascii.eqb c "b" then Ok (CChar (ascii_of_nat 8), r)
          else '(a, r') <- charEscape c r ;; Ok (CChar a, r')
      end
  | c :: r => Ok (CChar c, r)
  end.

Fixpoint classItems (fuel : nat) (s : list ascii) (acc : list citem)
    : res (list citem * list ascii) :=
  match fuel with
  | 0 => Throw "Unterminated character class"
  | S fuel' =>
      match s with
      | [] => Throw "Unterminated character class"
      | "]"%char :: r => Ok (rev acc, r)
      | _ =>
          '(a, r1) <- classAtom s ;;
          match r1 with
          | "-"%char :: c2 :: r2 =>
              if Ascii.eqb c2 "]" then classItems fuel' r1 (a :: acc)
              else
                '(b, r3) <- classAtom (c2 :: r2) ;;
                match a, b with
                | CChar lo, CChar hi =>
                    if JS.code lo <=? JS.code hi
                    then classItems fuel' r3 (CRange lo hi :: acc)
                    else Throw "Range out of order in character class"
                | _, _ => classItems fuel' r3 (b :: CChar "-" :: a :: acc)
                end
          | _ => classItems fuel' r1 (a :: acc)
          end
      end
  end.

(** A quantifier at the head of [s], if one is there. *)
Definition braces (s : list ascii)
    : option (nat * option nat * list ascii) :=
  if headIs JS.isDigit s then
    let '(lo, r) := readNat s 0 in
    match r with
    | "}"%char :: r' => Some (lo, Some lo, r')
    | ","%char :: "}"%char :: r' => Some (lo, None, r')
    | ","%char :: r1 =>
        if headIs JS.isDigit r1 then
          let '(hi, r2) := readNat r1 0 in
          match r2 with
          | "}"%char :: r' => Some (lo, Some hi, r')
          | _ => None
          end
        else None
    | _ => None
    end
  else None.

Definition quantifier (s : list ascii)
    : option (nat * option nat * list ascii) :=
  match s with
  | "*"%char :: r => Some (0, None, r)
  | "+"%char :: r => Some (1, None, r)
  | "?"%char :: r => Some (0, Some 1, r)
  | "{"%char :: r => braces r
  | _ => None
  end.

Definition quantified (a : node) (s : list ascii) : res (node * list ascii) :=
  match quantifier s with
  | None => Ok (a, s)
  | Some (lo, hi, r) =>
      let ordered := match hi with Some h => lo <=? h | None => true end in
      if ordered then
        match r with
        | "?"%char :: r' => Ok (Repeat lo hi false a, r')
        | _ => Ok (Repeat lo hi true a, r)
        end
      else Throw "numbers out of order in {} quantifier"
  end.

Definition unquantified (a : node) (s : list ascii) : res (node * list ascii) :=
  match quantifier s with
  | None => Ok (a, s)
  | Some _ => Throw "Nothing to repeat"
  end.

Definition atomEscape (c : ascii) (r : list ascii) : res (node * list ascii) :=
  match classEscape c with
  | Some it => quantified (CharSet false [it]) r
  | None =>
      if Ascii.eqb c "b" then unquantified (WordB false) r
      else if Ascii.eqb c "B" then unquantified (WordB true) r
      else if JS.between 49 57 c then
        let '(n, r') := readNat (c :: r) 0 in quantified (Backref n) r'
      else '(a, r') <- charEscape c r ;; quantified (Char a) r'
  end.

Definition closeGroup (wrap : node -> node) (d : node) (r : list ascii) (n : nat)
    : res (node * list ascii * nat) :=
  match r with
  | ")"%char :: r' => '(t, r2) <- quantified (wrap d) r' ;; Ok (t, r2, n)
  | _ => Throw "Unterminated group"
  end.

Definition withCount {A} (n : nat) (r : res (A * list ascii))
    : res (A * list ascii * nat) :=
  '(a, s) <- r ;; Ok (a, s, n).

Fixpoint disjunction (fuel : nat) (s : list ascii) (n : nat) {struct fuel}
    : res (node * list ascii * nat) :=
  match fuel with
  | 0 => Throw "Regular expression too large"
  | S fuel' =>
      '(a, r, n1) <- alternative fuel' s n ;;
      match r with
      | "|"%char :: r' =>
          '(d, r2, n2) <- disjunction fuel' r' n1 ;; Ok (Alt a d, r2, n2)
      | _ => Ok (a, r, n1)
      end
  end
with alternative (fuel : nat) (s : list ascii) (n : nat) {struct fuel}
    : res (node * list ascii * nat) :=
  match fuel with
  | 0 => Throw "Regular expression too large"
  | S fuel' =>
      if isNil s || headIs (Ascii.eqb "|") s || headIs (Ascii.eqb ")") s
      then Ok (Empty, s, n)
      else
        '(t, r, n1) <- term fuel' s n ;;
        '(a, r2, n2) <- alternative fuel' r n1 ;;
        Ok (Seq t a, r2, n2)
  end
with term (fuel : nat) (s : list ascii) (n : nat) {struct fuel}
    : res (node * list ascii * nat) :=
  match fuel with
  | 0 => Throw "Regular expression too large"
  | S fuel' =>
      match s with
      | [] => Ok (Empty, s, n)
      | "^"%char :: r => withCount n (unquantified Bol r)
      | "$"%char :: r => withCount n (unquantified Eol r)
      | "."%char :: r => withCount n (quantified Dot r)
      | "("%char :: "?"%char :: [] => Throw "Invalid group"
      | "("%char :: "?"%char :: k :: r =>
          if Ascii.eqb k ":" then
            '(d, r1, n1) <- disjunction fuel' r n ;;
            closeGroup (Group None) d r1 n1
          else if Ascii.eqb k "=" then
            '(d, r1, n1) <- disjunction fuel' r n ;;
            closeGroup (Look false) d r1 n1
          else if Ascii.eqb k "!" then
            '(d, r1, n1) <- disjunction fuel' r n ;;
            closeGroup (Look true) d r1 n1
          else Throw "Invalid group"
      | "("%char :: r =>
          '(d, r1, n1) <- disjunction fuel' r (S n) ;;
          closeGroup (Group (Some n)) d r1 n1
      | "["%char :: "^"%char :: r =>
          '(items, r1) <- classItems (S (length r)) r [] ;;
          withCount n (quantified (CharSet true items) r1)
      | "["%char :: r =>
          '(items, r1) <- classItems (S (length r)) r [] ;;
          withCount n (quantified (CharSet false items) r1)
      | "\"%char :: [] => Throw "\ at end of pattern"
      | "\"%char :: c :: r => withCount n (atomEscape c r)
      | c :: r =>
          match quantifier s with
          | Some _ => Throw "Nothing to repeat"
          | None => withCount n (quantified (Char c) r)
          end
      end
  end.

Fixpoint maxBackref (r : node) : nat :=
  match r with
  | Backref n => n
  | Look _ r' | Group _ r' | Repeat _ _ _ r' => maxBackref r'
  | Seq a b | Alt a b => Nat.max (maxBackref a) (maxBackref b)
  | _ => 0
  end.

Definition parse (pattern : jsstring) : res node :=
  '(d, r, n) <- disjunction (4 * length pattern + 4) pattern 1 ;;
  match r with
  | [] => if maxBackref d <? n then Ok d else Throw "Invalid escape"
  | _ => Throw "Unmatched ')'"
  end.

(** *** RegExp objects *)

Record t := {
  source : jsstring;
  flags : Flags;
  program : node;
  lastIndex : nat
}.

Definition flagsText (f : Flags) : jsstring :=
  (if global f then "g" else []) ++ (if ignoreCase f then "i" else [])
  ++ (if multiline f then "m" else []).

(** [new RegExp(pattern, flags)]; the reason thrown is worded as V8 does. *)
Definition create (pattern : jsstring) (f : Flags) : res t :=
  match parse pattern with
  | Ok d => Ok {| source := pattern; flags := f; program := d; lastIndex := 0 |}
  | Throw reason =>
      Throw ("Invalid regular expression: /" ++ pattern ++ "/" ++ flagsText f
             ++ ": " ++ reason)
  end.

Definition setLastIndex (r : t) (i : nat) : t :=
  {| source := source r; flags := flags r; program := program r;
     lastIndex := i |}.

Record MatchResult := {
  index : nat;
  text : jsstring;
  groups : list (nat * jsstring)
}.

(** The leftmost position, from the current one on, where the matcher
    succeeds. *)
Fixpoint scan (f : Flags) (d : node) (before ahead : list ascii)
    : option MatchResult :=
  let x := {| prev := before; rest := ahead; caps := [] |} in
  match m f d x with
  | y :: _ =>
      Some {| index := length before; text := consumed x y; groups := caps y |}
  | [] =>
      match ahead with
      | c :: ahead' => scan f d (c :: before) ahead'
      | [] => None
      end
  end.

(** [r.exec(s)]: a global matcher starts at [lastIndex] and records where
    it stopped; a failed search resets [lastIndex] to 0. *)
Definition exec (r : t) (s : jsstring) : option MatchResult * t :=
  if global (flags r) then
    if length s <? lastIndex r then (None, setLastIndex r 0)
    else
      match scan (flags r) (program r)
              (rev (firstn (lastIndex r) s)) (skipn (lastIndex r) s) with
      | Some mr => (Some mr, setLastIndex r (index mr + length (text mr)))
      | None => (None, setLastIndex r 0)
      end
  else (scan (flags r) (program r) [] s, r).

(** [r.test(s)]. *)
Definition test (r : t) (s : jsstring) : bool * t :=
  let '(found, r') := exec r s in
  (match found with Some _ => true | None => false end, r').

(** All matches of a global matcher, left to right; after an empty match
    the scan position advances by one. *)
Fixpoint matchAll (fuel : nat) (r : t) (s : jsstring)
    : list MatchResult * t :=
  match fuel with
  | 0 => ([], r)
  | S fuel' =>
      match exec r s with
      | (None, r') => ([], r')
      | (Some mr, r') =>
          let r2 := if isNil (text mr) then setLastIndex r' (S (lastIndex r'))
                    else r' in
          let '(l, r3) := matchAll fuel' r2 s in
          (mr :: l, r3)
      end
  end.

Definition results (r : t) (s : jsstring) : list MatchResult * t :=
  if global (flags r) then matchAll (length s + 2) (setLastIndex r 0) s
  else
    match exec r s with
    | (None, r') => ([], r')
    | (Some mr, r') => ([mr], r')
    end.

Fixpoint splice (s : jsstring) (l : list MatchResult) (next : nat)
    (fn : jsstring -> jsstring) : jsstring :=
  match l with
  | [] => skipn next s
  | mr :: l' =>
      let position := Nat.min (index mr) (length s) in
      if next <=? position then
        JS.substring next position s ++ fn (text mr)
        ++ splice s l' (position + length (text mr)) fn
      else splice s l' next fn
  end.

(** [s.replace(r, fn)] with a replacement function of the matched text. *)
Definition replace (s : jsstring) (r : t) (fn : jsstring -> jsstring)
    : jsstring * t :=
  let '(l, r') := results r s in (splice s l 0 fn, r').

(** [s.match(r)]: the matched texts of a global matcher, or the first
    match; [None] stands for [null]. *)
Definition match_ (s : jsstring) (r : t) : option (list jsstring) * t :=
  let '(l, r') := results r s in
  (match l with [] => None | _ => Some (map text l) end, r').

(** A regular-expression literal of the source text. *)
Definition literal (pattern : jsstring) (f : Flags) : t :=
  match create pattern f with
  | Ok r => r
  | Throw _ =>
      {| source := pattern; flags := f; program := Empty; lastIndex := 0 |}
  end.

Definition noFlags : Flags :=
  {| global := false; ignoreCase := false; multiline := false |}.
Definition flags_gi : Flags :=
  {| global := true; ignoreCase := true; multiline := false |}.
Definition flags_g : Flags :=
  {| global := true; ignoreCase := false; multiline := false |}.

End RegExp.

(** ** Data model *)

(** One recorded expense. *)
Record Transaction := {
  id : jsstring;
  description : jsstring;
  amount : JS.number;
  category : jsstring;
  date : jsstring;
  createdAt : jsstring;
  updatedAt : jsstring
}.

Record Settings := {
  baseCurrency : jsstring;
  displayCurrency : jsstring;
  rateEUR : JS.number;
  rateRWF : JS.number;
  budgetCap : JS.number
}.

(** The host's clock and id source: [generateId k] and [now k] are what
    [generateId()] and [new Date().toISOString()] return for the [k]-th
    record of a call. *)
Record Host := {
  generateId : nat -> jsstring;
  now : nat -> jsstring;
  currentYear : Z
}.

(** ** validators.js *)

Module validators.

Module PATTERNS.

(** No leading or trailing white space. *)
Definition description : RegExp.t :=
  RegExp.literal "^\S(?:.*\S)?$" RegExp.noFlags.

(** Zero or a non-zero-leading integer, with at most two decimals. *)
Definition amount : RegExp.t :=
  RegExp.literal "^(0|[1-9]\d*)(\.\d{1,2})?$" RegExp.noFlags.

(** [YYYY-MM-DD] with month 01-12 and day 01-31. *)
Definition date : RegExp.t :=
  RegExp.literal "^\d{4}-(0[1-9]|1[0-2])-(0[1-9]|[12]\d|3[01])$"
    RegExp.noFlags.

(** Runs of letters joined by single spaces or hyphens. *)
Definition category : RegExp.t :=
  RegExp.literal "^[A-Za-z]+(?:[ -][A-Za-z]+)*$" RegExp.noFlags.

(** Repeated consecutive words, by back-reference, under [gi]. *)
Definition duplicateWord : RegExp.t :=
  RegExp.literal "\b(\w+)\s+\1\b" RegExp.flags_gi.

(** Zero or a non-zero-leading integer, with any number of decimals. *)
Definition exchangeRate : RegExp.t :=
  RegExp.literal "^(0|[1-9]\d*)(\.\d+)?$" RegExp.noFlags.

(** The amount pattern again. *)
Definition budgetCap : RegExp.t :=
  RegExp.literal "^(0|[1-9]\d*)(\.\d{1,2})?$" RegExp.noFlags.

End PATTERNS.

(** The literal for two or more white-space characters inside
    [validateDescription]. *)
Definition consecutiveSpaces : RegExp.t :=
  RegExp.literal "\s{2,}" RegExp.noFlags.

Record Result := { valid : bool; error : option jsstring }.

Definition reject (msg : jsstring) : Result :=
  {| valid := false; error := Some msg |}.

Definition accept : Result := {| valid := true; error := None |}.

Definition quote : jsstring := [ascii_of_nat 34].

(** [!value || value.trim() === ''] *)
Definition blank (value : jsstring) : bool :=
  RegExp.isNil value || RegExp.isNil (JS.trim value).

Definition validateDescription (value : jsstring) : Result :=
  if blank value then reject "Description is required"
  else if negb (JS.eqb value (JS.trim value)) then
    reject "Description cannot have leading or trailing spaces"
  else if fst (RegExp.test consecutiveSpaces value) then
    reject "Description cannot have consecutive spaces"
  else if length value <? 2 then
    reject "Description must be at least 2 characters"
  else if 200 <? length value then
    reject "Description cannot exceed 200 characters"
  else
    match fst (RegExp.match_ value PATTERNS.duplicateWord) with
    | Some duplicateMatch =>
        reject ("Duplicate word detected: " ++ quote
                ++ hd [] duplicateMatch ++ quote ++ ". Please rephrase.")
    | None =>
        if negb (fst (RegExp.test PATTERNS.description value)) then
          reject "Invalid description format"
        else accept
    end.

Definition maxAmount : JS.number := JS.Num (99999999 # 100).

Definition validateAmount (value : jsstring) : Result :=
  if blank value then reject "Amount is required"
  else
    let trimmed := JS.trim value in
    if negb (fst (RegExp.test PATTERNS.amount trimmed)) then
      reject "Invalid amount format. Use numbers with up to 2 decimal places (e.g., 12.50)"
    else
      let numValue := JS.parseFloat trimmed in
      if JS.lt numValue JS.zero then reject "Amount cannot be negative"
      else if JS.gt numValue maxAmount then
        reject "Amount cannot exceed 999,999.99"
      else accept.

(** [currentYear] is what [new Date().getFullYear()] returns at the
    call. *)
Definition validateDate (currentYear : Z) (value : jsstring) : Result :=
  if blank value then reject "Date is required"
  else
    let trimmed := JS.trim value in
    if negb (fst (RegExp.test PATTERNS.date trimmed)) then
      reject "Invalid date format. Use YYYY-MM-DD (e.g., 2025-09-15)"
    else
      let parts := map JS.toNumber (JS.split "-" trimmed) in
      let year := nth 0 parts JS.NaN in
      let month := nth 1 parts JS.NaN in
      let day := nth 2 parts JS.NaN in
      let same :=
        match JS.makeDate year (JS.sub month (JS.ofZ 1)) day with
        | Some (y, mi, d) =>
            JS.numEq (JS.ofZ y) year
            && JS.numEq (JS.ofZ mi) (JS.sub month (JS.ofZ 1))
            && JS.numEq (JS.ofZ d) day
        | None => false
        end in
      if negb same then reject "Invalid date. Please enter a real date."
      else if JS.lt year (JS.ofZ 2000)
              || JS.gt year (JS.ofZ (currentYear + 10)) then
        reject ("Year must be between 2000 and "
                ++ JS.numberToString (JS.ofZ (currentYear + 10)))
      else accept.

Definition validateCategory (value : jsstring) : Result :=
  if blank value then reject "Category is required"
  else
    let trimmed := JS.trim value in
    if negb (fst (RegExp.test PATTERNS.category trimmed)) then
      reject "Category can only contain letters, spaces, and hyphens"
    else if length trimmed <? 2 then
      reject "Category must be at least 2 characters"
    else if 50 <? length trimmed then
      reject "Category cannot exceed 50 characters"
    else accept.

Definition validateExchangeRate (value : jsstring) : Result :=
  if blank value then reject "Exchange rate is required"
  else
    let trimmed := JS.trim value in
    if negb (fst (RegExp.test PATTERNS.exchangeRate trimmed)) then
      reject "Invalid exchange rate format"
    else
      let numValue := JS.parseFloat trimmed in
      if JS.le numValue JS.zero then
        reject "Exchange rate must be greater than 0"
      else if JS.gt numValue (JS.ofZ 1000) then
        reject "Exchange rate seems unrealistic"
      else accept.

(** An empty budget means no cap. *)
Definition validateBudgetCap (value : jsstring) : Result :=
  if blank value then accept
  else
    let trimmed := JS.trim value in
    if negb (fst (RegExp.test PATTERNS.budgetCap trimmed)) then
      reject "Invalid budget format"
    else
      let numValue := JS.parseFloat trimmed in
      if JS.lt numValue JS.zero then reject "Budget cannot be negative"
      else accept.

(** The fields of a transaction as the form and the import hand them
    over, after [String(...)]. *)
Record TransactionInput := {
  in_description : jsstring;
  in_amount : jsstring;
  in_date : jsstring;
  in_category : jsstring
}.

Record TransactionResult := {
  tvalid : bool;
  errors : list (jsstring * jsstring)
}.

Definition fieldError (field : jsstring) (r : Result)
    : list (jsstring * jsstring) :=
  match error r with
  | Some e => if valid r then [] else [(field, e)]
  | None => []
  end.

(** The [errors] object keeps its keys in the order they were set. *)
Definition validateTransaction (currentYear : Z) (transaction : TransactionInput)
    : TransactionResult :=
  let errors :=
    fieldError "description" (validateDescription (in_description transaction))
    ++ fieldError "amount" (validateAmount (in_amount transaction))
    ++ fieldError "date" (validateDate currentYear (in_date transaction))
    ++ fieldError "category" (validateCategory (in_category transaction)) in
  {| tvalid := RegExp.isNil errors; errors := errors |}.

(** A value of the parsed import file. *)
#[local] Set Warnings "-register-all".
Inductive value :=
| VNull
| VBool (b : bool)
| VNum (n : JS.number)
| VStr (s : jsstring)
| VArr (l : list value)
| VObj.

(** [String(v)]. *)
Fixpoint valueToString (v : value) : jsstring :=
  match v with
  | VNull => "null"
  | VBool b => if b then "true" else "false"
  | VNum n => JS.numberToString n
  | VStr s => s
  | VArr l =>
      JS.join ","
        (map (fun x => match x with VNull => [] | _ => valueToString x end) l)
  | VObj => "[object Object]"
  end.

(** An element of the imported array that is an object: the four required
    fields hold any value, the optional ones are strings when present. *)
Record ImportObject := {
  o_description : option value;
  o_amount : option value;
  o_category : option value;
  o_date : option value;
  o_id : option jsstring;
  o_createdAt : option jsstring;
  o_updatedAt : option jsstring
}.

Inductive item :=
| NotObject
| Object (o : ImportObject).

Inductive ImportData :=
| NotArray
| Items (l : list item).

Record ImportResult := {
  ivalid : bool;
  ierror : option jsstring;
  idata : option (list Transaction)
}.

Definition absent {A} (name : jsstring) (field : option A) : list jsstring :=
  match field with Some _ => [] | None => [name] end.

(** [requiredFields.filter(field => !(field in item))] *)
Definition missingFields (o : ImportObject) : list jsstring :=
  absent "description" (o_description o) ++ absent "amount" (o_amount o)
  ++ absent "category" (o_category o) ++ absent "date" (o_date o).

Definition fieldText (field : option value) : jsstring :=
  match field with Some v => valueToString v | None => "undefined" end.

(** [a || b] on an optional string: absent and empty are falsy. *)
Definition orString (a : option jsstring) (b : jsstring) : jsstring :=
  match a with
  | Some (c :: r) => c :: r
  | _ => b
  end.

Definition itemLabel (i : nat) : jsstring :=
  "Item " ++ JS.natToString (i + 1) ++ ": ".

(** One turn of the loop of [validateImportData]: the record to keep or
    the error summary of item [i]. *)
Definition checkItem (h : Host) (i : nat) (it : item) : Transaction + jsstring :=
  match it with
  | NotObject => inr (itemLabel i ++ "Not a valid object")
  | Object o =>
      match missingFields o with
      | _ :: _ as missing =>
          inr (itemLabel i ++ "Missing fields: " ++ JS.join ", " missing)
      | [] =>
          let validation :=
            validateTransaction (currentYear h)
              {| in_description := fieldText (o_description o);
                 in_amount := fieldText (o_amount o);
                 in_date := fieldText (o_date o);
                 in_category := fieldText (o_category o) |} in
          if negb (tvalid validation) then
            inr (itemLabel i
                 ++ JS.join "; "
                      (map (fun fe => fst fe ++ ": " ++ snd fe)
                           (errors validation)))
          else
            inl {| id := orString (o_id o) (generateId h i);
                   description := JS.trim (fieldText (o_description o));
                   amount := JS.parseFloat (fieldText (o_amount o));
                   category := JS.trim (fieldText (o_category o));
                   date := JS.trim (fieldText (o_date o));
                   createdAt := orString (o_createdAt o) (now h i);
                   updatedAt := orString (o_updatedAt o) (now h i) |}
      end
  end.

Fixpoint importLoop (h : Host) (i : nat) (data : list item)
    : list Transaction * list jsstring :=
  match data with
  | [] => ([], [])
  | it :: data' =>
      let '(validatedData, errs) := importLoop h (S i) data' in
      match checkItem h i it with
      | inl t => (t :: validatedData, errs)
      | inr e => (validatedData, e :: errs)
      end
  end.

Definition newline : jsstring := [ascii_of_nat 10].

(** The summary of a rejected batch: the first five item errors and the
    number of the others. *)
Definition errorSummary (errs : list jsstring) : jsstring :=
  "Validation errors:" ++ newline ++ JS.join newline (firstn 5 errs)
  ++ (if 5 <? length errs then
        newline ++ "... and " ++ JS.natToString (length errs - 5) ++ " more"
      else []).

Definition validateImportData (h : Host) (data : ImportData) : ImportResult :=
  match data with
  | NotArray =>
      {| ivalid := false; ierror := Some ("Data must be an array of transactions" : jsstring);
         idata := None |}
  | Items [] =>
      {| ivalid := false; ierror := Some ("Data array is empty" : jsstring);
         idata := None |}
  | Items l =>
      let '(validatedData, errs) := importLoop h 0 l in
      if 0 <? length errs then
        {| ivalid := false; ierror := Some (errorSummary errs); idata := None |}
      else {| ivalid := true; ierror := None; idata := Some validatedData |}
  end.

End validators.

(** ** search.js *)

Module search.

Record Compiled := { regex : option RegExp.t; error : option jsstring }.

(** The probe text, ['a'.repeat(100)]. *)
Definition testString : jsstring := repeat "a"%char 100.

(** [startTime] and [endTime] are the two readings of
    [performance.now()] around the probe. *)
Definition compileRegex (input : jsstring) (flags : RegExp.Flags)
    (startTime endTime : JS.number) : Compiled :=
  if validators.blank input then {| regex := None; error := None |}
  else
    let pattern := JS.trim input in
    match RegExp.create pattern flags with
    | RegExp.Ok regex0 =>
        let '(_, regex1) := RegExp.test regex0 testString in
        let elapsed := JS.sub endTime startTime in
        if JS.gt elapsed (JS.ofZ 100) then
          {| regex := None;
             error := Some ("Pattern is too complex and may cause performance issues" : jsstring) |}
        else {| regex := Some regex1; error := None |}
    | RegExp.Throw message =>
        {| regex := None; error := Some ("Invalid pattern: " ++ message) |}
    end.

(** The text serialisation of the document: [div.textContent = text;
    div.innerHTML]. *)
Definition escapeChar (c : ascii) : jsstring :=
  if Ascii.eqb c "&" then "&amp;"
  else if Ascii.eqb c "<" then "&lt;"
  else if Ascii.eqb c ">" then "&gt;"
  else if JS.code c =? 160 then "&nbsp;"
  else [c].

Definition escapeHTML (text : jsstring) : jsstring :=
  flat_map escapeChar text.

Definition mark (match_ : jsstring) : jsstring :=
  "<mark>" ++ match_ ++ "</mark>".

(** [highlight(text, regex)]; an absent text is the empty one.  The
    matcher is handed back as the call leaves it. *)
Definition highlight (text : jsstring) (regex : option RegExp.t)
    : jsstring * option RegExp.t :=
  match regex with
  | None => (escapeHTML text, None)
  | Some r =>
      if RegExp.isNil text then (escapeHTML text, Some r)
      else
        let r0 := RegExp.setLastIndex r 0 in
        let escaped := escapeHTML text in
        let '(highlighted, r1) := RegExp.replace escaped r0 mark in
        (highlighted, Some r1)
  end.

Definition searchableText (t : Transaction) : jsstring :=
  JS.join " " [description t; category t; JS.numberToString (amount t); date t].

Definition matchesSearch (t : Transaction) (regex : option RegExp.t)
    : bool * option RegExp.t :=
  match regex with
  | None => (true, None)
  | Some r =>
      let '(found, r1) :=
        RegExp.test (RegExp.setLastIndex r 0) (searchableText t) in
      (found, Some r1)
  end.

(** [Array.prototype.filter] with a predicate that uses, and may change,
    a matcher. *)
Fixpoint filterWith {A} (p : A -> RegExp.t -> bool * RegExp.t)
    (l : list A) (r : RegExp.t) : list A * RegExp.t :=
  match l with
  | [] => ([], r)
  | a :: l' =>
      let '(keep, r1) := p a r in
      let '(kept, r2) := filterWith p l' r1 in
      (if keep then a :: kept else kept, r2)
  end.

Definition filterBySearch (transactions : list Transaction)
    (regex : option RegExp.t) : list Transaction * option RegExp.t :=
  match regex with
  | None => (transactions, None)
  | Some r =>
      let '(kept, r1) :=
        filterWith (fun t r' =>
          match matchesSearch t (Some r') with
          | (found, Some r2) => (found, r2)
          | (found, None) => (found, r')
          end) transactions r in
      (kept, Some r1)
  end.

(** *** Segments *)

Record Segment := { text : jsstring; highlighted : bool }.

(** [regex.flags.includes('g') ? regex.flags : regex.flags + 'g'] *)
Definition withGlobal (f : RegExp.Flags) : RegExp.Flags :=
  {| RegExp.global := true; RegExp.ignoreCase := RegExp.ignoreCase f;
     RegExp.multiline := RegExp.multiline f |}.

(** The loop of [getHighlightedSegments].  [lastIndex] is the end of the
    match before; [fuel] bounds the number of turns, and [None] says that
    it did not suffice. *)
Fixpoint segmentsLoop (fuel : nat) (globalRegex : RegExp.t) (s : jsstring)
    (lastIndex : nat) : option (list Segment) :=
  match fuel with
  | 0 => None
  | S fuel' =>
      match RegExp.exec globalRegex s with
      | (Some match_, r1) =>
          let before :=
            if lastIndex <? RegExp.index match_ then
              [{| text := JS.substring lastIndex (RegExp.index match_) s;
                  highlighted := false |}]
            else [] in
          let r2 :=
            if RegExp.isNil (RegExp.text match_)
            then RegExp.setLastIndex r1 (S (RegExp.lastIndex r1)) else r1 in
          option_map
            (fun segments =>
               before ++ {| text := RegExp.text match_; highlighted := true |}
                         :: segments)
            (segmentsLoop fuel' r2 s
               (RegExp.index match_ + length (RegExp.text match_)))
      | (None, _) =>
          Some (if lastIndex <? length s then
                  [{| text := skipn lastIndex s; highlighted := false |}]
                else [])
      end
  end.

(** [getHighlightedSegments(text, regex)]: the segments, or the reason
    [new RegExp] throws, with the matcher as the call leaves it. *)
Definition getHighlightedSegments (s : jsstring) (regex : option RegExp.t)
    : option (RegExp.res (list Segment)) * option RegExp.t :=
  if RegExp.isNil s then (Some (RegExp.Ok []), regex)
  else
    match regex with
    | None =>
        (Some (RegExp.Ok [{| text := s; highlighted := false |}]), None)
    | Some r =>
        let r0 := RegExp.setLastIndex r 0 in
        match RegExp.create (RegExp.source r) (withGlobal (RegExp.flags r)) with
        | RegExp.Ok globalRegex =>
            (option_map RegExp.Ok
               (segmentsLoop (length s + 2) globalRegex s 0), Some r0)
        | RegExp.Throw reason => (Some (RegExp.Throw reason), Some r0)
        end
    end.

(** [countMatches(text, regex)].  The array [text.match(regex)] returns
    holds every match of a global matcher; for another matcher it holds
    the first match and one entry for each group of the pattern. *)
Definition countMatches (s : jsstring) (regex : option RegExp.t)
    : nat * option RegExp.t :=
  match regex with
  | None => (0, None)
  | Some r =>
      if RegExp.isNil s then (0, Some r)
      else
        let r0 := RegExp.setLastIndex r 0 in
        if RegExp.global (RegExp.flags r0) then
          let '(matches, r1) := RegExp.match_ s r0 in
          (match matches with Some l => length l | None => 0 end, Some r1)
        else
          match RegExp.exec r0 s with
          | (Some _, r1) =>
              (S (length (RegExp.groupsOf (RegExp.program r0))), Some r1)
          | (None, r1) => (0, Some r1)
          end
  end.

(** *** Literal searches *)

(** The class of [escapeRegex], under the flag [g]. *)
Definition specialCharacters : RegExp.t :=
  RegExp.literal "[.*+?^${}()|[\]\\]" RegExp.flags_g.

(** [string.replace(/[...]/g, '\\$&')]: a backslash before each match. *)
Definition escapeRegex (s : jsstring) : jsstring :=
  fst (RegExp.replace s specialCharacters (fun match_ => "\"%char :: match_)).

Definition createLiteralSearch (s : jsstring) (caseInsensitive : bool)
    (startTime endTime : JS.number) : Compiled :=
  if validators.blank s then {| regex := None; error := None |}
  else
    let escaped := escapeRegex (JS.trim s) in
    let flags := if caseInsensitive then RegExp.flags_gi else RegExp.flags_g in
    compileRegex escaped flags startTime endTime.

End search.

(** ** storage.js *)

Module storage.

(** What a key of [localStorage] holds: a blob the loader can read back,
    or one it cannot. *)
Inductive Stored (A : Type) :=
| Data (a : A)
| Garbage.
Arguments Data {A} a.
Arguments Garbage {A}.

(** The three keys of the tracker, and whether the medium refuses writes
    (quota exhausted, storage disabled): [setItem] then throws. *)
Record LocalStorage := {
  transactionsItem : option (Stored (list Transaction));
  categoriesItem : option (Stored (list jsstring));
  settingsItem : option (Stored Settings);
  writeFails : bool
}.

Definition DEFAULT_CATEGORIES : list jsstring :=
  ["Food" : jsstring; "Books" : jsstring; "Transport" : jsstring;
   "Entertainment" : jsstring; "Fees" : jsstring; "Other" : jsstring].

Definition DEFAULT_SETTINGS : Settings :=
  {| baseCurrency := "USD"; displayCurrency := "USD";
     rateEUR := JS.Num (108 # 100); rateRWF := JS.Num (73 # 100000);
     budgetCap := JS.zero |}.

Definition loadTransactions (ls : LocalStorage) : list Transaction :=
  match transactionsItem ls with
  | Some (Data l) => l
  | _ => []
  end.

Definition saveTransactions (transactions : list Transaction)
    (ls : LocalStorage) : bool * LocalStorage :=
  if writeFails ls then (false, ls)
  else
    (true,
     {| transactionsItem := Some (Data transactions);
        categoriesItem := categoriesItem ls;
        settingsItem := settingsItem ls;
        writeFails := writeFails ls |}).

(** The fields the form hands over for a new transaction. *)
Record TransactionData := {
  d_description : jsstring;
  d_amount : JS.number;
  d_date : jsstring;
  d_category : jsstring
}.

(** An [updates] object: any subset of the fields of a transaction. *)
Record Updates := {
  u_id : option jsstring;
  u_description : option jsstring;
  u_amount : option JS.number;
  u_category : option jsstring;
  u_date : option jsstring;
  u_createdAt : option jsstring;
  u_updatedAt : option jsstring
}.

Definition orKeep {A} (new : option A) (old : A) : A :=
  match new with Some a => a | None => old end.

(** [{ ...t, ...updates, updatedAt }] *)
Definition merge (t : Transaction) (updates : Updates) (stamp : jsstring)
    : Transaction :=
  {| id := orKeep (u_id updates) (id t);
     description := orKeep (u_description updates) (description t);
     amount := orKeep (u_amount updates) (amount t);
     category := orKeep (u_category updates) (category t);
     date := orKeep (u_date updates) (date t);
     createdAt := orKeep (u_createdAt updates) (createdAt t);
     updatedAt := stamp |}.

(** [l.findIndex(t => t.id === id)]; [None] stands for -1. *)
Fixpoint findIndex (i : jsstring) (l : list Transaction) : option nat :=
  match l with
  | [] => None
  | t :: l' =>
      if JS.eqb (id t) i then Some 0 else option_map S (findIndex i l')
  end.

(** [l[index] = t] for an index inside the array. *)
Fixpoint setAt {A} (index : nat) (a : A) (l : list A) : list A :=
  match l, index with
  | [], _ => []
  | _ :: l', 0 => a :: l'
  | b :: l', S k => b :: setAt k a l'
  end.

Definition addTransaction (h : Host) (transaction : TransactionData)
    (ls : LocalStorage) : option Transaction * LocalStorage :=
  let transactions := loadTransactions ls in
  let newTransaction :=
    {| id := generateId h 0;
       description := d_description transaction;
       amount := d_amount transaction;
       category := d_category transaction;
       date := d_date transaction;
       createdAt := now h 0;
       updatedAt := now h 0 |} in
  let '(_, ls1) := saveTransactions (transactions ++ [newTransaction]) ls in
  (Some newTransaction, ls1).

Definition updateTransaction (h : Host) (i : jsstring) (updates : Updates)
    (ls : LocalStorage) : option Transaction * LocalStorage :=
  let transactions := loadTransactions ls in
  match findIndex i transactions with
  | None => (None, ls)
  | Some index =>
      let updatedTransaction :=
        merge (nth index transactions
                 {| id := []; description := []; amount := JS.NaN;
                    category := []; date := []; createdAt := [];
                    updatedAt := [] |})
              updates (now h 0) in
      let '(_, ls1) :=
        saveTransactions (setAt index updatedTransaction transactions) ls in
      (Some updatedTransaction, ls1)
  end.

Definition deleteTransaction (i : jsstring) (ls : LocalStorage)
    : bool * LocalStorage :=
  let transactions := loadTransactions ls in
  let filtered := filter (fun t => negb (JS.eqb (id t) i)) transactions in
  if length filtered =? length transactions then (false, ls)
  else
    let '(_, ls1) := saveTransactions filtered ls in
    (true, ls1).

(** [localStorage.removeItem] *)
Definition clearTransactions (ls : LocalStorage) : bool * LocalStorage :=
  (true,
   {| transactionsItem := None;
      categoriesItem := categoriesItem ls;
      settingsItem := settingsItem ls;
      writeFails := writeFails ls |}).

Definition importTransactions (transactions : list Transaction)
    (ls : LocalStorage) : bool * LocalStorage :=
  let '(_, ls1) := saveTransactions transactions ls in
  (true, ls1).

Definition saveCategories (categories : list jsstring) (ls : LocalStorage)
    : bool * LocalStorage :=
  if writeFails ls then (false, ls)
  else
    (true,
     {| transactionsItem := transactionsItem ls;
        categoriesItem := Some (Data categories);
        settingsItem := settingsItem ls;
        writeFails := writeFails ls |}).

(** An absent key is initialised with the defaults on the way. *)
Definition loadCategories (ls : LocalStorage) : list jsstring * LocalStorage :=
  match categoriesItem ls with
  | None =>
      let '(_, ls1) := saveCategories DEFAULT_CATEGORIES ls in
      (DEFAULT_CATEGORIES, ls1)
  | Some (Data l) => (l, ls)
  | Some Garbage => (DEFAULT_CATEGORIES, ls)
  end.

Definition sameIgnoringCase (a b : jsstring) : bool :=
  JS.eqb (JS.toLowerCase a) (JS.toLowerCase b).

Definition addCategory (category : jsstring) (ls : LocalStorage)
    : bool * LocalStorage :=
  let '(categories, ls1) := loadCategories ls in
  let normalized := JS.trim category in
  if existsb (fun c => sameIgnoringCase c normalized) categories
  then (false, ls1)
  else
    let '(_, ls2) := saveCategories (categories ++ [normalized]) ls1 in
    (true, ls2).

Definition removeCategory (category : jsstring) (ls : LocalStorage)
    : bool * LocalStorage :=
  let '(categories, ls1) := loadCategories ls in
  let filtered := filter (fun c => negb (JS.eqb c category)) categories in
  if length filtered =? length categories then (false, ls1)
  else
    let '(_, ls2) := saveCategories filtered ls1 in
    (true, ls2).

Definition saveSettings (settings : Settings) (ls : LocalStorage)
    : bool * LocalStorage :=
  if writeFails ls then (false, ls)
  else
    (true,
     {| transactionsItem := transactionsItem ls;
        categoriesItem := categoriesItem ls;
        settingsItem := Some (Data settings);
        writeFails := writeFails ls |}).

Definition loadSettings (ls : LocalStorage) : Settings * LocalStorage :=
  match settingsItem ls with
  | None =>
      let '(_, ls1) := saveSettings DEFAULT_SETTINGS ls in
      (DEFAULT_SETTINGS, ls1)
  | Some (Data st) => (st, ls)
  | Some Garbage => (DEFAULT_SETTINGS, ls)
  end.

(** An [updates] object for the settings. *)
Record SettingsUpdates := {
  su_baseCurrency : option jsstring;
  su_displayCurrency : option jsstring;
  su_rateEUR : option JS.number;
  su_rateRWF : option JS.number;
  su_budgetCap : option JS.number
}.

Definition mergeSettings (st : Settings) (updates : SettingsUpdates)
    : Settings :=
  {| baseCurrency := orKeep (su_baseCurrency updates) (baseCurrency st);
     displayCurrency := orKeep (su_displayCurrency updates) (displayCurrency st);
     rateEUR := orKeep (su_rateEUR updates) (rateEUR st);
     rateRWF := orKeep (su_rateRWF updates) (rateRWF st);
     budgetCap := orKeep (su_budgetCap updates) (budgetCap st) |}.

Definition updateSettings (updates : SettingsUpdates) (ls : LocalStorage)
    : Settings * LocalStorage :=
  let '(settings, ls1) := loadSettings ls in
  let updatedSettings := mergeSettings settings updates in
  let '(_, ls2) := saveSettings updatedSettings ls1 in
  (updatedSettings, ls2).

(** [transactions.find(t => t.id === id) || null] *)
Definition getTransaction (i : jsstring) (ls : LocalStorage)
    : option Transaction :=
  find (fun t => JS.eqb (id t) i) (loadTransactions ls).

(** [localStorage.removeItem] on the three keys. *)
Definition clearAllData (ls : LocalStorage) : bool * LocalStorage :=
  (true,
   {| transactionsItem := None; categoriesItem := None;
      settingsItem := None; writeFails := writeFails ls |}).

End storage.

(** ** state.js *)

Module state.

Record UI := {
  currentSection : jsstring;
  searchQuery : jsstring;
  searchRegex : option RegExp.t;
  sortBy : jsstring;
  categoryFilter : jsstring;
  editingId : option jsstring;
  isLoading : bool
}.

(** The in-memory mirror of the stored data, with the session state. *)
Record State := {
  transactions : list Transaction;
  categories : list jsstring;
  settings : Settings;
  ui : UI
}.

Definition initial : State :=
  {| transactions := [];
     categories := [];
     settings := storage.DEFAULT_SETTINGS;
     ui := {| currentSection := "dashboard"; searchQuery := [];
              searchRegex := None; sortBy := "date-desc";
              categoryFilter := []; editingId := None; isLoading := false |} |}.

Definition withTransactions (st : State) (l : list Transaction) : State :=
  {| transactions := l; categories := categories st;
     settings := settings st; ui := ui st |}.

Definition withCategories (st : State) (l : list jsstring) : State :=
  {| transactions := transactions st; categories := l;
     settings := settings st; ui := ui st |}.

Definition withSettings (st : State) (x : Settings) : State :=
  {| transactions := transactions st; categories := categories st;
     settings := x; ui := ui st |}.

Definition withUI (st : State) (u : UI) : State :=
  {| transactions := transactions st; categories := categories st;
     settings := settings st; ui := u |}.

Definition withSearch (u : UI) (query : jsstring) (r : option RegExp.t) : UI :=
  {| currentSection := currentSection u; searchQuery := query;
     searchRegex := r; sortBy := sortBy u;
     categoryFilter := categoryFilter u; editingId := editingId u;
     isLoading := isLoading u |}.

Definition initState (ls : storage.LocalStorage)
    : State * storage.LocalStorage :=
  let '(cats, ls1) := storage.loadCategories ls in
  let '(sett, ls2) := storage.loadSettings ls1 in
  ({| transactions := storage.loadTransactions ls; categories := cats;
      settings := sett; ui := ui initial |}, ls2).

Definition getTransactions (st : State) : list Transaction := transactions st.

(** *** Filtering and sorting *)

(** The predicate of the search filter: the fields are tried in turn on
    the one matcher of the session, which keeps its [lastIndex] from one
    call of [test] to the next. *)
Definition testFields (t : Transaction) (r : RegExp.t) : bool * RegExp.t :=
  let '(b1, r1) := RegExp.test r (description t) in
  if b1 then (true, r1)
  else
    let '(b2, r2) := RegExp.test r1 (category t) in
    if b2 then (true, r2)
    else
      let '(b3, r3) := RegExp.test r2 (JS.numberToString (amount t)) in
      if b3 then (true, r3) else RegExp.test r3 (date t).

Section Sorting.

(** The collation of the host, [a.localeCompare(b)]. *)
Variable localeCompare : jsstring -> jsstring -> JS.number.

Definition comparison (field : jsstring) (a b : Transaction) : JS.number :=
  if JS.eqb field "date" then
    JS.sub (JS.dateValue (date a)) (JS.dateValue (date b))
  else if JS.eqb field "description" then
    localeCompare (description a) (description b)
  else if JS.eqb field "amount" then JS.sub (amount a) (amount b)
  else JS.zero.

Definition sortTransactions (l : list Transaction) (sortKey : jsstring)
    : list Transaction :=
  let parts := JS.split "-" sortKey in
  let field := nth 0 parts [] in
  let direction := nth 1 parts [] in
  let multiplier := if JS.eqb direction "asc" then JS.ofZ 1 else JS.ofZ (-1) in
  JS.sort (fun a b => JS.mul (comparison field a b) multiplier) l.

Definition getFilteredTransactions (st : State) : list Transaction * State :=
  let filtered := transactions st in
  let filtered1 :=
    if RegExp.isNil (categoryFilter (ui st)) then filtered
    else filter (fun t => JS.eqb (category t) (categoryFilter (ui st))) filtered in
  let '(filtered2, regex1) :=
    match searchRegex (ui st) with
    | Some r =>
        let '(kept, r1) := search.filterWith testFields filtered1 r in
        (kept, Some r1)
    | None => (filtered1, None)
    end in
  (sortTransactions filtered2 (sortBy (ui st)),
   withUI st (withSearch (ui st) (searchQuery (ui st)) regex1)).

End Sorting.

(** *** Statistics *)














(** *** Actions

    Each action takes the mirror and the storage and hands both back. *)

Definition addTransaction (h : Host) (transactionData : storage.TransactionData)
    (st : State) (ls : storage.LocalStorage)
    : option Transaction * State * storage.LocalStorage :=
  match storage.addTransaction h transactionData ls with
  | (Some newTransaction, ls1) =>
      (Some newTransaction,
       withTransactions st (transactions st ++ [newTransaction]), ls1)
  | (None, ls1) => (None, st, ls1)
  end.

Definition updateTransaction (h : Host) (i : jsstring)
    (updates : storage.Updates) (st : State) (ls : storage.LocalStorage)
    : option Transaction * State * storage.LocalStorage :=
  match storage.updateTransaction h i updates ls with
  | (Some updated, ls1) =>
      match storage.findIndex i (transactions st) with
      | Some index =>
          (Some updated,
           withTransactions st (storage.setAt index updated (transactions st)),
           ls1)
      | None => (Some updated, st, ls1)
      end
  | (None, ls1) => (None, st, ls1)
  end.

Definition deleteTransaction (i : jsstring) (st : State)
    (ls : storage.LocalStorage) : bool * State * storage.LocalStorage :=
  match storage.deleteTransaction i ls with
  | (true, ls1) =>
      (true,
       withTransactions st
         (filter (fun t => negb (JS.eqb (id t) i)) (transactions st)), ls1)
  | (false, ls1) => (false, st, ls1)
  end.

Definition importTransactions (l : list Transaction) (st : State)
    (ls : storage.LocalStorage) : bool * State * storage.LocalStorage :=
  match storage.importTransactions l ls with
  | (true, ls1) => (true, withTransactions st l, ls1)
  | (false, ls1) => (false, st, ls1)
  end.

Definition clearAllTransactions (st : State) (ls : storage.LocalStorage)
    : bool * State * storage.LocalStorage :=
  match storage.clearTransactions ls with
  | (true, ls1) => (true, withTransactions st [], ls1)
  | (false, ls1) => (false, st, ls1)
  end.

Definition addCategory (category : jsstring) (st : State)
    (ls : storage.LocalStorage) : bool * State * storage.LocalStorage :=
  if existsb (fun c => storage.sameIgnoringCase c category) (categories st)
  then (false, st, ls)
  else
    match storage.addCategory category ls with
    | (true, ls1) => (true, withCategories st (categories st ++ [category]), ls1)
    | (false, ls1) => (false, st, ls1)
    end.

Definition removeCategory (category : jsstring) (st : State)
    (ls : storage.LocalStorage) : bool * State * storage.LocalStorage :=
  match storage.removeCategory category ls with
  | (true, ls1) =>
      (true,
       withCategories st
         (filter (fun c => negb (JS.eqb c category)) (categories st)), ls1)
  | (false, ls1) => (false, st, ls1)
  end.

Definition updateSettings (updates : storage.SettingsUpdates) (st : State)
    (ls : storage.LocalStorage) : State * storage.LocalStorage :=
  let '(updated, ls1) := storage.updateSettings updates ls in
  (withSettings st updated, ls1).

Definition setCategoryFilter (category : jsstring) (st : State) : State :=
  withUI st
    {| currentSection := currentSection (ui st);
       searchQuery := searchQuery (ui st);
       searchRegex := searchRegex (ui st); sortBy := sortBy (ui st);
       categoryFilter := category; editingId := editingId (ui st);
       isLoading := isLoading (ui st) |}.

Definition setSearchQuery (query : jsstring) (caseInsensitive : bool)
    (st : State) : validators.Result * State :=
  if validators.blank query then
    (validators.accept, withUI st (withSearch (ui st) query None))
  else
    let flags := if caseInsensitive then RegExp.flags_gi else RegExp.flags_g in
    match RegExp.create query flags with
    | RegExp.Ok r =>
        (validators.accept, withUI st (withSearch (ui st) query (Some r)))
    | RegExp.Throw message =>
        (validators.reject ("Invalid regex pattern: " ++ message),
         withUI st (withSearch (ui st) query None))
    end.

(** *** Getters *)







End state.


(** ** Notions of the specification *)

Module Spec.

(** The amount shape in words: zero, or an integer that does not start
    with zero, optionally followed by a point and one or two digits. *)
Definition integerShape (s : jsstring) : bool :=
  match s with
  | [] => false
  | c :: r =>
      (Ascii.eqb c "0" && RegExp.isNil r)
      || (JS.between 49 57 c && forallb JS.isDigit r)
  end.

Definition decimalsShape (s : jsstring) : bool :=
  match s with
  | [] => true
  | c :: r =>
      Ascii.eqb c "." && forallb JS.isDigit r
      && (1 <=? length r) && (length r <=? 2)
  end.

Fixpoint untilPoint (s : jsstring) : jsstring * jsstring :=
  match s with
  | [] => ([], [])
  | c :: r =>
      if Ascii.eqb c "." then ([], s)
      else let '(a, b) := untilPoint r in (c :: a, b)
  end.

Definition amountShape (s : jsstring) : bool :=
  let '(int, frac) := untilPoint s in integerShape int && decimalsShape frac.


Definition amountOf (t : Transaction) : Q :=
  match amount t with
  | JS.Num q => q
  | JS.NaN => 0%Q
  end.



Definition finite (a : JS.number) : bool :=
  match a with
  | JS.Num _ => true
  | JS.NaN => false
  end.

(** An item of an import batch that cannot be imported. *)
Definition itemFails (h : Host) (it : validators.item) : bool :=
  match it with
  | validators.NotObject => true
  | validators.Object o =>
      negb (RegExp.isNil (validators.missingFields o))
      || negb (validators.tvalid
                 (validators.validateTransaction (currentYear h)
                    {| validators.in_description :=
                         validators.fieldText (validators.o_description o);
                       validators.in_amount :=
                         validators.fieldText (validators.o_amount o);
                       validators.in_date :=
                         validators.fieldText (validators.o_date o);
                       validators.in_category :=
                         validators.fieldText (validators.o_category o) |}))
  end.

(** Every ['&'] of a piece of markup starts one of the character
    references the escaping writes. *)
Fixpoint prefixOf (p s : jsstring) : bool :=
  match p, s with
  | [], _ => true
  | a :: p', b :: s' => Ascii.eqb a b && prefixOf p' s'
  | _ :: _, [] => false
  end.

Fixpoint ampersandsEscaped (s : jsstring) : bool :=
  match s with
  | [] => true
  | c :: r =>
      (negb (Ascii.eqb c "&")
       || prefixOf "amp;" r || prefixOf "lt;" r || prefixOf "gt;" r
       || prefixOf "nbsp;" r)
      && ampersandsEscaped r
  end.

(** *** Positions of the matcher *)

(** The position at the start of a text. *)
Definition start (s : jsstring) : RegExp.mstate :=
  {| RegExp.prev := []; RegExp.rest := s; RegExp.caps := [] |}.

(** The position [w] further on, with [r] ahead. *)
Definition advance (w : jsstring) (x : RegExp.mstate) (r : list ascii)
    : RegExp.mstate :=
  {| RegExp.prev := rev w ++ RegExp.prev x; RegExp.rest := r;
     RegExp.caps := RegExp.caps x |}.

Definition within (hi : option nat) (n : nat) : Prop :=
  forall h, hi = Some h -> n <= h.

(** From [x] to [y] the matcher passes a run of [lo] to [hi] characters
    that all satisfy [ok]. *)
Definition run (ok : ascii -> bool) (lo : nat) (hi : option nat)
    (x y : RegExp.mstate) : Prop :=
  exists w, RegExp.rest x = w ++ RegExp.rest y
            /\ y = advance w x (RegExp.rest y)
            /\ forallb ok w = true /\ lo <= length w /\ within hi (length w).

Definition setOk (f : RegExp.Flags) (neg : bool) (items : list RegExp.citem)
    (c : ascii) : bool :=
  xorb neg (RegExp.setMatch f items c).

(** What the amount pattern is read into, after its anchor. *)
Definition digits : RegExp.node :=
  RegExp.CharSet false [RegExp.CEsc RegExp.Digit false].

Definition amountBody : RegExp.node :=
  RegExp.Seq
    (RegExp.Group (Some 1)
       (RegExp.Alt (RegExp.Seq (RegExp.Char "0") RegExp.Empty)
          (RegExp.Seq (RegExp.CharSet false [RegExp.CRange "1" "9"])
             (RegExp.Seq (RegExp.Repeat 0 None true digits) RegExp.Empty))))
    (RegExp.Seq
       (RegExp.Repeat 0 (Some 1) true
          (RegExp.Group (Some 2)
             (RegExp.Seq (RegExp.Char ".")
                (RegExp.Seq (RegExp.Repeat 1 (Some 2) true digits)
                   RegExp.Empty))))
       (RegExp.Seq RegExp.Eol RegExp.Empty)).

(** What the duplicate-word pattern is read into. *)
Definition wordSet : RegExp.node :=
  RegExp.CharSet false [RegExp.CEsc RegExp.Word false].
Definition spaceSet : RegExp.node :=
  RegExp.CharSet false [RegExp.CEsc RegExp.Space false].

Definition duplicateBody : RegExp.node :=
  RegExp.Seq (RegExp.WordB false)
    (RegExp.Seq
       (RegExp.Group (Some 1)
          (RegExp.Seq (RegExp.Repeat 1 None true wordSet) RegExp.Empty))
       (RegExp.Seq (RegExp.Repeat 1 None true spaceSet)
          (RegExp.Seq (RegExp.Backref 1)
             (RegExp.Seq (RegExp.WordB false) RegExp.Empty)))).

Definition allChars : list ascii := map ascii_of_nat (seq 0 256).

(** The answer of a validator carries the message [msg]. *)
Definition hasError (msg : jsstring) (r : validators.Result) : bool :=
  match validators.error r with
  | Some e => JS.eqb e msg
  | None => false
  end.

(** A text holds a duplicate word pair: a word, white space, and the word
    again up to the case of its letters; the first word starts and the
    second ends at a word boundary.  A word is a run of letters, digits
    and underscores. *)
Definition hasDuplicateWords (s : jsstring) : Prop :=
  exists pre w1 ws w2 post,
    s = pre ++ w1 ++ ws ++ w2 ++ post
    /\ w1 <> [] /\ forallb JS.isWord w1 = true /\ forallb JS.isWord w2 = true
    /\ ws <> [] /\ forallb JS.isSpace ws = true
    /\ storage.sameIgnoringCase w1 w2 = true
    /\ RegExp.headIs JS.isWord (rev pre) = false
    /\ RegExp.headIs JS.isWord post = false.

(** *** The top category *)






(** *** Import *)

(** The note on the failures that are not listed. *)
Definition remainder (errs : list jsstring) : jsstring :=
  if 5 <? length errs then
    validators.newline ++ "... and " ++ JS.natToString (length errs - 5)
    ++ " more"
  else [].

(** *** Highlighting *)

(** The text without the emphasis markers. *)
Fixpoint strip (skip : nat) (s : jsstring) : jsstring :=
  match s with
  | [] => []
  | c :: r =>
      match skip with
      | S k => strip k r
      | 0 =>
          if prefixOf "<mark>" s then strip 5 r
          else if prefixOf "</mark>" s then strip 6 r
          else c :: strip 0 r
      end
  end.

Definition stripMarks (s : jsstring) : jsstring := strip 0 s.

(** No angle bracket in a text. *)
Definition noAngle (s : jsstring) : bool :=
  forallb (fun c => negb (Ascii.eqb c "<") && negb (Ascii.eqb c ">")) s.

(** The matches [l] lie in [s] from position [n] on, one after the
    other. *)
Inductive placed (s : jsstring) : nat -> list RegExp.MatchResult -> Prop :=
| placed_nil n : placed s n []
| placed_cons n mr l a b :
    skipn n s = a ++ RegExp.text mr ++ b ->
    RegExp.index mr = n + length a ->
    n <= length s ->
    placed s (RegExp.index mr + length (RegExp.text mr)) l ->
    placed s n (mr :: l).

(** The matcher has moved forward from [x] to [y]. *)
Definition ahead (x y : RegExp.mstate) : Prop :=
  exists w, RegExp.rest x = w ++ RegExp.rest y.

(** *** Categories *)

(** No two names of a list of categories are equal up to the case of
    their letters. *)
Fixpoint distinctNames (l : list jsstring) : bool :=
  match l with
  | [] => true
  | a :: r => negb (existsb (storage.sameIgnoringCase a) r) && distinctNames r
  end.

(** *** Sorting *)

(** The time a transaction is dated, as [new Date] reads it. *)
Definition timeOf (t : Transaction) : Q :=
  match JS.dateValue (date t) with
  | JS.Num q => q
  | JS.NaN => 0%Q
  end.

(** A list in ascending, or descending, order of a key. *)
Definition ordered {A} (key : A -> Q) (ascending : bool) (l : list A) : Prop :=
  StronglySorted
    (fun a b => if ascending then (key a <= key b)%Q else (key b <= key a)%Q)
    l.


(** *** Exchange rates *)

(** The fraction of a numeral: nothing, or a point and at least one
    digit, at most [hi] digits when there is a bound. *)
Definition fractionShape (hi : option nat) (s : jsstring) : bool :=
  match s with
  | [] => true
  | c :: r =>
      Ascii.eqb c "." && forallb JS.isDigit r && (1 <=? length r)
      && match hi with Some h => length r <=? h | None => true end
  end.

Definition numeralShape (hi : option nat) (s : jsstring) : bool :=
  let '(int, frac) := untilPoint s in
  integerShape int && fractionShape hi frac.

(** The rate shape in words: zero, or an integer that does not start
    with zero, optionally followed by a point and one or more digits. *)
Definition rateShape (s : jsstring) : bool := numeralShape None s.

(** What a numeral pattern is read into, after its anchor. *)
Definition numeralBody (hi : option nat) : RegExp.node :=
  RegExp.Seq
    (RegExp.Group (Some 1)
       (RegExp.Alt (RegExp.Seq (RegExp.Char "0") RegExp.Empty)
          (RegExp.Seq (RegExp.CharSet false [RegExp.CRange "1" "9"])
             (RegExp.Seq (RegExp.Repeat 0 None true digits) RegExp.Empty))))
    (RegExp.Seq
       (RegExp.Repeat 0 (Some 1) true
          (RegExp.Group (Some 2)
             (RegExp.Seq (RegExp.Char ".")
                (RegExp.Seq (RegExp.Repeat 1 hi true digits)
                   RegExp.Empty))))
       (RegExp.Seq RegExp.Eol RegExp.Empty)).

(** *** Spending by category *)



(** *** Searching *)

(** Two matchers of one pattern and one set of flags. *)
Definition sameMatcher (r r' : RegExp.t) : Prop :=
  RegExp.flags r = RegExp.flags r' /\ RegExp.program r = RegExp.program r'.

(** A matcher whose source reads into its program, as every matcher
    [new RegExp] builds. *)
Definition wellFormed (r : RegExp.t) : Prop :=
  RegExp.parse (RegExp.source r) = RegExp.Ok (RegExp.program r).

(** The segments that are not highlighted hold some text. *)
Definition plainHoldText (l : list search.Segment) : Prop :=
  Forall (fun g => search.highlighted g = false -> search.text g <> []) l.

(** The texts of the highlighted segments. *)
Definition highlights (l : list search.Segment) : list jsstring :=
  map search.text (filter search.highlighted l).

(** [w] is the text [u], up to the case of the letters when [fold] is
    set. *)
Definition sameText (fold : bool) (u w : jsstring) : Prop :=
  Forall2 (fun a c =>
             (if fold then JS.toUpperChar c else c)
             = (if fold then JS.toUpperChar a else a)) u w.

(** The text [u] occurs in the text [t]. *)
Definition occursIn (fold : bool) (u t : jsstring) : Prop :=
  exists pre w post, t = pre ++ w ++ post /\ sameText fold u w.

(** What the pattern of a literal search is read into. *)
Definition literalNode (u : jsstring) : RegExp.node :=
  fold_right (fun c d => RegExp.Seq (RegExp.Char c) d) RegExp.Empty u.

(** A character that is no white space. *)
Definition solid (c : ascii) : bool := negb (JS.isSpace c).

(** *** Literal searches *)

(** The characters [escapeRegex] puts a backslash before. *)
Definition special (c : ascii) : bool :=
  existsb (Ascii.eqb c) (list_ascii_of_string ".*+?^${}()|[]\").

Definition escaped (s : jsstring) : jsstring :=
  flat_map (fun c => if special c then ["\"%char; c] else [c]) s.

(** What the class of [escapeRegex] is read into. *)
Definition specialItems : list RegExp.citem :=
  [RegExp.CChar "."; RegExp.CChar "*"; RegExp.CChar "+"; RegExp.CChar "?";
   RegExp.CChar "^"; RegExp.CChar "$"; RegExp.CChar "{"; RegExp.CChar "}";
   RegExp.CChar "("; RegExp.CChar ")"; RegExp.CChar "|"; RegExp.CChar "[";
   RegExp.CChar "]"; RegExp.CChar "\"].

(** *** Answers of the validators *)

(** The message of an answer, empty when there is none. *)
Definition message (r : validators.Result) : jsstring :=
  match validators.error r with
  | Some e => e
  | None => []
  end.

(** The entry a field has in the errors of a transaction. *)
Definition entry (field : jsstring) (r : validators.Result)
    : list (jsstring * jsstring) :=
  if validators.valid r then [] else [(field, message r)].

(** An answer accepts, or rejects with a message. *)
Definition plain (r : validators.Result) : Prop :=
  r = validators.accept \/ exists msg, r = validators.reject msg.

(** *** Descriptions *)

(** Two white-space characters in a row. *)
Fixpoint doubleSpace (s : jsstring) : bool :=
  match s with
  | a :: r =>
      (JS.isSpace a && RegExp.headIs JS.isSpace r) || doubleSpace r
  | [] => false
  end.

Definition noLineBreak (s : jsstring) : bool :=
  forallb (fun c => negb (JS.isLineTerminator c)) s.

(** The description shape in words: no white space at either end, no two
    white-space characters in a row, no line break, and 2 to 200
    characters. *)
Definition descriptionShape (s : jsstring) : bool :=
  RegExp.headIs solid s && RegExp.headIs solid (rev s)
  && negb (doubleSpace s) && noLineBreak s
  && (2 <=? length s) && (length s <=? 200).

(** What the patterns of [validateDescription] are read into. *)
Definition solidSet : RegExp.node :=
  RegExp.CharSet false [RegExp.CEsc RegExp.Space true].

Definition descriptionBody : RegExp.node :=
  RegExp.Seq solidSet
    (RegExp.Seq
       (RegExp.Repeat 0 (Some 1) true
          (RegExp.Group None
             (RegExp.Seq (RegExp.Repeat 0 None true RegExp.Dot)
                (RegExp.Seq solidSet RegExp.Empty))))
       (RegExp.Seq RegExp.Eol RegExp.Empty)).

Definition spacesBody : RegExp.node :=
  RegExp.Seq (RegExp.Repeat 2 None true spaceSet) RegExp.Empty.

(** *** Categories, by their letters *)

Definition isLetter (c : ascii) : bool := JS.isUpper c || JS.isLower c.

(** A space or a hyphen. *)
Definition isJoin (c : ascii) : bool := Ascii.eqb c " " || Ascii.eqb c "-".

(** Letters, with single spaces or hyphens between them only;
    [afterLetter] says whether the character before was a letter. *)
Fixpoint lettersAndJoins (afterLetter : bool) (s : jsstring) : bool :=
  match s with
  | [] => afterLetter
  | c :: r =>
      if isLetter c then lettersAndJoins true r
      else if isJoin c then afterLetter && lettersAndJoins false r
      else false
  end.

(** The category shape in words: runs of letters joined by single spaces
    or hyphens. *)
Definition categoryShape (s : jsstring) : bool := lettersAndJoins false s.

(** What the category pattern is read into, after its anchor. *)
Definition letterSet : RegExp.node :=
  RegExp.CharSet false [RegExp.CRange "A" "Z"; RegExp.CRange "a" "z"].

Definition joinSet : RegExp.node :=
  RegExp.CharSet false [RegExp.CChar " "; RegExp.CChar "-"].

Definition joinedWord : RegExp.node :=
  RegExp.Seq joinSet
    (RegExp.Seq (RegExp.Repeat 1 None true letterSet) RegExp.Empty).

Definition categoryBody : RegExp.node :=
  RegExp.Seq (RegExp.Repeat 1 None true letterSet)
    (RegExp.Seq (RegExp.Repeat 0 None true (RegExp.Group None joinedWord))
       (RegExp.Seq RegExp.Eol RegExp.Empty)).

(** A chain of iterations of a repeated atom, each passing some text. *)
Inductive chain (once : RegExp.mstate -> list RegExp.mstate)
    : RegExp.mstate -> RegExp.mstate -> Prop :=
| chain_stop x : chain once x x
| chain_step x z y :
    In z (once x) ->
    length (RegExp.rest z) <> length (RegExp.rest x) ->
    chain once z y -> chain once x y.

(** *** Dates *)

Definition leapYear (y : Z) : bool :=
  (((y mod 4 =? 0) && negb (y mod 100 =? 0)) || (y mod 400 =? 0))%Z.

Definition daysInMonth (y m : Z) : Z :=
  if (m =? 2)%Z then (if leapYear y then 29 else 28)%Z
  else if ((m =? 4) || (m =? 6) || (m =? 9) || (m =? 11))%Z then 30%Z
  else 31%Z.

(** The number a run of digits stands for. *)
Definition numeral (s : jsstring) : Z := fst (fst (JS.readDigits s 0 0)).

(** The date a day of a month of a year carries over to is the date
    itself. *)
Definition staysPut (y m d : Z) : bool :=
  let '(cy, cm, cd) := JS.civilFromDays (JS.daysFromCivil y m 1 + d - 1) in
  ((cy =? y) && (cm =? m) && (cd =? d))%Z.

(** The two digits of a month, 01 to 12, and of a day, 01 to 31. *)
Definition monthDigits (a b : ascii) : bool :=
  (Ascii.eqb a "0" && JS.between 49 57 b)
  || (Ascii.eqb a "1" && JS.between 48 50 b).

Definition dayDigits (a b : ascii) : bool :=
  (Ascii.eqb a "0" && JS.between 49 57 b)
  || ((Ascii.eqb a "1" || Ascii.eqb a "2") && JS.isDigit b)
  || (Ascii.eqb a "3" && (Ascii.eqb b "0" || Ascii.eqb b "1")).

(** The date shape in words: four digits, a month and a day, with
    hyphens between them. *)
Definition dateShape (s : jsstring) : bool :=
  match s with
  | [y1; y2; y3; y4; h1; m1; m2; h2; d1; d2] =>
      forallb JS.isDigit [y1; y2; y3; y4] && Ascii.eqb h1 "-"
      && monthDigits m1 m2 && Ascii.eqb h2 "-" && dayDigits d1 d2
  | _ => false
  end.

(** A date of the date shape that the calendar has, in a year from 2000
    to ten years after the current one. *)
Definition realDate (currentYear : Z) (s : jsstring) : bool :=
  dateShape s
  && (let y := numeral (firstn 4 s) in
      let m := numeral (firstn 2 (skipn 5 s)) in
      let d := numeral (skipn 8 s) in
      (d <=? daysInMonth y m) && (2000 <=? y) && (y <=? currentYear + 10))%Z.

(** What the date pattern is read into, after its anchor. *)
Definition twoOf (a b : RegExp.node) : RegExp.node :=
  RegExp.Seq a (RegExp.Seq b RegExp.Empty).

Definition monthNode : RegExp.node :=
  RegExp.Alt
    (twoOf (RegExp.Char "0") (RegExp.CharSet false [RegExp.CRange "1" "9"]))
    (twoOf (RegExp.Char "1") (RegExp.CharSet false [RegExp.CRange "0" "2"])).

Definition dayNode : RegExp.node :=
  RegExp.Alt
    (twoOf (RegExp.Char "0") (RegExp.CharSet false [RegExp.CRange "1" "9"]))
    (RegExp.Alt
       (twoOf (RegExp.CharSet false [RegExp.CChar "1"; RegExp.CChar "2"])
          digits)
       (twoOf (RegExp.Char "3")
          (RegExp.CharSet false [RegExp.CChar "0"; RegExp.CChar "1"]))).

Definition dateBody : RegExp.node :=
  RegExp.Seq (RegExp.Repeat 4 (Some 4) true digits)
    (RegExp.Seq (RegExp.Char "-")
       (RegExp.Seq (RegExp.Group (Some 1) monthNode)
          (RegExp.Seq (RegExp.Char "-")
             (RegExp.Seq (RegExp.Group (Some 2) dayNode)
                (RegExp.Seq RegExp.Eol RegExp.Empty))))).

(** A node that passes one character, one that satisfies [ok]. *)
Definition single (N : RegExp.node) (ok : ascii -> bool) : Prop :=
  forall x y,
    In y (RegExp.m RegExp.noFlags N x) <->
    exists c r, RegExp.rest x = c :: r /\ ok c = true
                /\ y = {| RegExp.prev := c :: RegExp.prev x;
                          RegExp.rest := r; RegExp.caps := RegExp.caps x |}.

(** A record that keeps the rules of the four fields. *)
Definition keepsRules (currentYear : Z) (t : Transaction) : Prop :=
  descriptionShape (description t) = true
  /\ ~ hasDuplicateWords (description t)
  /\ (exists q, amount t = JS.Num q /\ (0 <= q)%Q /\ (q <= 99999999 # 100)%Q)
  /\ realDate currentYear (date t) = true
  /\ categoryShape (category t) = true
  /\ 2 <= length (category t) <= 50.

(** A text that is empty or starts with white space. *)
Definition gap (w : jsstring) : Prop :=
  w = [] \/ RegExp.headIs JS.isSpace w = true.

End Spec.

(** ** Sample data *)

Module Samples.

Definition host : Host :=
  {| generateId := fun k => "txn_" ++ JS.natToString k;
     now := fun _ => "2026-01-15T10:00:00.000Z";
     currentYear := 2026 |}.

Definition tea (i : jsstring) : Transaction :=
  {| id := i; description := "Tea"; amount := JS.ofZ 5; category := "Food";
     date := "2025-01-01"; createdAt := "2025-01-01T08:00:00.000Z";
     updatedAt := "2025-01-01T08:00:00.000Z" |}.

Definition spend (k : jsstring) (a : Z) : Transaction :=
  {| id := "txn_s"; description := "Spend"; amount := JS.ofZ a;
     category := k; date := "2025-01-01";
     createdAt := "2025-01-01T08:00:00.000Z";
     updatedAt := "2025-01-01T08:00:00.000Z" |}.

Definition lunch : storage.TransactionData :=
  {| storage.d_description := "Lunch"; storage.d_amount := JS.Num (25 # 2);
     storage.d_date := "2025-09-15"; storage.d_category := "Food" |}.

(** A storage that holds nothing and refuses every write. *)
Definition fullStorage : storage.LocalStorage :=
  {| storage.transactionsItem := None; storage.categoriesItem := None;
     storage.settingsItem := None; storage.writeFails := true |}.

Definition emptyStorage : storage.LocalStorage :=
  {| storage.transactionsItem := None; storage.categoriesItem := None;
     storage.settingsItem := None; storage.writeFails := false |}.

Definition storageWith (l : list Transaction) : storage.LocalStorage :=
  {| storage.transactionsItem := Some (storage.Data l);
     storage.categoriesItem := None; storage.settingsItem := None;
     storage.writeFails := false |}.

Definition noUpdates : storage.Updates :=
  {| storage.u_id := None; storage.u_description := None;
     storage.u_amount := None; storage.u_category := None;
     storage.u_date := None; storage.u_createdAt := None;
     storage.u_updatedAt := None |}.

Definition rename (d : jsstring) : storage.Updates :=
  {| storage.u_id := None; storage.u_description := Some d;
     storage.u_amount := None; storage.u_category := None;
     storage.u_date := None; storage.u_createdAt := None;
     storage.u_updatedAt := None |}.

Definition reassign (i : jsstring) : storage.Updates :=
  {| storage.u_id := Some i; storage.u_description := None;
     storage.u_amount := None; storage.u_category := None;
     storage.u_date := None; storage.u_createdAt := None;
     storage.u_updatedAt := None |}.

Definition importItem (d a : jsstring) : validators.item :=
  validators.Object
    {| validators.o_description := Some (validators.VStr d);
       validators.o_amount := Some (validators.VStr a);
       validators.o_category := Some (validators.VStr "Food");
       validators.o_date := Some (validators.VStr "2025-09-15");
       validators.o_id := None; validators.o_createdAt := None;
       validators.o_updatedAt := None |}.

(** A collation that holds every two texts equal. *)
Definition flatCollation (a b : jsstring) : JS.number := JS.zero.

(** Three transactions that all read "Tea", under the search "Tea". *)
Definition teaState : state.State :=
  snd (state.setSearchQuery "Tea" true
         (state.withTransactions state.initial
            [tea "txn_1"; tea "txn_2"; tea "txn_3"])).

(** A batch of five whose third item has the amount "-1", and a batch of
    two valid items. *)
Definition sampleBatch : list validators.item :=
  [importItem "Lunch" "12.50"; importItem "Bus pass" "2";
   importItem "Tea" "-1"; importItem "Books" "30";
   importItem "Fees" "100.5"].

Definition soundBatch : list validators.item :=
  [importItem "Lunch" "12.50"; importItem "Bus pass" "2"].

(** The matchers of the searches "a" and "lt", as [compileRegex]
    builds them. *)
Definition searchA : RegExp.t := RegExp.literal "a" RegExp.flags_gi.
Definition searchLt : RegExp.t := RegExp.literal "lt" RegExp.flags_gi.

End Samples.

(** * Properties *)

(** ** Strings *)

Lemma eqb_refl (s : jsstring) : JS.eqb s s = true.
Proof.
  induction s as [|c s IH]; simpl; [reflexivity|].
  now rewrite Ascii.eqb_refl, IH.
Qed.

Lemma eqb_eq (s t : jsstring) : JS.eqb s t = true <-> s = t.
Proof.
  split; [|intros ->; apply eqb_refl].
  revert t; induction s as [|c s IH]; destruct t as [|d t]; simpl;
    try discriminate; [reflexivity|].
  intros H; apply andb_true_iff in H as [Hc Hs].
  apply Ascii.eqb_eq in Hc; subst d.
  now rewrite (IH _ Hs).
Qed.

Lemma eqb_neq (s t : jsstring) : JS.eqb s t = false <-> s <> t.
Proof.
  rewrite <- eqb_eq. destruct (JS.eqb s t); split; congruence.
Qed.

(** ** The storage and its mirror *)

Section Mirror.

Variable h : Host.

Lemma findIndex_found (i : jsstring) (l : list Transaction) (n : nat)
    (d : Transaction) :
  storage.findIndex i l = Some n -> n < length l /\ id (nth n l d) = i.
Proof.
  revert n; induction l as [|t l IH]; simpl; [discriminate|].
  intros n. destruct (JS.eqb (id t) i) eqn:E.
  - intros [= <-]. split; [lia|]. now apply eqb_eq.
  - destruct (storage.findIndex i l) as [k|]; simpl; [|discriminate].
    intros [= <-]. destruct (IH k eq_refl) as [Hk Hid].
    split; [lia|exact Hid].
Qed.

Lemma setAt_ids (n : nat) (t d : Transaction) (l : list Transaction) :
  n < length l -> id t = id (nth n l d) ->
  map id (storage.setAt n t l) = map id l.
Proof.
  revert n; induction l as [|a l IH]; intros [|n]; simpl; intros Hn Hid;
    try lia.
  - now rewrite Hid.
  - f_equal. apply IH; [lia|exact Hid].
Qed.

Lemma saveTransactions_load (l : list Transaction) (ls : storage.LocalStorage) :
  storage.loadTransactions (snd (storage.saveTransactions l ls))
  = if storage.writeFails ls then storage.loadTransactions ls else l.
Proof.
  unfold storage.saveTransactions. now destruct (storage.writeFails ls).
Qed.

(** C8, as amended: when the updates carry no [id] of their own, the
    update mutator returns the record under the id it was addressed at,
    and the ids of the mirror and of the stored list stay as they were,
    position by position; the other fields are merged and [updatedAt] is
    stamped anew. *)
Theorem updateTransaction_keeps_id (i : jsstring) (updates : storage.Updates)
    (st st' : state.State) (ls ls' : storage.LocalStorage)
    (updated : Transaction) :
  storage.u_id updates = None ->
  state.updateTransaction h i updates st ls = (Some updated, st', ls') ->
  id updated = i
  /\ updatedAt updated = now h 0
  /\ map id (state.transactions st') = map id (state.transactions st)
  /\ map id (storage.loadTransactions ls')
     = map id (storage.loadTransactions ls).
Proof.
  intros Hid. unfold state.updateTransaction, storage.updateTransaction.
  set (blank := {| id := []; description := []; amount := JS.NaN;
                   category := []; date := []; createdAt := [];
                   updatedAt := [] |}).
  destruct (storage.findIndex i (storage.loadTransactions ls)) as [n|] eqn:En;
    [|discriminate].
  destruct (findIndex_found _ _ _ blank En) as [Hn Hi].
  set (u := storage.merge (nth n (storage.loadTransactions ls) blank)
              updates (now h 0)).
  assert (Hu : id u = i).
  { unfold u, storage.merge; simpl. now rewrite Hid. }
  pose proof (saveTransactions_load
    (storage.setAt n u (storage.loadTransactions ls)) ls) as Hload.
  destruct (storage.saveTransactions _ ls) as [ok ls1]; simpl in Hload.
  assert (Hstore : map id (storage.loadTransactions ls1)
                   = map id (storage.loadTransactions ls)).
  { rewrite Hload. destruct (storage.writeFails ls); [reflexivity|].
    apply setAt_ids with (d := blank); [exact Hn|congruence]. }
  destruct (storage.findIndex i (state.transactions st)) as [k|] eqn:Ek.
  - intros [= <- <- <-].
    destruct (findIndex_found _ _ _ blank Ek) as [Hk Hki].
    repeat split; try assumption.
    simpl. apply setAt_ids with (d := blank); [exact Hk|congruence].
  - intros [= <- <- <-]. repeat split; assumption.
Qed.

End Mirror.

(** Witness of C8: a description is changed under the id "txn_1". *)
Lemma updateTransaction_keeps_id_witness :
  exists updated,
    fst (fst (state.updateTransaction Samples.host "txn_1"
                (Samples.rename "Green tea")
                (state.withTransactions state.initial [Samples.tea "txn_1"])
                (Samples.storageWith [Samples.tea "txn_1"])))
    = Some updated
    /\ id updated = "txn_1".
Proof.
  destruct (state.updateTransaction Samples.host "txn_1"
              (Samples.rename "Green tea")
              (state.withTransactions state.initial [Samples.tea "txn_1"])
              (Samples.storageWith [Samples.tea "txn_1"]))
    as [[[updated|] st'] ls'] eqn:E.
  - exists updated. split; [reflexivity|].
    exact (proj1 (updateTransaction_keeps_id Samples.host "txn_1"
      (Samples.rename "Green tea") _ _ _ _ _ eq_refl E)).
  - vm_compute in E. discriminate E.
Defined.

(** Counterexample to C8 as stated: an updates object that names an [id]
    replaces the id of the record, in the mirror and in the storage. *)
Lemma updateTransaction_can_change_id :
  let st := state.withTransactions state.initial [Samples.tea "txn_1"] in
  let ls := Samples.storageWith [Samples.tea "txn_1"] in
  let '(_, st', ls') :=
    state.updateTransaction Samples.host "txn_1" (Samples.reassign "txn_2")
      st ls in
  map id (state.transactions st) = ["txn_1" : jsstring]
  /\ map id (state.transactions st') = ["txn_2" : jsstring]
  /\ map id (storage.loadTransactions ls') = ["txn_2" : jsstring].
Proof. vm_compute. repeat split. Qed.

(** C1 (the failing input): a transaction is added while the storage
    refuses the write.  The mutator still reports the created record and
    appends it to the mirror, and the stored list stays empty: the mirror
    has changed on a failed write, no failure is reported, and the mirror
    and the store differ after a call that reported success. *)
Theorem addTransaction_on_failed_write :
  let '(created, st', ls') :=
    state.addTransaction Samples.host Samples.lunch state.initial
      Samples.fullStorage in
  option_map id created = Some ("txn_0" : jsstring)
  /\ map id (state.transactions st') = ["txn_0" : jsstring]
  /\ storage.loadTransactions ls' = []
  /\ state.transactions state.initial = [].
Proof. vm_compute. repeat split. Qed.

(** ** Filtering *)

(** C2 (the failing input): three transactions that read "Tea" under the
    search "Tea".  The session's matcher is global and keeps its
    [lastIndex] between the calls of [test], so the first pass keeps the
    first and the third record, and filtering that output again keeps the
    third only. *)
Theorem getFilteredTransactions_twice_differs :
  let '(once, st1) :=
    state.getFilteredTransactions Samples.flatCollation Samples.teaState in
  let '(twice, _) :=
    state.getFilteredTransactions Samples.flatCollation
      (state.withTransactions st1 once) in
  map id (state.transactions Samples.teaState)
  = ["txn_1" : jsstring; "txn_2" : jsstring; "txn_3" : jsstring]
  /\ map id once = ["txn_1" : jsstring; "txn_3" : jsstring]
  /\ map id twice = ["txn_3" : jsstring].
Proof. vm_compute. repeat split. Qed.

(** ** The safe-search compiler *)



(** ** The matcher *)

Module RegExpFacts.

Import RegExp.
Import Spec.

Lemma step_in (x y : mstate) (ok : ascii -> bool) :
  In y (step x ok) <->
  exists c r, rest x = c :: r /\ ok c = true
              /\ y = {| prev := c :: prev x; rest := r; caps := caps x |}.
Proof.
  unfold step. destruct (rest x) as [|c r].
  - split; [intros []|]. intros (c & r & H & _); discriminate.
  - destruct (ok c) eqn:E; simpl; split.
    + intros [<-|[]]. now exists c, r.
    + intros (c' & r' & [= <- <-] & _ & ->). now left.
    + intros [].
    + intros (c' & r' & [= <- <-] & E' & _). congruence.
Qed.

Lemma m_seq f a b x y :
  In y (m f (Seq a b) x) <-> exists z, In z (m f a x) /\ In y (m f b z).
Proof. simpl. apply in_flat_map. Qed.

Lemma m_alt f a b x y :
  In y (m f (Alt a b) x) <-> In y (m f a x) \/ In y (m f b x).
Proof. simpl. apply in_app_iff. Qed.

Lemma m_empty f x y : In y (m f Empty x) <-> y = x.
Proof. simpl. split; [intros [<-|[]]; reflexivity|intros ->; now left]. Qed.

Lemma m_group f n r x y :
  In y (m f (Group (Some n) r) x) <->
  exists z, In z (m f r x) /\ y = setCap n x z.
Proof.
  simpl. rewrite in_map_iff. split; intros (z & H1 & H2); exists z; auto.
Qed.

Lemma m_bol f x y :
  multiline f = false ->
  (In y (m f Bol x) <-> prev x = [] /\ y = x).
Proof.
  intros Hm. simpl. rewrite Hm. simpl. rewrite orb_false_r.
  destruct (prev x); simpl; split; try tauto.
  - intros [<-|[]]. auto.
  - intros [_ ->]. now left.
  - intros [H _]; discriminate.
Qed.

Lemma m_eol f x y :
  multiline f = false ->
  (In y (m f Eol x) <-> rest x = [] /\ y = x).
Proof.
  intros Hm. simpl. rewrite Hm. simpl. rewrite orb_false_r.
  destruct (rest x); simpl; split; try tauto.
  - intros [<-|[]]. auto.
  - intros [_ ->]. now left.
  - intros [H _]; discriminate.
Qed.

Lemma m_wordb f x y :
  In y (m f (WordB false) x) <-> atBoundary x = true /\ y = x.
Proof.
  simpl. destruct (atBoundary x); simpl; split; try tauto.
  - intros [<-|[]]. auto.
  - intros [_ ->]. now left.
  - intros [H _]; discriminate.
Qed.

Lemma filter_all {A} (p : A -> bool) (l : list A) :
  (forall a, p a = true) -> filter p l = l.
Proof.
  intros H. induction l as [|a l IH]; simpl; [reflexivity|].
  now rewrite H, IH.
Qed.

Lemma clearCaps_nil (x : mstate) : clearCaps [] x = x.
Proof.
  unfold clearCaps. destruct x as [p r c]; simpl. f_equal.
  now apply filter_all.
Qed.

(** *** A repeated class of characters *)

Section RepeatClass.

Variable ok : ascii -> bool.

Lemma run_here (hi : option nat) (x : mstate) : run ok 0 hi x x.
Proof.
  exists []. unfold advance, within; simpl. destruct x; simpl.
  repeat split; auto. intros; lia.
Qed.

Lemma repeat_class_sound (greedy : bool) (fuel lo : nat) (hi : option nat)
    (x y : mstate) :
  within hi lo ->
  In y (repeatM (fun z => step z ok) [] fuel lo hi greedy x) ->
  run ok lo hi x y.
Proof.
  revert lo hi x. induction fuel as [|fuel IH]; intros lo hi x Hlh; simpl;
    [intros []|].
  assert (Hiter :
    (forall h, hi = Some h -> h <> 0) ->
    In y (flat_map (fun z =>
            if (lo =? 0) && (length (rest z) =? length (rest x)) then []
            else repeatM (fun z0 => step z0 ok) [] fuel (pred lo)
                   (option_map pred hi) greedy z)
            (step (clearCaps [] x) ok)) ->
    run ok lo hi x y).
  { intros Hhi Hin. apply in_flat_map in Hin as (z & Hz & Hy).
    rewrite clearCaps_nil in Hz. apply step_in in Hz as (c & r & Hx & Hc & ->).
    destruct ((lo =? 0) && _); [destruct Hy|].
    apply IH in Hy as (w & Hr & Hy & Hw & Hlo & Hhi').
    - simpl in Hr. exists (c :: w). simpl. rewrite Hx, Hr, Hc, Hw.
      repeat split; auto.
      + rewrite Hy at 1. unfold advance; simpl. now rewrite <- app_assoc.
      + lia.
      + intros h Hh. specialize (Hhi h Hh).
        specialize (Hhi' (pred h)). rewrite Hh in Hhi'. simpl in Hhi'.
        specialize (Hhi' eq_refl). lia.
    - intros h Hh. destruct hi as [h0|]; [|discriminate].
      simpl in Hh. injection Hh as <-. specialize (Hlh h0 eq_refl). lia. }
  destruct hi as [[|h]|].
  - intros [<-|[]]. specialize (Hlh 0 eq_refl).
    assert (lo = 0) as -> by lia. apply run_here.
  - assert (Hh : forall h0, Some (S h) = Some h0 -> h0 <> 0)
      by (intros h0 [= <-]; lia).
    destruct lo as [|lo]; simpl; [|now apply Hiter].
    destruct greedy; simpl.
    + intros Hin. apply in_app_iff in Hin as [Hin|[<-|[]]];
        [now apply Hiter|apply run_here].
    + intros [<-|Hin]; [apply run_here|now apply Hiter].
  - assert (Hh : forall h0, @None nat = Some h0 -> h0 <> 0) by discriminate.
    destruct lo as [|lo]; simpl; [|now apply Hiter].
    destruct greedy; simpl.
    + intros Hin. apply in_app_iff in Hin as [Hin|[<-|[]]];
        [now apply Hiter|apply run_here].
    + intros [<-|Hin]; [apply run_here|now apply Hiter].
Qed.

Lemma repeat_class_complete (greedy : bool) (w : jsstring) :
  forall (fuel lo : nat) (hi : option nat) (x : mstate) (r : list ascii),
    rest x = w ++ r -> forallb ok w = true ->
    lo <= length w -> within hi (length w) ->
    lo + length (rest x) < fuel ->
    In (advance w x r) (repeatM (fun z => step z ok) [] fuel lo hi greedy x).
Proof.
  induction w as [|c w IH]; intros fuel lo hi x r Hx Hw Hlo Hhi Hfuel.
  - simpl in Hx, Hlo. assert (lo = 0) as -> by lia.
    assert (advance [] x r = x) as ->.
    { unfold advance; simpl. rewrite <- Hx. now destruct x. }
    destruct fuel as [|fuel]; [lia|]. simpl.
    destruct hi as [[|h]|]; simpl; [now left| |].
    + destruct greedy; [apply in_app_iff; right|]; now left.
    + destruct greedy; [apply in_app_iff; right|]; now left.
  - simpl in Hw. apply andb_true_iff in Hw as [Hc Hw].
    destruct fuel as [|fuel]; [lia|]. simpl in Hlo.
    set (x1 := {| prev := c :: prev x; rest := w ++ r; caps := caps x |}).
    assert (Hiter : In (advance (c :: w) x r)
      (flat_map (fun z =>
         if (lo =? 0) && (length (rest z) =? length (rest x)) then []
         else repeatM (fun z0 => step z0 ok) [] fuel (pred lo)
                (option_map pred hi) greedy z)
         (step (clearCaps [] x) ok))).
    { apply in_flat_map. exists x1. split.
      - rewrite clearCaps_nil. apply step_in. now exists c, (w ++ r).
      - replace (length (rest x1) =? length (rest x)) with false.
        2:{ symmetry. apply Nat.eqb_neq. rewrite Hx. simpl. lia. }
        rewrite andb_false_r.
        replace (advance (c :: w) x r) with (advance w x1 r).
        2:{ unfold advance, x1; simpl. now rewrite <- app_assoc. }
        apply IH; auto.
        + lia.
        + intros h Hh. destruct hi as [h0|]; [|discriminate].
          simpl in Hh. injection Hh as <-.
          specialize (Hhi h0 eq_refl). simpl in Hhi. lia.
        + unfold x1; simpl. rewrite Hx in Hfuel. simpl in Hfuel. lia. }
    simpl. destruct hi as [[|h]|].
    + specialize (Hhi 0 eq_refl). simpl in Hhi. lia.
    + destruct lo; simpl; [|exact Hiter].
      destruct greedy; [apply in_app_iff; now left|now right].
    + destruct lo; simpl; [|exact Hiter].
      destruct greedy; [apply in_app_iff; now left|now right].
Qed.

End RepeatClass.

Lemma m_set f neg items x y :
  In y (m f (CharSet neg items) x) <->
  exists c r, rest x = c :: r /\ setOk f neg items c = true
              /\ y = {| prev := c :: prev x; rest := r; caps := caps x |}.
Proof. simpl. apply step_in. Qed.

Lemma m_char f a x y :
  In y (m f (Char a) x) <->
  exists c r, rest x = c :: r /\ Ascii.eqb (canon f c) (canon f a) = true
              /\ y = {| prev := c :: prev x; rest := r; caps := caps x |}.
Proof. simpl. apply step_in. Qed.

Lemma m_repeat_set f lo hi greedy neg items x y :
  within hi lo ->
  (In y (m f (Repeat lo hi greedy (CharSet neg items)) x) <->
   run (setOk f neg items) lo hi x y).
Proof.
  intros Hlh.
  change (m f (Repeat lo hi greedy (CharSet neg items)) x)
    with (repeatM (fun z => step z (setOk f neg items)) []
            (S (lo + length (rest x))) lo hi greedy x).
  split.
  - now apply repeat_class_sound.
  - intros (w & Hx & -> & Hw & Hlo & Hhi).
    apply repeat_class_complete; auto.
Qed.

(** An optional atom. *)
Lemma m_optional f r x y :
  In y (m f (Repeat 0 (Some 1) true r) x) <->
  y = x \/
  (rest x <> [] /\ In y (m f r (clearCaps (groupsOf r) x))
   /\ length (rest y) <> length (rest x)).
Proof.
  change (m f (Repeat 0 (Some 1) true r) x)
    with (flat_map (fun z =>
            if (0 =? 0) && (length (rest z) =? length (rest x)) then []
            else repeatM (m f r) (groupsOf r) (length (rest x)) 0 (Some 0)
                   true z)
            (m f r (clearCaps (groupsOf r) x)) ++ [x]).
  rewrite in_app_iff, in_flat_map. simpl. split.
  - intros [(z & Hz & Hy)|[<-|[]]]; [right|now left].
    destruct (length (rest z) =? length (rest x)) eqn:E; [destruct Hy|].
    apply Nat.eqb_neq in E.
    destruct (rest x) as [|c s] eqn:Ex; simpl in Hy; [destruct Hy|].
    destruct Hy as [<-|[]]. repeat split; auto. discriminate.
  - intros [->|(Hx & Hy & Hlen)]; [right; now left|left].
    exists y. split; [exact Hy|].
    apply Nat.eqb_neq in Hlen. rewrite Hlen.
    destruct (rest x); [congruence|]. simpl. now left.
Qed.

(** *** Searching a text *)

Lemma scan_found f d (ahead1 : list ascii) :
  forall before ahead2 y,
    In y (m f d {| prev := rev ahead1 ++ before; rest := ahead2; caps := [] |}) ->
    scan f d before (ahead1 ++ ahead2) <> None.
Proof.
  induction ahead1 as [|c ahead1 IH]; intros before ahead2 y Hy; simpl in *.
  - destruct ahead2; simpl;
      destruct (m f d _); try discriminate; destruct Hy.
  - destruct (m f d {| prev := before; rest := c :: ahead1 ++ ahead2;
                       caps := [] |}); [|discriminate].
    apply (IH (c :: before) ahead2 y). now rewrite <- app_assoc in Hy.
Qed.

Lemma scan_anchored_later f d ahead :
  multiline f = false ->
  forall before, before <> [] -> scan f (Seq Bol d) before ahead = None.
Proof.
  intros Hm. induction ahead as [|c ahead IH]; intros before Hb.
  - simpl. rewrite Hm. destruct before; [congruence|]. reflexivity.
  - cbn [scan]. replace (m f (Seq Bol d) _) with (@nil mstate).
    + apply IH. discriminate.
    + simpl. rewrite Hm. destruct before; [congruence|]. reflexivity.
Qed.

(** A pattern anchored at the start matches at the start or not at all. *)
Lemma test_anchored (r : RegExp.t) (d : node) (s : jsstring) :
  global (flags r) = false -> multiline (flags r) = false ->
  program r = Seq Bol d ->
  fst (test r s) = negb (isNil (m (flags r) d (start s))).
Proof.
  intros Hg Hm Hp. unfold test, exec. rewrite Hg, Hp.
  destruct s as [|c s]; cbn [scan].
  - replace (m (flags r) (Seq Bol d) _) with (m (flags r) d (start [])).
    2:{ simpl. now rewrite app_nil_r. }
    now destruct (m (flags r) d (start [])).
  - replace (m (flags r) (Seq Bol d) _) with (m (flags r) d (start (c :: s))).
    2:{ simpl. now rewrite app_nil_r. }
    destruct (m (flags r) d (start (c :: s))); [|reflexivity].
    rewrite scan_anchored_later; auto. discriminate.
Qed.

Lemma nonempty_in {A} (l : list A) :
  negb (isNil l) = true <-> exists a, In a l.
Proof.
  destruct l as [|a l]; simpl; split; try discriminate.
  - intros [a []].
  - intros _. exists a. now left.
  - reflexivity.
Qed.

(** *** The amount pattern *)

Lemma amount_program :
  program validators.PATTERNS.amount = Seq Bol amountBody
  /\ flags validators.PATTERNS.amount = noFlags.
Proof. split; reflexivity. Qed.

Lemma setOk_digits c : setOk noFlags false [CEsc Digit false] c = JS.isDigit c.
Proof. unfold setOk; simpl. now destruct (JS.isDigit c). Qed.

Lemma setOk_nonzero c :
  setOk noFlags false [CRange "1" "9"] c = JS.between 49 57 c.
Proof.
  unfold setOk; simpl.
  change (JS.between (JS.code "1") (JS.code "9") c) with (JS.between 49 57 c).
  now destruct (JS.between 49 57 c).
Qed.

Lemma forallb_ext_eq {A} (p q : A -> bool) (l : list A) :
  (forall a, p a = q a) -> forallb p l = forallb q l.
Proof. intros H. induction l; simpl; [reflexivity|]. now rewrite H, IHl. Qed.

Lemma nonzero_digit c : JS.between 49 57 c = true -> JS.isDigit c = true.
Proof.
  unfold JS.isDigit, JS.between. rewrite !andb_true_iff, !Nat.leb_le. lia.
Qed.

Lemma digit_not_point c : JS.isDigit c = true -> Ascii.eqb c "." = false.
Proof.
  intros H. destruct (Ascii.eqb_spec c "."); [subst; discriminate H|reflexivity].
Qed.

Lemma untilPoint_app (s : jsstring) :
  s = fst (Spec.untilPoint s) ++ snd (Spec.untilPoint s).
Proof.
  induction s as [|c s IH]; simpl; [reflexivity|].
  destruct (Ascii.eqb c "."); [reflexivity|].
  destruct (Spec.untilPoint s); simpl in *. now rewrite <- IH.
Qed.

Lemma untilPoint_parts (int frac : jsstring) :
  forallb JS.isDigit int = true ->
  Spec.decimalsShape frac = true ->
  Spec.untilPoint (int ++ frac) = (int, frac).
Proof.
  intros Hint Hfrac. induction int as [|c int IH]; simpl in *.
  - destruct frac as [|c r]; [reflexivity|]. simpl in Hfrac |- *.
    destruct (Ascii.eqb c "."); [reflexivity|discriminate].
  - apply andb_true_iff in Hint as [Hc Hint].
    rewrite (digit_not_point _ Hc), (IH Hint). reflexivity.
Qed.

Lemma integerShape_digits (int : jsstring) :
  Spec.integerShape int = true -> forallb JS.isDigit int = true.
Proof.
  destruct int as [|c r]; simpl; [discriminate|].
  intros H. apply orb_true_iff in H as [H|H];
    apply andb_true_iff in H as [Hc Hr].
  - apply Ascii.eqb_eq in Hc; subst c. destruct r; [reflexivity|discriminate].
  - now rewrite (nonzero_digit _ Hc), Hr.
Qed.

Lemma run_digits lo hi x y :
  run (setOk noFlags false [CEsc Digit false]) lo hi x y <->
  run JS.isDigit lo hi x y.
Proof.
  unfold run. split; intros (w & H1 & H2 & H3 & H4); exists w;
    repeat split; try tauto;
    [rewrite <- (forallb_ext_eq _ _ w setOk_digits)
    |rewrite (forallb_ext_eq _ _ w setOk_digits)]; tauto.
Qed.

Lemma within_none n : within None n.
Proof. intros h; discriminate. Qed.

Lemma amount_sound (s : jsstring) (y : mstate) :
  In y (m noFlags amountBody (start s)) -> Spec.amountShape s = true.
Proof.
  unfold amountBody, digits. intros H.
  apply m_seq in H as (z1 & H1 & H).
  apply m_group in H1 as (z1' & H1 & ->).
  apply m_seq in H as (z2 & H2 & H).
  apply m_seq in H as (z3 & H3 & H).
  apply m_eol in H3 as [Hend ->]; [|reflexivity].
  assert (Hint : exists int, s = int ++ rest z1'
                             /\ Spec.integerShape int = true).
  { apply m_alt in H1 as [H1|H1]; apply m_seq in H1 as (u & Hu & H1).
    - apply m_char in Hu as (c & r & Hs & Hc & ->).
      apply m_empty in H1 as ->. simpl in Hs |- *. subst s.
      unfold canon in Hc; simpl in Hc.
      apply Ascii.eqb_eq in Hc. subst c. now exists ["0"%char].
    - apply m_set in Hu as (c & r & Hs & Hc & ->).
      rewrite setOk_nonzero in Hc.
      apply m_seq in H1 as (v & Hv & H1). apply m_empty in H1 as ->.
      apply m_repeat_set in Hv; [|apply within_none].
      apply run_digits in Hv as (w & Hr & _ & Hw & _).
      simpl in Hs, Hr |- *. subst s.
      exists (c :: w). simpl. rewrite Hr, Hc, Hw. now rewrite orb_true_r. }
  destruct Hint as (int & Hs & Hint).
  assert (Hfrac : Spec.decimalsShape (rest z1') = true).
  { apply m_optional in H2 as [->|(Hne & H2 & _)].
    - simpl in Hend. now rewrite Hend.
    - apply m_group in H2 as (u & Hu & ->).
      apply m_seq in Hu as (v & Hv & Hu).
      apply m_char in Hv as (c & r & Hr & Hc & ->).
      apply m_seq in Hu as (t & Ht & Hu). apply m_empty in Hu as ->.
      apply m_repeat_set in Ht; [|intros h [= <-]; lia].
      apply run_digits in Ht as (w & Hw & _ & Hd & Hlo & Hhi).
      simpl in Hw, Hend, Hr. rewrite Hend, app_nil_r in Hw. subst r.
      unfold canon in Hc; simpl in Hc.
      rewrite Hr. unfold Spec.decimalsShape. rewrite Hc, Hd.
      specialize (Hhi 2 eq_refl).
      apply andb_true_iff; split; [apply Nat.leb_le|apply Nat.leb_le]; lia. }
  unfold Spec.amountShape. rewrite Hs.
  rewrite (untilPoint_parts _ _ (integerShape_digits _ Hint) Hfrac).
  now rewrite Hint, Hfrac.
Qed.

Lemma amount_complete (s : jsstring) :
  Spec.amountShape s = true -> exists y, In y (m noFlags amountBody (start s)).
Proof.
  unfold Spec.amountShape. pose proof (untilPoint_app s) as Hs.
  destruct (Spec.untilPoint s) as [int frac]; simpl in Hs.
  intros H. apply andb_true_iff in H as [Hint Hfrac].
  (* the integer part *)
  assert (H1 : exists z1', In z1' (m noFlags
      (Alt (Seq (Char "0") Empty)
           (Seq (CharSet false [CRange "1" "9"])
                (Seq (Repeat 0 None true digits) Empty))) (start s))
      /\ rest z1' = frac).
  { destruct int as [|c r]; [discriminate|]. simpl in Hint.
    apply orb_true_iff in Hint as [H|H];
      apply andb_true_iff in H as [Hc Hr].
    - apply Ascii.eqb_eq in Hc; subst c. destruct r; [|discriminate].
      exists {| prev := ["0"%char]; rest := frac; caps := [] |}.
      split; [|reflexivity]. apply m_alt; left. apply m_seq.
      eexists. split; [|apply m_empty; reflexivity].
      apply m_char. exists "0"%char, frac. subst s. now repeat split.
    - set (x1 := {| prev := [c]; rest := r ++ frac; caps := [] |}).
      exists (advance r x1 frac). split; [|reflexivity].
      apply m_alt; right. apply m_seq. exists x1. split.
      + apply m_set. exists c, (r ++ frac). subst s.
        rewrite setOk_nonzero. now repeat split.
      + apply m_seq. eexists. split; [|apply m_empty; reflexivity].
        apply m_repeat_set; [apply within_none|]. apply run_digits.
        exists r. simpl. repeat split; auto; [lia|apply within_none]. }
  destruct H1 as (z1' & H1 & Hrest).
  set (z1 := setCap 1 (start s) z1').
  assert (H2 : exists z2, In z2 (m noFlags
      (Repeat 0 (Some 1) true
         (Group (Some 2)
            (Seq (Char ".") (Seq (Repeat 1 (Some 2) true digits) Empty)))) z1)
      /\ rest z2 = []).
  { destruct frac as [|c ds].
    - exists z1. split; [apply m_optional; now left|exact Hrest].
    - unfold Spec.decimalsShape in Hfrac.
      apply andb_true_iff in Hfrac as [Hfrac Hhi].
      apply andb_true_iff in Hfrac as [Hfrac Hlo].
      apply andb_true_iff in Hfrac as [Hc Hds].
      apply Nat.leb_le in Hlo, Hhi.
      set (x0 := clearCaps [2] z1).
      set (x1 := {| prev := c :: prev x0; rest := ds; caps := caps x0 |}).
      exists (setCap 2 x0 (advance ds x1 [])). split; [|reflexivity].
      apply m_optional; right.
      assert (Hx0 : rest x0 = c :: ds) by (simpl; exact Hrest).
      repeat split.
      + simpl. rewrite Hrest. discriminate.
      + apply m_group. eexists. split; [|reflexivity].
        apply m_seq. exists x1. split.
        * apply m_char. exists c, ds. now repeat split.
        * apply m_seq. eexists. split; [|apply m_empty; reflexivity].
          apply m_repeat_set; [intros h [= <-]; lia|]. apply run_digits.
          exists ds. simpl. rewrite app_nil_r.
          repeat split; auto. intros h [= <-]. exact Hhi.
      + simpl. rewrite Hrest. simpl. lia. }
  destruct H2 as (z2 & H2 & Hend).
  exists z2. unfold amountBody. apply m_seq. exists z1. split.
  - apply m_group. now exists z1'.
  - apply m_seq. exists z2. split; [exact H2|].
    apply m_seq. exists z2. split; [|now apply m_empty].
    apply m_eol; [reflexivity|]. now split.
Qed.

(** The amount pattern accepts the texts of the amount shape, and no
    other. *)
Lemma test_amount (s : jsstring) :
  fst (test validators.PATTERNS.amount s) = Spec.amountShape s.
Proof.
  destruct amount_program as [Hp Hf].
  rewrite (test_anchored _ amountBody s); rewrite ?Hf; auto.
  destruct (Spec.amountShape s) eqn:E.
  - apply nonempty_in. now apply amount_complete.
  - destruct (m noFlags amountBody (start s)) as [|y l] eqn:Em;
      [reflexivity|].
    rewrite (amount_sound s y) in E; [discriminate|].
    rewrite Em. now left.
Qed.

(** *** The duplicate-word pattern *)


Lemma allChars_all (p : ascii -> bool) :
  forallb p allChars = true -> forall c, p c = true.
Proof.
  intros H c. rewrite forallb_forall in H. apply H.
  rewrite <- (ascii_nat_embedding c). apply in_map, in_seq.
  pose proof (nat_ascii_bounded c). lia.
Qed.

(** Two characters with one lower case have one upper case. *)
Lemma same_lower_same_upper (a b : ascii) :
  JS.toLowerChar a = JS.toLowerChar b -> JS.toUpperChar a = JS.toUpperChar b.
Proof.
  intros H.
  assert (Hall : forallb (fun x => forallb (fun y =>
            implb (Ascii.eqb (JS.toLowerChar x) (JS.toLowerChar y))
                  (Ascii.eqb (JS.toUpperChar x) (JS.toUpperChar y)))
            allChars) allChars = true) by (vm_compute; reflexivity).
  pose proof (allChars_all _ (allChars_all _ Hall a) b) as Hab.
  cbv beta in Hab. rewrite H, Ascii.eqb_refl in Hab. simpl in Hab.
  now apply Ascii.eqb_eq.
Qed.

Lemma consumed_prefix (x y : mstate) (w : jsstring) :
  rest x = w ++ rest y -> consumed x y = w.
Proof.
  intros H. unfold consumed. rewrite H, length_app, Nat.add_sub.
  rewrite firstn_app, firstn_all, Nat.sub_diag. simpl. apply app_nil_r.
Qed.

Lemma passText_complete f (w1 : jsstring) :
  forall (w2 : jsstring) (x : mstate) (r : list ascii),
    rest x = w2 ++ r ->
    Forall2 (fun a c => canon f c = canon f a) w1 w2 ->
    In (advance w2 x r) (passText f w1 x).
Proof.
  induction w1 as [|a w1 IH]; intros w2 x r Hx Hw; inversion Hw; subst.
  - simpl. left. unfold advance; simpl. simpl in Hx. rewrite <- Hx.
    now destruct x.
  - simpl. apply in_flat_map.
    exists {| prev := y :: prev x; rest := l' ++ r; caps := caps x |}. split.
    + apply step_in. exists y, (l' ++ r). repeat split; auto.
      rewrite H1. apply Ascii.eqb_refl.
    + replace (advance (y :: l') x r)
        with (advance l' {| prev := y :: prev x; rest := l' ++ r;
                            caps := caps x |} r).
      * now apply IH.
      * unfold advance; simpl. now rewrite <- app_assoc.
Qed.

Lemma sameIgnoringCase_canon (w1 w2 : jsstring) :
  storage.sameIgnoringCase w1 w2 = true ->
  Forall2 (fun a c => canon flags_gi c = canon flags_gi a) w1 w2.
Proof.
  unfold storage.sameIgnoringCase, JS.toLowerCase. intros H.
  apply eqb_eq in H. revert w2 H.
  induction w1 as [|a w1 IH]; intros [|c w2] H; simpl in H;
    try discriminate; constructor.
  - injection H as Hc _. unfold canon; simpl.
    symmetry. now apply same_lower_same_upper.
  - injection H as _ Hw. now apply IH.
Qed.

Lemma headIs_app (p : ascii -> bool) (w l : list ascii) :
  w <> [] -> headIs p (w ++ l) = headIs p w.
Proof. destruct w; [congruence|reflexivity]. Qed.

Lemma headIs_rev (p : ascii -> bool) (w : list ascii) :
  w <> [] -> forallb p w = true -> headIs p (rev w) = true.
Proof.
  intros Hne Hw. destruct (rev w) as [|c r] eqn:E.
  - apply (f_equal (@rev ascii)) in E. rewrite rev_involutive in E.
    simpl in E. congruence.
  - simpl. rewrite forallb_forall in Hw. apply Hw. apply in_rev.
    rewrite E. now left.
Qed.

Lemma setOk_word c :
  JS.isWord c = true -> setOk flags_gi false [CEsc Word false] c = true.
Proof. intros H. unfold setOk; simpl. now rewrite H. Qed.

Lemma setOk_space c :
  JS.isSpace c = true -> setOk flags_gi false [CEsc Space false] c = true.
Proof. intros H. unfold setOk; simpl. now rewrite H. Qed.

Lemma forallb_impl {A} (p q : A -> bool) (l : list A) :
  (forall a, p a = true -> q a = true) ->
  forallb p l = true -> forallb q l = true.
Proof.
  intros H. rewrite !forallb_forall. auto.
Qed.

(** Where the text reads one word twice, the pattern finds a match. *)
Lemma duplicate_matches (pre w1 ws w2 post : jsstring) :
  w1 <> [] -> forallb JS.isWord w1 = true -> forallb JS.isWord w2 = true ->
  ws <> [] -> forallb JS.isSpace ws = true ->
  storage.sameIgnoringCase w1 w2 = true ->
  headIs JS.isWord (rev pre) = false -> headIs JS.isWord post = false ->
  exists y,
    In y (m flags_gi duplicateBody
            {| prev := rev pre; rest := w1 ++ ws ++ w2 ++ post; caps := [] |}).
Proof.
  intros Hw1 Hword1 Hword2 Hws Hspace Hsame Hpre Hpost.
  pose proof (sameIgnoringCase_canon _ _ Hsame) as Hcanon.
  assert (Hw2 : w2 <> []).
  { intros ->. inversion Hcanon. congruence. }
  set (x := {| prev := rev pre; rest := w1 ++ ws ++ w2 ++ post; caps := [] |}).
  set (z1' := advance w1 x (ws ++ w2 ++ post)).
  set (z1 := setCap 1 x z1').
  set (z2 := advance ws z1 (w2 ++ post)).
  set (z3 := advance w2 z2 post).
  exists z3. unfold duplicateBody.
  apply m_seq. exists x. split.
  { apply m_wordb. split; [|reflexivity]. unfold atBoundary, x; simpl.
    rewrite Hpre, (headIs_app _ _ _ Hw1).
    destruct w1 as [|c r]; [congruence|]. simpl in *.
    now apply andb_true_iff in Hword1 as [-> _]. }
  apply m_seq. exists z1. split.
  { apply m_group. exists z1'. split; [|reflexivity].
    apply m_seq. exists z1'. split; [|now apply m_empty].
    apply m_repeat_set; [apply within_none|].
    exists w1. repeat split; auto.
    - apply (forallb_impl _ _ _ setOk_word Hword1).
    - destruct w1; [congruence|simpl; lia].
    - apply within_none. }
  apply m_seq. exists z2. split.
  { apply m_repeat_set; [apply within_none|].
    exists ws. repeat split; auto.
    - apply (forallb_impl _ _ _ setOk_space Hspace).
    - destruct ws; [congruence|simpl; lia].
    - apply within_none. }
  apply m_seq. exists z3. split.
  { cbn [m]. replace (lookupCap 1 (caps z2)) with (Some w1).
    - now apply passText_complete.
    - unfold z2, z1, z1'; simpl. f_equal. symmetry.
      now apply consumed_prefix. }
  apply m_seq. exists z3. split; [|now apply m_empty].
  apply m_wordb. split; [|reflexivity]. unfold atBoundary, z3; simpl.
  rewrite Hpost. rewrite headIs_app by (now intros E; apply Hw2;
    apply (f_equal (@rev ascii)) in E; rewrite rev_involutive in E).
  now rewrite (headIs_rev _ _ Hw2 Hword2).
Qed.


End RegExpFacts.

(** ** Amounts *)

Section Amounts.

Import RegExp.
Import Spec.
Import RegExpFacts.

Lemma readDigits_bounds (s : list ascii) :
  forall acc count,
    (0 <= acc)%Z ->
    (0 <= fst (fst (JS.readDigits s acc count)))%Z
    /\ count <= snd (fst (JS.readDigits s acc count)).
Proof.
  induction s as [|c s IH]; intros acc count Hacc; cbn [JS.readDigits];
    [simpl; split; lia|].
  destruct (JS.isDigit c); [|simpl; split; lia].
  destruct (IH (10 * acc + Z.of_nat (JS.code c - 48))%Z (S count)) as [H1 H2];
    [lia|split; lia].
Qed.

Lemma digit_not_space c : JS.isDigit c = true -> JS.isSpace c = false.
Proof.
  unfold JS.isDigit, JS.isSpace, JS.between.
  rewrite andb_true_iff, !Nat.leb_le. intros [H1 H2].
  rewrite !orb_false_iff, andb_false_iff, !Nat.leb_gt, !Nat.eqb_neq. lia.
Qed.

Lemma digit_not_sign c :
  JS.isDigit c = true -> Ascii.eqb c "-" = false /\ Ascii.eqb c "+" = false.
Proof.
  intros H. split.
  - destruct (Ascii.eqb_spec c "-"); [subst; discriminate H|reflexivity].
  - destruct (Ascii.eqb_spec c "+"); [subst; discriminate H|reflexivity].
Qed.

Lemma pow10_pos (e : Z) : (0 < JS.pow10 e)%Q.
Proof.
  unfold JS.pow10. destruct (e <? 0)%Z eqn:E.
  - reflexivity.
  - apply Z.ltb_ge in E. unfold Qlt; simpl. rewrite Z.mul_1_r.
    apply Z.pow_pos_nonneg; lia.
Qed.

(** A text that starts with a digit is read as a number that is not
    negative. *)
Lemma parseFloat_digit_head (s : jsstring) :
  headIs JS.isDigit s = true ->
  exists q, JS.parseFloat s = JS.Num q /\ (0 <= q)%Q.
Proof.
  destruct s as [|c r]; simpl; [discriminate|]. intros Hc.
  unfold JS.parseFloat. simpl JS.trimStart.
  rewrite (digit_not_space _ Hc).
  unfold JS.readNumeral, JS.readSign.
  destruct (digit_not_sign _ Hc) as [-> ->].
  pose proof (readDigits_bounds (c :: r) 0 0 (Z.le_refl 0)) as [Hip Hni].
  assert (Hone : 1 <= snd (fst (JS.readDigits (c :: r) 0 0))).
  { cbn [JS.readDigits]. rewrite Hc.
    apply (readDigits_bounds r (10 * 0 + Z.of_nat (JS.code c - 48)) 1). lia. }
  destruct (JS.readDigits (c :: r) 0 0) as [[ip ni] s3]. simpl in Hip, Hone.
  assert (Hfp : (0 <= fst (fst (JS.readFraction s3)))%Z).
  { unfold JS.readFraction. destruct s3 as [|c3 r3]; simpl; [lia|].
    destruct (Ascii.eqb c3 "."); simpl; [|lia].
    apply (readDigits_bounds r3 0 0). lia. }
  destruct (JS.readFraction s3) as [[fp nf] s4]. simpl in Hfp.
  replace (ni + nf =? 0) with false by (symmetry; apply Nat.eqb_neq; lia).
  destruct (JS.readExponent s4) as [e s5].
  eexists. split; [reflexivity|].
  apply Qmult_le_0_compat.
  - unfold Qle; simpl. rewrite Z.mul_1_r.
    assert (0 <= 10 ^ Z.of_nat nf)%Z by (apply Z.pow_nonneg; lia). nia.
  - apply Qlt_le_weak, pow10_pos.
Qed.

Lemma amountShape_digit_head (s : jsstring) :
  Spec.amountShape s = true -> headIs JS.isDigit s = true.
Proof.
  unfold Spec.amountShape. pose proof (untilPoint_app s) as Hs.
  destruct (Spec.untilPoint s) as [int frac]; simpl in Hs.
  intros H. apply andb_true_iff in H as [Hint _].
  pose proof (RegExpFacts.integerShape_digits _ Hint) as Hd.
  destruct int as [|c r]; [discriminate|]. subst s. simpl in *.
  now apply andb_true_iff in Hd as [Hc _].
Qed.

Lemma amount_not_negative (s : jsstring) :
  fst (test validators.PATTERNS.amount s) = true ->
  JS.lt (JS.parseFloat s) JS.zero = false.
Proof.
  rewrite RegExpFacts.test_amount. intros H.
  destruct (parseFloat_digit_head s (amountShape_digit_head s H))
    as (q & -> & Hq).
  unfold JS.lt, JS.zero. apply negb_false_iff. now apply Qle_bool_iff.
Qed.

Lemma blank_trim (value : jsstring) :
  validators.blank value = true -> JS.trim value = [].
Proof.
  unfold validators.blank. destruct value as [|c r]; [reflexivity|]. simpl.
  destruct (JS.trim (c :: r)); [reflexivity|discriminate].
Qed.

Lemma blank_false_trim (value : jsstring) :
  validators.blank value = false -> JS.trim value <> [].
Proof.
  unfold validators.blank. intros H. apply orb_false_iff in H as [_ H].
  destruct (JS.trim value); [discriminate|discriminate].
Qed.

(** C9, as amended: [validateAmount] accepts exactly the texts whose
    trimmed form has the amount shape (zero, or an integer that does not
    start with zero, optionally followed by one or two decimals) and is
    read as a value of at most 999999.99.  "12.50" is valid; "01", ".50",
    "12.999" and "-5" are not. *)
Theorem validateAmount_accepts :
  (forall value : jsstring,
     validators.valid (validators.validateAmount value) = true <->
     Spec.amountShape (JS.trim value) = true
     /\ JS.gt (JS.parseFloat (JS.trim value)) validators.maxAmount = false)
  /\ validators.valid (validators.validateAmount "12.50") = true
  /\ validators.valid (validators.validateAmount "01") = false
  /\ validators.valid (validators.validateAmount ".50") = false
  /\ validators.valid (validators.validateAmount "12.999") = false
  /\ validators.valid (validators.validateAmount "-5") = false.
Proof.
  split; [|vm_compute; repeat split].
  intros value. unfold validators.validateAmount.
  destruct (validators.blank value) eqn:Eb.
  - rewrite (blank_trim _ Eb). simpl. split; [discriminate|].
    intros [H _]. discriminate H.
  - rewrite RegExpFacts.test_amount.
    destruct (Spec.amountShape (JS.trim value)) eqn:Es; cbn [negb].
    + rewrite amount_not_negative by (now rewrite RegExpFacts.test_amount).
      destruct (JS.gt (JS.parseFloat (JS.trim value)) validators.maxAmount);
        cbn [validators.valid validators.reject validators.accept];
        split; auto; try discriminate.
      intros [_ H]; discriminate H.
    + cbn [validators.valid validators.reject].
      split; [discriminate|]. intros [H _]; discriminate H.
Qed.

(** Counterexample to C9 as stated: a text with a leading blank does not
    have the amount shape, and [validateAmount] accepts it, since it tests
    the trimmed text. *)
Lemma validateAmount_accepts_padded :
  validators.valid (validators.validateAmount " 12.50") = true
  /\ Spec.amountShape " 12.50" = false.
Proof. vm_compute. split; reflexivity. Qed.

Lemma validateAmount_answers (value : jsstring) :
  validators.validateAmount value = validators.accept
  \/ validators.validateAmount value
     = validators.reject "Amount is required"
  \/ validators.validateAmount value
     = validators.reject
         "Invalid amount format. Use numbers with up to 2 decimal places (e.g., 12.50)"
  \/ validators.validateAmount value
     = validators.reject "Amount cannot exceed 999,999.99".
Proof.
  unfold validators.validateAmount.
  destruct (validators.blank value); [now right; left|].
  destruct (fst (test validators.PATTERNS.amount (JS.trim value))) eqn:Et;
    cbn [negb]; [|now right; right; left].
  rewrite (amount_not_negative _ Et).
  destruct (JS.gt (JS.parseFloat (JS.trim value)) validators.maxAmount);
    [now right; right; right|now left].
Qed.

(** C10: [validateAmount] never answers "Amount cannot be negative": its
    answer is one of the four others, because a text that passes the
    amount pattern is read as a value that is not below zero. *)
Theorem validateAmount_never_negative (value : jsstring) :
  Spec.hasError "Amount cannot be negative" (validators.validateAmount value)
  = false
  /\ (validators.validateAmount value = validators.accept
      \/ validators.validateAmount value
         = validators.reject "Amount is required"
      \/ validators.validateAmount value
         = validators.reject
             "Invalid amount format. Use numbers with up to 2 decimal places (e.g., 12.50)"
      \/ validators.validateAmount value
         = validators.reject "Amount cannot exceed 999,999.99")
  /\ (fst (test validators.PATTERNS.amount (JS.trim value)) = true ->
      JS.lt (JS.parseFloat (JS.trim value)) JS.zero = false).
Proof.
  split; [|split; [apply validateAmount_answers|apply amount_not_negative]].
  destruct (validateAmount_answers value) as [H|[H|[H|H]]]; rewrite H;
    reflexivity.
Qed.

(** Witness of C10: "12.50" passes the pattern and is read as 12.5. *)
Lemma validateAmount_never_negative_witness :
  JS.lt (JS.parseFloat (JS.trim "12.50")) JS.zero = false.
Proof.
  exact (proj2 (proj2 (validateAmount_never_negative "12.50")) eq_refl).
Defined.

End Amounts.

(** ** Descriptions *)



(** ** The top category *)

Section TopCategoryFacts.

Import Spec.















(** *** The object of totals *)













End TopCategoryFacts.

(** ** Import *)

Section ImportBatch.

Variable h : Host.

Lemma checkItem_fails (i : nat) (it : validators.item) :
  match validators.checkItem h i it with
  | inl _ => Spec.itemFails h it = false
  | inr _ => Spec.itemFails h it = true
  end.
Proof.
  unfold validators.checkItem, Spec.itemFails. destruct it as [|o];
    [reflexivity|].
  destruct (validators.missingFields o); [|reflexivity].
  cbv zeta. cbn [RegExp.isNil negb orb].
  match goal with
  | |- context [validators.tvalid ?r] => now destruct (validators.tvalid r)
  end.
Qed.

Lemma importLoop_counts (l : list validators.item) :
  forall i,
    length (fst (validators.importLoop h i l))
    = length (filter (fun it => negb (Spec.itemFails h it)) l)
    /\ length (snd (validators.importLoop h i l))
       = length (filter (Spec.itemFails h) l).
Proof.
  induction l as [|it l IH]; intros i; simpl; [auto|].
  destruct (IH (S i)) as [H1 H2].
  destruct (validators.importLoop h (S i) l) as [good errs].
  pose proof (checkItem_fails i it) as Hit.
  destruct (validators.checkItem h i it); rewrite Hit; simpl in *; auto.
Qed.

Lemma filter_none {A} (p : A -> bool) (l : list A) :
  existsb p l = false -> filter p l = []
  /\ filter (fun a => negb (p a)) l = l.
Proof.
  induction l as [|a l IH]; simpl; [auto|]. intros H.
  apply orb_false_iff in H as [Ha Hl]. rewrite Ha. simpl.
  destruct (IH Hl) as [-> ->]. auto.
Qed.

Lemma filter_some {A} (p : A -> bool) (l : list A) :
  existsb p l = true -> 0 < length (filter p l).
Proof.
  induction l as [|a l IH]; simpl; [discriminate|].
  destruct (p a); simpl; [lia|auto].
Qed.

(** C3: a batch with an item that cannot be imported is rejected as a
    whole, with no data, and its message lists the first five item errors
    and counts the others; a batch whose items are all valid is accepted,
    one record per item, and importing it replaces the list of the state
    container: the records of the old list that are not in the batch are
    gone. *)
Theorem validateImportData_all_or_nothing (l : list validators.item) :
  (existsb (Spec.itemFails h) l = true ->
   exists errs,
     validators.validateImportData h (validators.Items l)
     = {| validators.ivalid := false;
          validators.ierror :=
            Some ("Validation errors:" ++ validators.newline
                  ++ JS.join validators.newline (firstn 5 errs)
                  ++ Spec.remainder errs);
          validators.idata := None |}
     /\ length errs = length (filter (Spec.itemFails h) l)
     /\ 0 < length errs
     /\ length (firstn 5 errs) <= 5)
  /\ (l <> [] -> existsb (Spec.itemFails h) l = false ->
      exists batch,
        validators.validateImportData h (validators.Items l)
        = {| validators.ivalid := true; validators.ierror := None;
             validators.idata := Some batch |}
        /\ length batch = length l
        /\ forall st ls,
             let '(ok, st', ls') := state.importTransactions batch st ls in
             ok = true
             /\ state.transactions st' = batch
             /\ (forall t, In t (state.transactions st) -> ~ In t batch ->
                           ~ In t (state.transactions st'))
             /\ (storage.writeFails ls = false ->
                 storage.loadTransactions ls' = batch)).
Proof.
  destruct (importLoop_counts l 0) as [Hgood Herrs].
  split.
  - intros Hbad. pose proof (filter_some _ _ Hbad) as Hpos.
    exists (snd (validators.importLoop h 0 l)).
    unfold validators.validateImportData.
    destruct l as [|it l']; [discriminate|].
    destruct (validators.importLoop h 0 (it :: l')) as [good errs].
    simpl fst in *; simpl snd in *.
    replace (0 <? length errs) with true
      by (symmetry; apply Nat.ltb_lt; lia).
    repeat split; auto; [lia|apply firstn_le_length].
  - intros Hne Hok. destruct (filter_none _ _ Hok) as [Hf Hg].
    rewrite Hf in Herrs. rewrite Hg in Hgood.
    exists (fst (validators.importLoop h 0 l)).
    unfold validators.validateImportData.
    destruct l as [|it l']; [congruence|].
    destruct (validators.importLoop h 0 (it :: l')) as [good errs].
    simpl fst in *; simpl snd in *.
    destruct errs; [|discriminate]. simpl.
    repeat split; auto. intros st ls.
    unfold state.importTransactions, storage.importTransactions.
    pose proof (saveTransactions_load good ls) as Hload.
    destruct (storage.saveTransactions good ls) as [ok ls1].
    simpl in *. repeat split; auto.
    intros Hw. now rewrite Hw in Hload.
Qed.

End ImportBatch.

(** Witness of C3: in a batch of five the third item, with the amount
    "-1", fails, and the batch is rejected; a batch of two valid items is
    accepted as two records. *)
Lemma validateImportData_all_or_nothing_witness :
  (exists errs,
     validators.validateImportData Samples.host (validators.Items Samples.sampleBatch)
     = {| validators.ivalid := false;
          validators.ierror :=
            Some ("Validation errors:" ++ validators.newline
                  ++ JS.join validators.newline (firstn 5 errs)
                  ++ Spec.remainder errs);
          validators.idata := None |}
     /\ length errs = 1)
  /\ (exists batch,
        validators.validateImportData Samples.host (validators.Items Samples.soundBatch)
        = {| validators.ivalid := true; validators.ierror := None;
             validators.idata := Some batch |}
        /\ length batch = 2).
Proof.
  split.
  - destruct (proj1 (validateImportData_all_or_nothing Samples.host
                       Samples.sampleBatch) eq_refl) as (errs & H1 & H2 & _).
    exists errs. split; [exact H1|exact H2].
  - destruct (proj2 (validateImportData_all_or_nothing Samples.host
                       Samples.soundBatch)) as (batch & H1 & H2 & _);
      [discriminate|reflexivity|].
    exists batch. split; [exact H1|exact H2].
Defined.

(** ** Highlighting *)
Module HighlightFacts.

Import RegExp.
Import Spec.

(** *** The matcher only moves forward *)

Lemma ahead_refl x : ahead x x.
Proof. now exists []. Qed.

Lemma ahead_trans x y z : ahead x y -> ahead y z -> ahead x z.
Proof.
  intros [w1 H1] [w2 H2]. exists (w1 ++ w2). now rewrite H1, H2, app_assoc.
Qed.

Lemma step_ahead x y ok : In y (step x ok) -> ahead x y.
Proof.
  intros H. apply RegExpFacts.step_in in H as (c & r & Hx & _ & ->).
  exists [c]. now rewrite Hx.
Qed.

Lemma passText_ahead f w : forall x y, In y (passText f w x) -> ahead x y.
Proof.
  induction w as [|a w IH]; intros x y; simpl.
  - intros [<-|[]]. apply ahead_refl.
  - intros H. apply in_flat_map in H as (z & Hz & Hy).
    apply ahead_trans with z; [now apply step_ahead in Hz|now apply IH].
Qed.

Lemma repeatM_ahead (once : mstate -> list mstate) gs greedy :
  (forall x y, In y (once x) -> ahead x y) ->
  forall fuel lo hi x y,
    In y (repeatM once gs fuel lo hi greedy x) -> ahead x y.
Proof.
  intros Honce. induction fuel as [|fuel IH]; intros lo hi x y; simpl;
    [intros []|].
  assert (Hiter :
    In y (flat_map (fun z =>
            if (lo =? 0) && (length (rest z) =? length (rest x)) then []
            else repeatM once gs fuel (pred lo) (option_map pred hi) greedy z)
            (once (clearCaps gs x))) -> ahead x y).
  { intros H. apply in_flat_map in H as (z & Hz & Hy).
    destruct ((lo =? 0) && _); [destruct Hy|].
    apply Honce in Hz. apply IH in Hy.
    destruct Hz as [w1 H1]. destruct Hy as [w2 H2].
    exists (w1 ++ w2). simpl in H1. now rewrite H1, H2, app_assoc. }
  assert (Hhere : In y [x] -> ahead x y)
    by (intros [<-|[]]; apply ahead_refl).
  destruct hi as [[|h]|]; [exact Hhere| |];
    (destruct (negb (lo =? 0)); [exact Hiter|]; destruct greedy;
     [intros H; apply in_app_iff in H as [H|H]; auto
     |intros [<-|H]; [apply ahead_refl|auto]]).
Qed.

Lemma m_ahead f r : forall x y, In y (m f r x) -> ahead x y.
Proof.
  induction r; intros x y; cbn [m].
  - intros [<-|[]]. apply ahead_refl.
  - apply step_ahead.
  - apply step_ahead.
  - apply step_ahead.
  - destruct (_ || _); [intros [<-|[]]; apply ahead_refl|intros []].
  - destruct (_ || _); [intros [<-|[]]; apply ahead_refl|intros []].
  - destruct (xorb _ _); [intros [<-|[]]; apply ahead_refl|intros []].
  - destruct (m f r x) as [|z l]; destruct neg; simpl.
    + intros [<-|[]]. apply ahead_refl.
    + intros [].
    + intros [].
    + intros [<-|[]]. now exists [].
  - destruct idx as [n|]; [|apply IHr].
    intros H. apply in_map_iff in H as (z & <- & Hz).
    apply IHr in Hz. exact Hz.
  - destruct (lookupCap n (caps x)); [apply passText_ahead|].
    intros [<-|[]]. apply ahead_refl.
  - intros H. apply in_flat_map in H as (z & Hz & Hy).
    apply ahead_trans with z; auto.
  - intros H. apply in_app_iff in H as [H|H]; auto.
  - apply repeatM_ahead. exact IHr.
Qed.

Lemma consumed_split x y :
  ahead x y -> rest x = consumed x y ++ rest y.
Proof.
  intros [w Hw]. now rewrite (RegExpFacts.consumed_prefix _ _ _ Hw).
Qed.

(** A match the scan reports lies in the text ahead. *)
Lemma scan_placed f d (ahead0 : list ascii) :
  forall before mr,
    scan f d before ahead0 = Some mr ->
    exists a b, ahead0 = a ++ text mr ++ b
                /\ index mr = length before + length a.
Proof.
  induction ahead0 as [|c ahead0 IH]; intros before mr; cbn [scan].
  - destruct (m f d _) as [|y l] eqn:E; [discriminate|].
    intros [= <-]. simpl.
    assert (Hy : ahead {| prev := before; rest := []; caps := [] |} y)
      by (apply (m_ahead f d); rewrite E; now left).
    exists [], (rest y). split; [|simpl; lia].
    now apply consumed_split in Hy.
  - destruct (m f d _) as [|y l] eqn:E.
    + intros H. apply IH in H as (a & b & -> & Hi).
      exists (c :: a), b. split; [reflexivity|]. simpl in *. lia.
    + intros [= <-]. simpl.
      assert (Hy : ahead {| prev := before; rest := c :: ahead0;
                            caps := [] |} y)
        by (apply (m_ahead f d); rewrite E; now left).
      exists [], (rest y). split; [|simpl; lia].
      now apply consumed_split in Hy.
Qed.

Lemma exec_placed (r r' : RegExp.t) (s : jsstring) (mr : MatchResult) :
  exec r s = (Some mr, r') ->
  let n := if global (flags r) then lastIndex r else 0 in
  n <= length s
  /\ (exists a b, skipn n s = a ++ text mr ++ b /\ index mr = n + length a)
  /\ flags r' = flags r
  /\ (global (flags r) = true -> lastIndex r' = index mr + length (text mr)).
Proof.
  unfold exec. destruct (global (flags r)) eqn:Eg.
  - destruct (length s <? lastIndex r) eqn:El; [discriminate|].
    apply Nat.ltb_ge in El.
    destruct (scan _ _ _ _) as [mr0|] eqn:Es; [|discriminate].
    intros [= -> <-]. apply scan_placed in Es as (a & b & Hs & Hi).
    rewrite length_rev, firstn_length_le in Hi by exact El.
    repeat split; auto. now exists a, b.
  - intros [= Hs <-]. apply scan_placed in Hs as (a & b & Hs & Hi).
    repeat split; auto; [lia| |discriminate]. now exists a, b.
Qed.

Lemma skipn_next {A} (n : nat) (s : list A) :
  n < length s -> exists c, skipn n s = c :: skipn (S n) s.
Proof.
  revert s. induction n as [|n IH]; intros [|c s] H; simpl in H; try lia.
  - now exists c.
  - destruct (IH s) as [d Hd]; [lia|]. exists d. exact Hd.
Qed.

Lemma placed_earlier (s : jsstring) (n : nat) (l : list MatchResult) :
  placed s (S n) l -> placed s n l.
Proof.
  intros H. inversion H as [|? mr l' a b Hs Hi Hn Hl]; subst;
    [constructor|].
  destruct (skipn_next n s) as [c Hc]; [lia|].
  apply placed_cons with (a := c :: a) (b := b); auto.
  - rewrite Hc, Hs. reflexivity.
  - simpl. lia.
  - lia.
Qed.

Lemma matchAll_placed (s : jsstring) (fuel : nat) :
  forall r, global (flags r) = true ->
            placed s (lastIndex r) (fst (matchAll fuel r s)).
Proof.
  induction fuel as [|fuel IH]; intros r Hg; cbn [matchAll];
    [constructor|].
  destruct (exec r s) as [[mr|] r'] eqn:E; [|constructor].
  destruct (exec_placed _ _ _ _ E) as (Hn & (a & b & Hs & Hi) & Hf & Hlast).
  rewrite Hg in Hn, Hs, Hi. specialize (Hlast Hg).
  set (r2 := if isNil (text mr) then setLastIndex r' (S (lastIndex r'))
             else r').
  assert (Hg2 : global (flags r2) = true).
  { unfold r2. destruct (isNil (text mr)); simpl; congruence. }
  specialize (IH r2 Hg2).
  destruct (matchAll fuel r2 s) as [l r3]. simpl in *.
  apply placed_cons with (a := a) (b := b); auto.
  unfold r2 in IH. destruct (isNil (text mr)); simpl in IH.
  - apply placed_earlier. now rewrite <- Hlast.
  - now rewrite <- Hlast.
Qed.

Lemma results_placed (r : RegExp.t) (s : jsstring) :
  placed s 0 (fst (results r s)).
Proof.
  unfold results. destruct (global (flags r)) eqn:Eg.
  - apply (matchAll_placed s _ (setLastIndex r 0)). exact Eg.
  - destruct (exec r s) as [[mr|] r'] eqn:E; [|constructor].
    destruct (exec_placed _ _ _ _ E) as (Hn & (a & b & Hs & Hi) & _).
    rewrite Eg in Hn, Hs, Hi. simpl.
    apply placed_cons with (a := a) (b := b); auto. constructor.
Qed.

(** *** The markers *)

Lemma noAngle_app (a b : jsstring) :
  noAngle (a ++ b) = noAngle a && noAngle b.
Proof. apply forallb_app. Qed.

Lemma strip_plain_app (a t : jsstring) :
  noAngle a = true -> strip 0 (a ++ t) = a ++ strip 0 t.
Proof.
  induction a as [|c a IH]; [reflexivity|]. simpl noAngle.
  intros H. apply andb_true_iff in H as [Hc Ha].
  apply andb_true_iff in Hc as [Hc _]. apply negb_true_iff in Hc.
  cbn [app strip Spec.prefixOf list_ascii_of_string].
  rewrite Ascii.eqb_sym, Hc. cbn [andb]. now rewrite IH.
Qed.

Lemma strip_plain (a : jsstring) : noAngle a = true -> strip 0 a = a.
Proof.
  intros H. rewrite <- (app_nil_r a) at 1.
  rewrite strip_plain_app by exact H. simpl. apply app_nil_r.
Qed.

Lemma strip_mark (t rest : jsstring) :
  noAngle t = true ->
  strip 0 (search.mark t ++ rest) = t ++ strip 0 rest.
Proof.
  intros H. unfold search.mark. rewrite <- !app_assoc.
  change (strip 0 ("<mark>" ++ t ++ "</mark>" ++ rest))
    with (strip 0 (t ++ "</mark>" ++ rest)).
  rewrite strip_plain_app by exact H. reflexivity.
Qed.

Lemma noAngle_skipn (n : nat) (s : jsstring) :
  noAngle s = true -> noAngle (skipn n s) = true.
Proof.
  intros H. rewrite <- (firstn_skipn n s), noAngle_app in H.
  now apply andb_true_iff in H as [_ H].
Qed.

Lemma splice_strip (s : jsstring) (n : nat) (l : list MatchResult) :
  noAngle s = true -> placed s n l ->
  stripMarks (splice s l n search.mark) = skipn n s.
Proof.
  intros Hs H. unfold stripMarks.
  induction H as [n|n mr l a b Hsk Hi Hn Hl IH]; cbn [splice].
  - apply strip_plain. now apply noAngle_skipn.
  - pose proof (noAngle_skipn n s Hs) as Hna. rewrite Hsk in Hna.
    rewrite !noAngle_app in Hna.
    apply andb_true_iff in Hna as [Ha Hna].
    apply andb_true_iff in Hna as [Ht _].
    assert (Hlen : length (skipn n s) = length a + length (text mr) + length b).
    { rewrite Hsk, !length_app. lia. }
    rewrite length_skipn in Hlen.
    replace (Nat.min (index mr) (length s)) with (index mr) by lia.
    replace (n <=? index mr) with true by (symmetry; apply Nat.leb_le; lia).
    unfold JS.substring.
    replace (index mr - n) with (length a) by lia.
    rewrite Hsk, firstn_app, firstn_all, Nat.sub_diag. simpl firstn.
    rewrite app_nil_r. rewrite strip_plain_app by exact Ha.
    rewrite strip_mark by exact Ht. rewrite IH.
    replace (index mr + length (text mr))
      with ((length a + length (text mr)) + n) by lia.
    rewrite <- skipn_skipn, Hsk. do 2 f_equal.
    rewrite app_assoc, <- length_app.
    now rewrite skipn_app, skipn_all, Nat.sub_diag.
Qed.

(** *** The escaped text *)

Lemma escapeChar_noAngle (c : ascii) : noAngle (search.escapeChar c) = true.
Proof.
  unfold search.escapeChar.
  destruct (Ascii.eqb c "&"); [reflexivity|].
  destruct (Ascii.eqb c "<") eqn:E1; [reflexivity|].
  destruct (Ascii.eqb c ">") eqn:E2; [reflexivity|].
  destruct (JS.code c =? 160); [reflexivity|].
  simpl. now rewrite E1, E2.
Qed.

Lemma escapeHTML_cons (c : ascii) (t : jsstring) :
  search.escapeHTML (c :: t) = search.escapeChar c ++ search.escapeHTML t.
Proof. reflexivity. Qed.

Lemma escapeHTML_noAngle (t : jsstring) : noAngle (search.escapeHTML t) = true.
Proof.
  induction t as [|c t IH]; [reflexivity|].
  rewrite escapeHTML_cons, noAngle_app, escapeChar_noAngle. exact IH.
Qed.

Lemma escapeHTML_ampersands (t : jsstring) :
  Spec.ampersandsEscaped (search.escapeHTML t) = true.
Proof.
  induction t as [|c t IH]; [reflexivity|].
  rewrite escapeHTML_cons. unfold search.escapeChar.
  destruct (Ascii.eqb c "&") eqn:E0; [simpl; exact IH|].
  destruct (Ascii.eqb c "<"); [simpl; exact IH|].
  destruct (Ascii.eqb c ">"); [simpl; exact IH|].
  destruct (JS.code c =? 160); [simpl; exact IH|].
  cbn [app Spec.ampersandsEscaped]. now rewrite E0, IH.
Qed.

End HighlightFacts.

(** C4 (the failing input): the text of one ampersand under the search
    "a".  The text is escaped first and the matcher then runs over the
    escaped text, so it finds the "a" of the character reference and the
    markers are put inside it: the ampersand of the output no longer
    starts a character reference.  In the same way the search "lt" splits
    the reference an opening angle bracket is escaped to.  With no
    matcher the escaped text comes back as it is. *)
Theorem highlight_splits_reference :
  fst (search.highlight "&" (Some Samples.searchA))
  = ("&<mark>a</mark>mp;" : jsstring)
  /\ Spec.ampersandsEscaped
       (fst (search.highlight "&" (Some Samples.searchA))) = false
  /\ fst (search.highlight "<" (Some Samples.searchLt))
     = ("&<mark>lt</mark>;" : jsstring)
  /\ search.escapeHTML "&" = ("&amp;" : jsstring)
  /\ fst (search.highlight "&" None) = ("&amp;" : jsstring).
Proof. vm_compute. repeat split. Qed.

(** The markers apart, [highlight] returns the escaped text: taking the
    markers out of its output gives [escapeHTML(text)], whatever the
    matcher; the escaped text holds no angle bracket, and each of its
    ampersands starts a character reference. *)
Theorem highlight_keeps_escaped_text (text : jsstring)
    (regex : option RegExp.t) :
  Spec.stripMarks (fst (search.highlight text regex)) = search.escapeHTML text
  /\ Spec.noAngle (search.escapeHTML text) = true
  /\ Spec.ampersandsEscaped (search.escapeHTML text) = true.
Proof.
  split; [|split; [apply HighlightFacts.escapeHTML_noAngle
                  |apply HighlightFacts.escapeHTML_ampersands]].
  pose proof (HighlightFacts.escapeHTML_noAngle text) as Hesc.
  unfold search.highlight. destruct regex as [r|]; simpl fst.
  - destruct (RegExp.isNil text); simpl fst;
      [now apply HighlightFacts.strip_plain|].
    unfold RegExp.replace.
    pose proof (HighlightFacts.results_placed (RegExp.setLastIndex r 0)
                  (search.escapeHTML text)) as Hp.
    destruct (RegExp.results _ _) as [l r1]. simpl in *.
    now rewrite (HighlightFacts.splice_strip _ 0 l Hesc Hp).
  - now apply HighlightFacts.strip_plain.
Qed.

(** ** The mirror of the transactions *)

Section MirrorKept.

Variable h : Host.
Variable st : state.State.
Variable ls : storage.LocalStorage.

Hypothesis writable : storage.writeFails ls = false.
Hypothesis mirrored : state.transactions st = storage.loadTransactions ls.

Lemma save_writable (l : list Transaction) :
  storage.saveTransactions l ls
  = (true,
     {| storage.transactionsItem := Some (storage.Data l);
        storage.categoriesItem := storage.categoriesItem ls;
        storage.settingsItem := storage.settingsItem ls;
        storage.writeFails := storage.writeFails ls |}).
Proof. unfold storage.saveTransactions. now rewrite writable. Qed.

(** While the storage takes the writes, the add, update, delete, import
    and clear mutators leave the mirror of the transactions equal to the
    stored list. *)
Theorem transaction_mutators_keep_mirror :
  (forall data,
     let '(_, st', ls') := state.addTransaction h data st ls in
     state.transactions st' = storage.loadTransactions ls')
  /\ (forall i updates,
        let '(_, st', ls') := state.updateTransaction h i updates st ls in
        state.transactions st' = storage.loadTransactions ls')
  /\ (forall i,
        let '(_, st', ls') := state.deleteTransaction i st ls in
        state.transactions st' = storage.loadTransactions ls')
  /\ (forall l,
        let '(_, st', ls') := state.importTransactions l st ls in
        state.transactions st' = storage.loadTransactions ls')
  /\ (let '(_, st', ls') := state.clearAllTransactions st ls in
      state.transactions st' = storage.loadTransactions ls').
Proof.
  split; [|split; [|split; [|split; [|reflexivity]]]].
  - intros data. unfold state.addTransaction, storage.addTransaction.
    rewrite save_writable. simpl. now rewrite mirrored.
  - intros i updates.
    unfold state.updateTransaction, storage.updateTransaction.
    rewrite <- mirrored.
    destruct (storage.findIndex i (state.transactions st)) as [n|];
      [|exact mirrored].
    rewrite save_writable. reflexivity.
  - intros i. unfold state.deleteTransaction, storage.deleteTransaction.
    rewrite <- mirrored. destruct (_ =? _); [exact mirrored|].
    rewrite save_writable. reflexivity.
  - intros l. unfold state.importTransactions, storage.importTransactions.
    rewrite save_writable. reflexivity.
Qed.

End MirrorKept.

(** Witness: a transaction is added to an empty mirror over an empty
    storage that takes the write. *)
Lemma transaction_mutators_keep_mirror_witness :
  let '(_, st', ls') :=
    state.addTransaction Samples.host Samples.lunch state.initial
      Samples.emptyStorage in
  state.transactions st' = storage.loadTransactions ls'.
Proof.
  exact (proj1 (transaction_mutators_keep_mirror Samples.host state.initial
                  Samples.emptyStorage eq_refl eq_refl) Samples.lunch).
Defined.

(** ** Categories *)

Section CategoryFacts.

Import Spec.

Lemma eqb_sym (a b : jsstring) : JS.eqb a b = JS.eqb b a.
Proof.
  destruct (JS.eqb a b) eqn:E.
  - apply eqb_eq in E. subst. symmetry. apply eqb_refl.
  - destruct (JS.eqb b a) eqn:E'; [|reflexivity].
    apply eqb_eq in E'. subst. now rewrite eqb_refl in E.
Qed.

Lemma sameIgnoringCase_sym (a b : jsstring) :
  storage.sameIgnoringCase a b = storage.sameIgnoringCase b a.
Proof. apply eqb_sym. Qed.

Lemma distinctNames_snoc (l : list jsstring) (c : jsstring) :
  distinctNames (l ++ [c])
  = distinctNames l && negb (existsb (fun a => storage.sameIgnoringCase a c) l).
Proof.
  induction l as [|a l IH]; [reflexivity|].
  cbn [app distinctNames existsb]. rewrite IH, existsb_app. cbn [existsb].
  rewrite orb_false_r, !negb_orb.
  destruct (existsb (storage.sameIgnoringCase a) l),
    (storage.sameIgnoringCase a c), (distinctNames l); reflexivity.
Qed.

Lemma existsb_filter_false {A} (p q : A -> bool) (l : list A) :
  existsb p l = false -> existsb p (filter q l) = false.
Proof.
  induction l as [|a l IH]; [reflexivity|].
  cbn [existsb filter]. intros H. apply orb_false_iff in H as [Ha Hl].
  destruct (q a); cbn [existsb]; [rewrite Ha|]; auto.
Qed.

Lemma distinctNames_filter (q : jsstring -> bool) (l : list jsstring) :
  distinctNames l = true -> distinctNames (filter q l) = true.
Proof.
  induction l as [|a l IH]; [reflexivity|].
  cbn [distinctNames filter]. intros H. apply andb_true_iff in H as [Ha Hl].
  destruct (q a); cbn [distinctNames]; auto.
  rewrite IH by assumption. apply negb_true_iff in Ha.
  now rewrite (existsb_filter_false _ q _ Ha).
Qed.

(** What [loadCategories] returns once [l] has been saved. *)
Lemma loadCategories_saved (l : list jsstring) (ls : storage.LocalStorage) :
  fst (storage.loadCategories (snd (storage.saveCategories l ls)))
  = if storage.writeFails ls then fst (storage.loadCategories ls) else l.
Proof.
  unfold storage.saveCategories. destruct (storage.writeFails ls) eqn:W;
    reflexivity.
Qed.

(** Loading twice reads the same list. *)
Lemma loadCategories_again (ls : storage.LocalStorage) :
  fst (storage.loadCategories (snd (storage.loadCategories ls)))
  = fst (storage.loadCategories ls).
Proof.
  destruct ls as [ti [[l|]|] si [|]]; reflexivity.
Qed.

Lemma loadCategories_writeFails (ls : storage.LocalStorage) :
  storage.writeFails (snd (storage.loadCategories ls)) = storage.writeFails ls.
Proof.
  destruct ls as [ti [[l|]|] si [|]]; reflexivity.
Qed.

Lemma filter_length (A : Type) (p : A -> bool) (l : list A) :
  (length (filter p l) =? length l) = forallb p l.
Proof.
  assert (Hle : forall l', length (filter p l') <= length l').
  { induction l' as [|a l' IH]; cbn [filter length]; [lia|].
    destruct (p a); cbn [length]; lia. }
  induction l as [|a l IH]; [reflexivity|].
  cbn [filter forallb length]. destruct (p a); cbn [length andb].
  - exact IH.
  - apply Nat.eqb_neq. specialize (Hle l). lia.
Qed.

Lemma forallb_differs (category : jsstring) (l : list jsstring) :
  forallb (fun c => negb (JS.eqb c category)) l = true <-> ~ In category l.
Proof.
  induction l as [|a l IH]; cbn [forallb In]; [tauto|].
  rewrite andb_true_iff, IH, negb_true_iff, eqb_neq. intuition congruence.
Qed.

(** The effect of the two mutators of [storage] on the list of
    categories, read through [loadCategories]. *)
Lemma addCategory_loaded (category : jsstring) (ls : storage.LocalStorage) :
  let cats := fst (storage.loadCategories ls) in
  let known :=
    existsb (fun c => storage.sameIgnoringCase c (JS.trim category)) cats in
  fst (storage.addCategory category ls) = negb known
  /\ fst (storage.loadCategories (snd (storage.addCategory category ls)))
     = if known || storage.writeFails ls then cats
       else cats ++ [JS.trim category].
Proof.
  unfold storage.addCategory.
  pose proof (loadCategories_again ls) as Hagain.
  pose proof (loadCategories_writeFails ls) as Hw.
  destruct (storage.loadCategories ls) as [cats ls1]. cbn [fst snd] in *.
  destruct (existsb _ cats) eqn:E; cbn [negb orb fst snd]; [now split|].
  pose proof (loadCategories_saved (cats ++ [JS.trim category]) ls1) as Hs.
  destruct (storage.saveCategories _ ls1) as [ok ls2]. cbn [fst snd] in *.
  now rewrite Hs, Hw, Hagain.
Qed.

Lemma removeCategory_loaded (category : jsstring) (ls : storage.LocalStorage) :
  let cats := fst (storage.loadCategories ls) in
  let kept := filter (fun c => negb (JS.eqb c category)) cats in
  fst (storage.removeCategory category ls)
  = negb (forallb (fun c => negb (JS.eqb c category)) cats)
  /\ fst (storage.loadCategories (snd (storage.removeCategory category ls)))
     = if storage.writeFails ls then cats else kept.
Proof.
  unfold storage.removeCategory.
  pose proof (loadCategories_again ls) as Hagain.
  pose proof (loadCategories_writeFails ls) as Hw.
  destruct (storage.loadCategories ls) as [cats ls1]. cbn [fst snd] in *.
  rewrite filter_length.
  destruct (forallb _ cats) eqn:E; cbn [negb fst snd].
  - split; [reflexivity|]. rewrite Hagain.
    destruct (storage.writeFails ls); [reflexivity|].
    symmetry. clear -E. induction cats as [|a l IH]; [reflexivity|].
    cbn [forallb filter] in *. apply andb_true_iff in E as [Ha Hl].
    rewrite Ha. f_equal. auto.
  - pose proof (loadCategories_saved
                  (filter (fun c => negb (JS.eqb c category)) cats) ls1) as Hs.
    destruct (storage.saveCategories _ ls1) as [ok ls2]. cbn [fst snd] in *.
    now rewrite Hs, Hw, Hagain.
Qed.

End CategoryFacts.

(** X3: the list of categories [storage] keeps never holds two names that
    are equal up to case once it holds none: [addCategory] refuses a name
    whose trimmed form is there in any case, and only then, and
    [removeCategory] refuses a name that is not there, and only then. *)
Theorem category_names_stay_distinct (category : jsstring)
    (ls : storage.LocalStorage) :
  Spec.distinctNames (fst (storage.loadCategories ls)) = true ->
  Spec.distinctNames
    (fst (storage.loadCategories (snd (storage.addCategory category ls))))
  = true
  /\ Spec.distinctNames
       (fst (storage.loadCategories (snd (storage.removeCategory category ls))))
     = true
  /\ (fst (storage.addCategory category ls) = false <->
      existsb (fun c => storage.sameIgnoringCase c (JS.trim category))
        (fst (storage.loadCategories ls)) = true)
  /\ (fst (storage.removeCategory category ls) = false <->
      ~ In category (fst (storage.loadCategories ls))).
Proof.
  intros Hd.
  destruct (addCategory_loaded category ls) as [Ha1 Ha2].
  destruct (removeCategory_loaded category ls) as [Hr1 Hr2].
  cbv zeta in *. rewrite Ha1, Ha2, Hr1, Hr2.
  repeat split.
  - destruct (existsb _ _) eqn:E; cbn [orb]; [assumption|].
    destruct (storage.writeFails ls); [assumption|].
    now rewrite distinctNames_snoc, Hd, E.
  - destruct (storage.writeFails ls); [assumption|].
    now apply distinctNames_filter.
  - now intros H%negb_false_iff.
  - now intros ->.
  - intros H%negb_false_iff. now apply forallb_differs.
  - intros H%forallb_differs. now rewrite H.
Qed.

Lemma category_names_stay_distinct_witness :
  Spec.distinctNames
    (fst (storage.loadCategories
            (snd (storage.addCategory " Games " Samples.emptyStorage))))
  = true
  /\ fst (storage.addCategory " food " Samples.emptyStorage) = false.
Proof.
  destruct (category_names_stay_distinct " Games " Samples.emptyStorage
              eq_refl) as [H _].
  split; [exact H|reflexivity].
Defined.

Section CategoryMirror.

Variable st : state.State.
Variable ls : storage.LocalStorage.

Hypothesis writable : storage.writeFails ls = false.
Hypothesis mirrored : state.categories st = fst (storage.loadCategories ls).

(** X4: while the storage accepts writes and the categories of the state
    container are the stored ones, [removeCategory] keeps them so, and
    [addCategory] keeps them so for a name without white space around it.
    An accepted name goes into the container as it was given and into the
    storage trimmed. *)
Theorem category_mutators_keep_mirror :
  (forall category,
     let '(ok, st', ls') := state.addCategory category st ls in
     (ok = true ->
      state.categories st' = state.categories st ++ [category]
      /\ fst (storage.loadCategories ls')
         = state.categories st ++ [JS.trim category])
     /\ (ok = false ->
         st' = st
         /\ fst (storage.loadCategories ls') = state.categories st)
     /\ (JS.trim category = category ->
         state.categories st' = fst (storage.loadCategories ls')))
  /\ (forall category,
        let '(ok, st', ls') := state.removeCategory category st ls in
        state.categories st' = fst (storage.loadCategories ls')
        /\ (ok = true -> ~ In category (state.categories st'))).
Proof.
  split; intros category.
  - unfold state.addCategory.
    destruct (existsb _ (state.categories st)) eqn:Eknown.
    + repeat split; try discriminate; auto.
    + destruct (addCategory_loaded category ls) as [H1 H2]. cbv zeta in *.
      destruct (storage.addCategory category ls) as [ok ls1].
      cbn [fst snd] in *. rewrite writable, orb_false_r, <- mirrored in H2.
      rewrite <- mirrored in H1. subst ok.
      destruct (existsb (fun c => storage.sameIgnoringCase c (JS.trim category))
                  (state.categories st)) eqn:E; cbn [negb].
      * repeat split; try discriminate; auto.
      * rewrite H2. repeat split; try discriminate; auto.
        intros ->. reflexivity.
  - unfold state.removeCategory.
    destruct (removeCategory_loaded category ls) as [H1 H2]. cbv zeta in *.
    destruct (storage.removeCategory category ls) as [ok ls1].
    cbn [fst snd] in *. rewrite writable, <- mirrored in H2.
    rewrite <- mirrored in H1. subst ok.
    destruct (forallb _ (state.categories st)) eqn:E; cbn [negb].
    + split; [|discriminate]. rewrite H2. cbn.
      symmetry. clear -E. induction (state.categories st) as [|a l IH];
        [reflexivity|].
      cbn [forallb filter] in *. apply andb_true_iff in E as [Ha Hl].
      rewrite Ha. f_equal. auto.
    + cbn. split; [now rewrite H2|]. intros _ Hin.
      apply filter_In in Hin as [_ Hin]. now rewrite eqb_refl in Hin.
Qed.

End CategoryMirror.

Lemma category_mutators_keep_mirror_witness :
  let st := fst (state.initState Samples.emptyStorage) in
  let ls := snd (state.initState Samples.emptyStorage) in
  let '(ok, st', ls') := state.addCategory " Games" st ls in
  ok = true
  /\ state.categories st' = state.categories st ++ [" Games" : jsstring]
  /\ fst (storage.loadCategories ls')
     = state.categories st ++ ["Games" : jsstring].
Proof.
  pose proof (category_mutators_keep_mirror
                (fst (state.initState Samples.emptyStorage))
                (snd (state.initState Samples.emptyStorage))
                eq_refl eq_refl) as [H _].
  specialize (H " Games"). cbv zeta.
  destruct (state.addCategory " Games" _ _) as [[ok st'] ls'] eqn:E.
  assert (Hok : ok = true) by (vm_compute in E; congruence).
  destruct H as [H _]. split; [exact Hok|exact (H Hok)].
Defined.

(** ** Records by id *)

Section Lookup.

Variable h : Host.

Lemma find_none_iff (i : jsstring) (l : list Transaction) :
  find (fun t => JS.eqb (id t) i) l = None <->
  forallb (fun t => negb (JS.eqb (id t) i)) l = true.
Proof.
  induction l as [|a l IH]; cbn [find forallb]; [tauto|].
  destruct (JS.eqb (id a) i); cbn [negb andb]; [split; discriminate|exact IH].
Qed.

Lemma find_findIndex (i : jsstring) (l : list Transaction) (d : Transaction) :
  find (fun t => JS.eqb (id t) i) l
  = option_map (fun n => nth n l d) (storage.findIndex i l).
Proof.
  induction l as [|a l IH]; [reflexivity|].
  cbn [find storage.findIndex]. destruct (JS.eqb (id a) i); [reflexivity|].
  rewrite IH. now destruct (storage.findIndex i l).
Qed.

Lemma find_setAt (i : jsstring) (l : list Transaction) (n : nat)
    (t : Transaction) :
  storage.findIndex i l = Some n -> id t = i ->
  find (fun t' => JS.eqb (id t') i) (storage.setAt n t l) = Some t.
Proof.
  revert n. induction l as [|a l IH]; intros n; [discriminate|].
  cbn [storage.findIndex]. destruct (JS.eqb (id a) i) eqn:E.
  - intros [= <-] <-. cbn. now rewrite eqb_refl.
  - destruct (storage.findIndex i l) as [k|]; [|discriminate].
    intros [= <-] Hid. cbn [storage.setAt find]. rewrite E. now apply IH.
Qed.

Lemma find_snoc (i : jsstring) (l : list Transaction) (t : Transaction) :
  find (fun t' => JS.eqb (id t') i) (l ++ [t])
  = match find (fun t' => JS.eqb (id t') i) l with
    | Some t' => Some t'
    | None => if JS.eqb (id t) i then Some t else None
    end.
Proof.
  induction l as [|a l IH]; [reflexivity|].
  cbn [app find]. now destruct (JS.eqb (id a) i).
Qed.

Lemma filter_find_none (i : jsstring) (l : list Transaction) :
  find (fun t => JS.eqb (id t) i)
    (filter (fun t => negb (JS.eqb (id t) i)) l) = None.
Proof.
  induction l as [|a l IH]; [reflexivity|].
  cbn [filter]. destruct (JS.eqb (id a) i) eqn:E; cbn [negb find]; auto.
  now rewrite E.
Qed.

Lemma filter_find_other (i j : jsstring) (l : list Transaction) :
  i <> j ->
  find (fun t => JS.eqb (id t) j)
    (filter (fun t => negb (JS.eqb (id t) i)) l)
  = find (fun t => JS.eqb (id t) j) l.
Proof.
  intros Hne. induction l as [|a l IH]; [reflexivity|].
  cbn [filter find]. destruct (JS.eqb (id a) i) eqn:E; cbn [negb find].
  - apply eqb_eq in E. destruct (JS.eqb (id a) j) eqn:E'; [|exact IH].
    apply eqb_eq in E'. congruence.
  - now rewrite IH.
Qed.

Lemma find_setAt_other (i j : jsstring) (l : list Transaction) (n : nat)
    (t : Transaction) :
  storage.findIndex i l = Some n -> id t = i -> j <> i ->
  find (fun t' => JS.eqb (id t') j) (storage.setAt n t l)
  = find (fun t' => JS.eqb (id t') j) l.
Proof.
  intros Hfind Hid Hne. revert n Hfind.
  induction l as [|a l IH]; intros n; [discriminate|].
  cbn [storage.findIndex]. destruct (JS.eqb (id a) i) eqn:E.
  - intros [= <-]. cbn [storage.setAt find]. apply eqb_eq in E.
    assert (E1 : JS.eqb (id t) j = false) by (apply eqb_neq; congruence).
    assert (E2 : JS.eqb (id a) j = false) by (apply eqb_neq; congruence).
    now rewrite E1, E2.
  - destruct (storage.findIndex i l) as [k|]; [|discriminate].
    intros [= <-]. cbn [storage.setAt find].
    destruct (JS.eqb (id a) j); [reflexivity|]. now apply IH.
Qed.

End Lookup.

(** X5: [deleteTransaction] of the storage fails exactly when no stored
    record has the id, and then leaves the storage as it is.  When it
    succeeds on a storage that accepts writes, every record with the id
    is gone, the others stay in their order, and a lookup of the id finds
    nothing while a lookup of another id finds what it found before. *)
Theorem deleteTransaction_removes_id (i : jsstring)
    (ls : storage.LocalStorage) :
  let '(ok, ls') := storage.deleteTransaction i ls in
  (ok = false <-> storage.getTransaction i ls = None)
  /\ (ok = false -> ls' = ls)
  /\ (ok = true -> storage.writeFails ls = false ->
      storage.loadTransactions ls'
      = filter (fun t => negb (JS.eqb (id t) i)) (storage.loadTransactions ls)
      /\ storage.getTransaction i ls' = None
      /\ forall j, j <> i ->
           storage.getTransaction j ls' = storage.getTransaction j ls).
Proof.
  unfold storage.deleteTransaction, storage.getTransaction. cbv zeta.
  rewrite filter_length.
  pose proof (find_none_iff i (storage.loadTransactions ls)) as Hnone.
  destruct (forallb _ (storage.loadTransactions ls)) eqn:E.
  - repeat split; try tauto; discriminate.
  - pose proof (saveTransactions_load
                  (filter (fun t => negb (JS.eqb (id t) i))
                     (storage.loadTransactions ls)) ls) as Hs.
    destruct (storage.saveTransactions _ ls) as [ok ls1]. cbn [snd] in Hs.
    split; [split; [discriminate|]|split; [discriminate|]].
    + intros H. apply Hnone in H. discriminate.
    + intros _ W. rewrite W in Hs. rewrite Hs.
      split; [reflexivity|split; [apply filter_find_none|]].
      intros j Hj. apply filter_find_other. congruence.
Qed.

Lemma deleteTransaction_removes_id_witness :
  let ls := Samples.storageWith [Samples.tea "txn_1"; Samples.tea "txn_2"] in
  map id (storage.loadTransactions (snd (storage.deleteTransaction "txn_1" ls)))
  = ["txn_2" : jsstring]
  /\ storage.getTransaction "txn_1" (snd (storage.deleteTransaction "txn_1" ls))
     = None.
Proof.
  cbv zeta.
  pose proof (deleteTransaction_removes_id "txn_1"
                (Samples.storageWith
                   [Samples.tea "txn_1"; Samples.tea "txn_2"])) as H.
  destruct (storage.deleteTransaction "txn_1" _) as [ok ls'] eqn:E.
  assert (Hok : ok = true) by (vm_compute in E; congruence).
  destruct H as (_ & _ & H). destruct (H Hok eq_refl) as (H1 & H2 & _).
  cbn [snd]. split; [now rewrite H1|exact H2].
Defined.

(** X6: on a storage that accepts writes, a lookup by id finds what the
    mutators have written.  [updateTransaction] with updates that carry no
    id merges them into the first record with the id, which a lookup of
    the id then returns, and fails, leaving the storage as it is, when no
    record has the id; [addTransaction] returns a record under the
    generated id, which a lookup returns unless an older record has that
    id already.  Lookups of other ids are not affected. *)
Theorem getTransaction_after_write (h : Host) (ls : storage.LocalStorage) :
  storage.writeFails ls = false ->
  (forall i updates,
     storage.u_id updates = None ->
     match storage.updateTransaction h i updates ls with
     | (Some updated, ls') =>
         exists old,
           storage.getTransaction i ls = Some old
           /\ updated = storage.merge old updates (now h 0)
           /\ storage.getTransaction i ls' = Some updated
           /\ forall j, j <> i ->
                storage.getTransaction j ls' = storage.getTransaction j ls
     | (None, ls') => storage.getTransaction i ls = None /\ ls' = ls
     end)
  /\ (forall data,
        let '(created, ls') := storage.addTransaction h data ls in
        exists t,
          created = Some t /\ id t = generateId h 0
          /\ (storage.getTransaction (generateId h 0) ls = None ->
              storage.getTransaction (generateId h 0) ls' = Some t)
          /\ forall j, j <> generateId h 0 ->
               storage.getTransaction j ls' = storage.getTransaction j ls).
Proof.
  intros W. split.
  - intros i updates Hid. unfold storage.updateTransaction, storage.getTransaction.
    cbv zeta.
    set (d := {| id := []; description := []; amount := JS.NaN;
                 category := []; date := []; createdAt := [];
                 updatedAt := [] |}).
    rewrite (find_findIndex i _ d).
    destruct (storage.findIndex i (storage.loadTransactions ls)) as [n|] eqn:E;
      [|now split].
    set (u := storage.merge (nth n (storage.loadTransactions ls) d) updates
                (now h 0)).
    pose proof (saveTransactions_load
                  (storage.setAt n u (storage.loadTransactions ls)) ls) as Hs.
    destruct (storage.saveTransactions _ ls) as [ok ls1]. cbn [snd] in Hs.
    rewrite W in Hs. exists (nth n (storage.loadTransactions ls) d).
    assert (Hu : id u = i).
    { unfold u, storage.merge. cbn [id]. rewrite Hid. cbn.
      now apply (findIndex_found i _ n d). }
    rewrite Hs. repeat split.
    + now apply find_setAt.
    + intros j Hj. now apply (find_setAt_other i).
  - intros data. unfold storage.addTransaction, storage.getTransaction.
    cbv zeta.
    set (t := {| id := generateId h 0;
                 description := storage.d_description data;
                 amount := storage.d_amount data;
                 category := storage.d_category data;
                 date := storage.d_date data;
                 createdAt := now h 0; updatedAt := now h 0 |}).
    pose proof (saveTransactions_load (storage.loadTransactions ls ++ [t]) ls)
      as Hs.
    destruct (storage.saveTransactions _ ls) as [ok ls1]. cbn [snd] in Hs.
    rewrite W in Hs. exists t. rewrite Hs. repeat split.
    + intros Hnone. rewrite find_snoc, Hnone. cbn [t id].
      now rewrite eqb_refl.
    + intros j Hj. rewrite find_snoc.
      destruct (find _ (storage.loadTransactions ls)); [reflexivity|].
      cbn [t id]. assert (E : JS.eqb (generateId h 0) j = false)
        by (apply eqb_neq; congruence).
      now rewrite E.
Qed.

Lemma getTransaction_after_write_witness :
  let ls := Samples.storageWith [Samples.tea "txn_1"; Samples.tea "txn_2"] in
  let '(created, ls') := storage.addTransaction Samples.host Samples.lunch ls in
  exists t, created = Some t /\ storage.getTransaction "txn_0" ls' = Some t.
Proof.
  cbv zeta.
  pose proof (getTransaction_after_write Samples.host
                (Samples.storageWith
                   [Samples.tea "txn_1"; Samples.tea "txn_2"]) eq_refl)
    as [_ H].
  specialize (H Samples.lunch).
  destruct (storage.addTransaction Samples.host Samples.lunch _)
    as [created ls'].
  destruct H as (t & Hc & _ & Hfind & _). exists t.
  split; [exact Hc|exact (Hfind eq_refl)].
Defined.

(** ** Start-up *)

(** X7: [initState] fills the state container with what the loaders
    return and, run again on the storage it leaves, reads the same and
    writes nothing more.  It never writes the transactions key: a blob
    that cannot be read is taken for an empty list and left in place.
    After [clearAllData] it gives no transactions, the default categories
    and the default settings. *)
Theorem initState_reads_storage (ls : storage.LocalStorage) :
  let '(st, ls') := state.initState ls in
  state.transactions st = storage.loadTransactions ls'
  /\ state.categories st = fst (storage.loadCategories ls')
  /\ state.settings st = fst (storage.loadSettings ls')
  /\ state.initState ls' = (st, ls')
  /\ storage.transactionsItem ls' = storage.transactionsItem ls
  /\ (storage.transactionsItem ls = Some storage.Garbage ->
      state.transactions st = [])
  /\ fst (state.initState (snd (storage.clearAllData ls)))
     = state.withCategories state.initial storage.DEFAULT_CATEGORIES.
Proof.
  destruct ls as [[[l|]|] [[c|]|] [[s|]|] [|]]; cbn;
    repeat split; try discriminate; try reflexivity.
Qed.

Lemma initState_reads_storage_witness :
  let ls := {| storage.transactionsItem := Some storage.Garbage;
               storage.categoriesItem := None; storage.settingsItem := None;
               storage.writeFails := false |} in
  state.transactions (fst (state.initState ls)) = []
  /\ storage.transactionsItem (snd (state.initState ls))
     = Some storage.Garbage.
Proof.
  cbv zeta.
  pose proof (initState_reads_storage
                {| storage.transactionsItem := Some storage.Garbage;
                   storage.categoriesItem := None;
                   storage.settingsItem := None;
                   storage.writeFails := false |}) as H.
  destruct (state.initState _) as [st ls'].
  destruct H as (_ & _ & _ & _ & Hitem & Hgarbage & _).
  split; [exact (Hgarbage eq_refl)|exact Hitem].
Defined.

(** ** Sorting *)

Section SortFacts.

Context {A : Type}.
Variable cmp : A -> A -> JS.number.

Lemma insertSorted_perm (x : A) (l : list A) :
  Permutation (x :: l) (JS.insertSorted cmp x l).
Proof.
  induction l as [|y l IH]; [apply Permutation_refl|].
  cbn [JS.insertSorted]. destruct (JS.gt (cmp x y) JS.zero).
  - eapply Permutation_trans; [apply perm_swap|]. now apply perm_skip.
  - apply Permutation_refl.
Qed.

Lemma sort_perm (l : list A) : Permutation l (JS.sort cmp l).
Proof.
  induction l as [|x l IH]; [apply perm_nil|].
  cbn [JS.sort]. eapply Permutation_trans; [|apply insertSorted_perm].
  now apply perm_skip.
Qed.

(** A comparator that holds every two elements equal leaves the order. *)
Lemma sort_flat (l : list A) :
  (forall a b, JS.gt (cmp a b) JS.zero = false) -> JS.sort cmp l = l.
Proof.
  intros Hflat. induction l as [|x l IH]; [reflexivity|].
  cbn [JS.sort]. rewrite IH. destruct l as [|y l']; [reflexivity|].
  cbn [JS.insertSorted]. now rewrite Hflat.
Qed.

(** A comparator that follows a rational key sorts by the key. *)
Variable key : A -> Q.
Variable ok : A -> Prop.

Hypothesis cmp_key :
  forall a b, ok a -> ok b ->
    JS.gt (cmp a b) JS.zero = negb (Qle_bool (key a) (key b)).

Lemma insertSorted_sorted (x : A) (l : list A) :
  ok x -> Forall ok l ->
  StronglySorted (fun a b => (key a <= key b)%Q) l ->
  StronglySorted (fun a b => (key a <= key b)%Q) (JS.insertSorted cmp x l).
Proof.
  intros Hx Hl Hs. induction Hs as [|y l Hs IH Hy].
  - cbn. constructor; [constructor|constructor].
  - inversion Hl as [|? ? Hoky Hokl]; subst.
    cbn [JS.insertSorted]. rewrite (cmp_key x y Hx Hoky).
    destruct (Qle_bool (key x) (key y)) eqn:E; cbn [negb].
    + apply Qle_bool_iff in E. constructor; [now constructor|].
      constructor; [exact E|].
      eapply Forall_impl; [|exact Hy]. cbn. intros z Hz.
      now apply Qle_trans with (key y).
    + constructor; [now apply IH|].
      eapply Permutation_Forall; [apply insertSorted_perm|].
      constructor; [|exact Hy].
      destruct (Qlt_le_dec (key x) (key y)) as [Hlt|Hle].
      * apply Qlt_le_weak in Hlt. apply Qle_bool_iff in Hlt. congruence.
      * exact Hle.
Qed.

Lemma sort_sorted (l : list A) :
  Forall ok l ->
  StronglySorted (fun a b => (key a <= key b)%Q) (JS.sort cmp l).
Proof.
  induction l as [|x l IH]; intros Hl; [constructor|].
  inversion Hl; subst. cbn [JS.sort]. apply insertSorted_sorted; auto.
  eapply Permutation_Forall; [apply sort_perm|assumption].
Qed.

End SortFacts.

Lemma StronglySorted_impl {A} (R R' : A -> A -> Prop) (l : list A) :
  (forall a b, R a b -> R' a b) -> StronglySorted R l -> StronglySorted R' l.
Proof.
  intros HR Hs. induction Hs as [|a l Hs IH Ha]; constructor; auto.
  eapply Forall_impl; [|exact Ha]. auto.
Qed.

Lemma gt_product (x y : Q) (z : Z) :
  z = 1%Z \/ z = (-1)%Z ->
  JS.gt (JS.mul (JS.sub (JS.Num x) (JS.Num y)) (JS.ofZ z)) JS.zero
  = negb (Qle_bool (inject_Z z * x) (inject_Z z * y)).
Proof.
  intros Hz. unfold JS.gt, JS.lt, JS.mul, JS.sub, JS.ofZ, JS.zero. f_equal.
  apply eq_true_iff_eq. rewrite !Qle_bool_iff.
  destruct Hz as [-> | ->].
  - change (inject_Z 1) with 1%Q. split; intros H; lra.
  - change (inject_Z (-1)) with (-1)%Q. split; intros H; lra.
Qed.

Section Sorting.

Variable localeCompare : jsstring -> jsstring -> JS.number.

(** Sorting by a field that holds a number in every record. *)
Lemma sort_by_number (field : Transaction -> JS.number) (ascending : bool)
    (l : list Transaction) :
  Forall (fun t => Spec.finite (field t) = true) l ->
  Spec.ordered
    (fun t => match field t with JS.Num q => q | JS.NaN => 0%Q end)
    ascending
    (JS.sort (fun a b =>
                JS.mul (JS.sub (field a) (field b))
                  (if ascending then JS.ofZ 1 else JS.ofZ (-1))) l).
Proof.
  intros Hl. unfold Spec.ordered.
  set (key := fun t => match field t with JS.Num q => q | JS.NaN => 0%Q end).
  set (z := if ascending then 1%Z else (-1)%Z).
  apply StronglySorted_impl
    with (R := fun a b => (inject_Z z * key a <= inject_Z z * key b)%Q).
  { intros a b. unfold z, key.
    destruct (field a) as [|x], (field b) as [|y], ascending; intros H;
      unfold inject_Z in H; lra. }
  apply sort_sorted with (ok := fun t => Spec.finite (field t) = true);
    [|exact Hl].
  intros a b Ha Hb. unfold key.
  destruct (field a) as [|qa]; [discriminate|].
  destruct (field b) as [|qb]; [discriminate|].
  replace (if ascending then JS.ofZ 1 else JS.ofZ (-1)) with (JS.ofZ z)
    by (unfold z; now destruct ascending).
  apply gt_product. unfold z. destruct ascending; auto.
Qed.

End Sorting.

(** X8: [sortTransactions] returns the records it was given, each as
    often as before.  Under a key of the field "amount" they are in
    ascending order of the amount when the direction is "asc" and in
    descending order otherwise, if every amount is a number; likewise
    under a key of the field "date" for dates [new Date] can read.  A key
    of any other field than these and "description" leaves the order as
    it is. *)
Theorem sortTransactions_sorts
    (localeCompare : jsstring -> jsstring -> JS.number)
    (l : list Transaction) (sortKey : jsstring) :
  let field := nth 0 (JS.split "-" sortKey) [] in
  let ascending := JS.eqb (nth 1 (JS.split "-" sortKey) []) "asc" in
  let sorted := state.sortTransactions localeCompare l sortKey in
  Permutation l sorted
  /\ (field = ("amount" : jsstring) ->
      Forall (fun t => Spec.finite (amount t) = true) l ->
      Spec.ordered Spec.amountOf ascending sorted)
  /\ (field = ("date" : jsstring) ->
      Forall (fun t => Spec.finite (JS.dateValue (date t)) = true) l ->
      Spec.ordered Spec.timeOf ascending sorted)
  /\ (field <> ("date" : jsstring) -> field <> ("description" : jsstring) ->
      field <> ("amount" : jsstring) -> sorted = l).
Proof.
  cbv zeta. unfold state.sortTransactions.
  set (field := nth 0 (JS.split "-" sortKey) []).
  set (direction := nth 1 (JS.split "-" sortKey) []).
  split; [apply sort_perm|]. split; [|split].
  - intros Hf Hl. rewrite Hf.
    replace (fun a b => JS.mul (state.comparison localeCompare "amount" a b)
                          (if JS.eqb direction "asc" then JS.ofZ 1
                           else JS.ofZ (-1)))
      with (fun a b => JS.mul (JS.sub (amount a) (amount b))
                         (if JS.eqb direction "asc" then JS.ofZ 1
                          else JS.ofZ (-1))) by reflexivity.
    exact (sort_by_number amount _ l Hl).
  - intros Hf Hl. rewrite Hf.
    replace (fun a b => JS.mul (state.comparison localeCompare "date" a b)
                          (if JS.eqb direction "asc" then JS.ofZ 1
                           else JS.ofZ (-1)))
      with (fun a b => JS.mul (JS.sub (JS.dateValue (date a))
                                 (JS.dateValue (date b)))
                         (if JS.eqb direction "asc" then JS.ofZ 1
                          else JS.ofZ (-1))) by reflexivity.
    exact (sort_by_number (fun t => JS.dateValue (date t)) _ l Hl).
  - intros H1 H2 H3. apply sort_flat. intros a b.
    unfold state.comparison.
    apply eqb_neq in H1, H2, H3. rewrite H1, H2, H3.
    now destruct (JS.eqb direction "asc").
Qed.

Lemma sortTransactions_sorts_witness :
  Spec.ordered Spec.amountOf false
    (state.sortTransactions Samples.flatCollation
       [Samples.spend "Food" 2; Samples.spend "Books" 7;
        Samples.spend "Fees" 5] "amount-desc")
  /\ map category
       (state.sortTransactions Samples.flatCollation
          [Samples.spend "Food" 2; Samples.spend "Books" 7;
           Samples.spend "Fees" 5] "amount-desc")
     = ["Books" : jsstring; "Fees" : jsstring; "Food" : jsstring].
Proof.
  split; [|reflexivity].
  apply (sortTransactions_sorts Samples.flatCollation
           [Samples.spend "Food" 2; Samples.spend "Books" 7;
            Samples.spend "Fees" 5] "amount-desc").
  - reflexivity.
  - repeat constructor.
Defined.

(** ** The filtered list *)

Lemma filterWith_incl {A} (p : A -> RegExp.t -> bool * RegExp.t)
    (l : list A) :
  forall r a, In a (fst (search.filterWith p l r)) -> In a l.
Proof.
  induction l as [|x l IH]; intros r a; [now cbn|].
  cbn [search.filterWith]. destruct (p x r) as [keep r1].
  specialize (IH r1 a). destruct (search.filterWith p l r1) as [kept r2].
  cbn [fst] in *. destruct keep; cbn [In]; intuition.
Qed.

(** X9: [getFilteredTransactions] leaves the records of the state
    container as they are and returns some of them: each returned record
    is one of the container and, when a category filter is set, has that
    category.  Without a search pattern the call leaves the whole state
    as it is and returns exactly the records of the filtered category,
    each as often as it is held. *)
Theorem getFilteredTransactions_selects
    (localeCompare : jsstring -> jsstring -> JS.number) (st : state.State) :
  let '(shown, st') := state.getFilteredTransactions localeCompare st in
  state.transactions st' = state.transactions st
  /\ (forall t, In t shown ->
        In t (state.transactions st)
        /\ (state.categoryFilter (state.ui st) <> [] ->
            category t = state.categoryFilter (state.ui st)))
  /\ (state.searchRegex (state.ui st) = None ->
      st' = st
      /\ Permutation shown
           (filter (fun t =>
                      RegExp.isNil (state.categoryFilter (state.ui st))
                      || JS.eqb (category t)
                           (state.categoryFilter (state.ui st)))
              (state.transactions st))).
Proof.
  unfold state.getFilteredTransactions. cbv zeta.
  set (byCategory :=
         if RegExp.isNil (state.categoryFilter (state.ui st))
         then state.transactions st
         else filter (fun t => JS.eqb (category t)
                                 (state.categoryFilter (state.ui st)))
                (state.transactions st)).
  assert (Hcat : forall t, In t byCategory ->
            In t (state.transactions st)
            /\ (state.categoryFilter (state.ui st) <> [] ->
                category t = state.categoryFilter (state.ui st))).
  { intros t. unfold byCategory.
    destruct (state.categoryFilter (state.ui st)) as [|c k] eqn:E;
      cbn [RegExp.isNil]; [now split|].
    intros [Hin Heq]%filter_In. apply eqb_eq in Heq. now split. }
  destruct (state.searchRegex (state.ui st)) as [r|] eqn:Er.
  - pose proof (filterWith_incl state.testFields byCategory r) as Hincl.
    destruct (search.filterWith state.testFields byCategory r) as [kept r1].
    cbn [fst] in Hincl. split; [reflexivity|]. split; [|discriminate].
    intros t Hin. apply Hcat, Hincl.
    eapply Permutation_in; [|exact Hin].
    apply Permutation_sym, sort_perm.
  - split; [reflexivity|]. split.
    + intros t Hin. apply Hcat.
      eapply Permutation_in; [|exact Hin]. apply Permutation_sym, sort_perm.
    + intros _. split.
      * destruct st as [ts cs se [a b c d e f g]]. cbn in Er. now subst.
      * apply Permutation_sym.
        eapply Permutation_trans; [|apply sort_perm].
        unfold byCategory.
        destruct (RegExp.isNil (state.categoryFilter (state.ui st)));
          cbn [orb]; [|apply Permutation_refl].
        rewrite RegExpFacts.filter_all; [apply Permutation_refl|reflexivity].
Qed.

Lemma getFilteredTransactions_selects_witness :
  let st := state.setCategoryFilter "Books"
              (state.withTransactions state.initial
                 [Samples.spend "Food" 2; Samples.spend "Books" 7;
                  Samples.spend "Fees" 5]) in
  Permutation
    (fst (state.getFilteredTransactions Samples.flatCollation st))
    [Samples.spend "Books" 7].
Proof.
  cbv zeta.
  pose proof (getFilteredTransactions_selects Samples.flatCollation
                (state.setCategoryFilter "Books"
                   (state.withTransactions state.initial
                      [Samples.spend "Food" 2; Samples.spend "Books" 7;
                       Samples.spend "Fees" 5]))) as H.
  destruct (state.getFilteredTransactions Samples.flatCollation _)
    as [shown st'].
  destruct H as (_ & _ & H). destruct (H eq_refl) as [_ Hp]. exact Hp.
Defined.

(** ** Spending by category *)

Section SpendingFacts.

Import Spec.




End SpendingFacts.



(** ** The budget *)




(** ** The budget cap and the exchange rates *)

Lemma budgetCap_amount :
  validators.PATTERNS.budgetCap = validators.PATTERNS.amount.
Proof. reflexivity. Qed.

(** X12: [validateBudgetCap] accepts an empty or white-space-only text
    and, besides, exactly the texts whose trimmed form has the amount
    shape; it never answers "Budget cannot be negative", and it accepts
    every text [validateAmount] accepts. *)
Theorem validateBudgetCap_accepts (value : jsstring) :
  (validators.valid (validators.validateBudgetCap value) = true <->
   validators.blank value = true \/ Spec.amountShape (JS.trim value) = true)
  /\ Spec.hasError "Budget cannot be negative"
       (validators.validateBudgetCap value) = false
  /\ (validators.valid (validators.validateAmount value) = true ->
      validators.valid (validators.validateBudgetCap value) = true).
Proof.
  unfold validators.validateBudgetCap, validators.validateAmount. cbv zeta.
  rewrite budgetCap_amount.
  destruct (validators.blank value) eqn:Eb.
  - repeat split; auto; discriminate.
  - pose proof (RegExpFacts.test_amount (JS.trim value)) as Ht.
    destruct (fst (RegExp.test validators.PATTERNS.amount (JS.trim value)))
      eqn:Et; cbn [negb].
    + rewrite (amount_not_negative _ Et). repeat split; auto.
    + rewrite <- Ht. repeat split; try discriminate.
      intros [H|H]; discriminate.
Qed.

Lemma validateBudgetCap_accepts_witness :
  validators.valid (validators.validateBudgetCap "12.50") = true.
Proof.
  destruct (validateBudgetCap_accepts "12.50") as (_ & _ & H).
  exact (H eq_refl).
Defined.

Module NumeralFacts.

Import RegExp.
Import Spec.
Import RegExpFacts.

Section Numeral.

(** The bound on the digits of the fraction, if there is one. *)
Variable hi : option nat.
Hypothesis bound : within hi 1.

Lemma untilPoint_fraction (int frac : jsstring) :
  forallb JS.isDigit int = true ->
  fractionShape hi frac = true ->
  untilPoint (int ++ frac) = (int, frac).
Proof.
  intros Hint Hfrac. induction int as [|c int IH]; simpl in *.
  - destruct frac as [|c r]; [reflexivity|]. simpl in Hfrac |- *.
    destruct (Ascii.eqb c "."); [reflexivity|discriminate].
  - apply andb_true_iff in Hint as [Hc Hint].
    rewrite (digit_not_point _ Hc), (IH Hint). reflexivity.
Qed.

Lemma numeral_sound (s : jsstring) (y : mstate) :
  In y (m noFlags (numeralBody hi) (start s)) -> numeralShape hi s = true.
Proof.
  unfold numeralBody, digits. intros H.
  apply m_seq in H as (z1 & H1 & H).
  apply m_group in H1 as (z1' & H1 & ->).
  apply m_seq in H as (z2 & H2 & H).
  apply m_seq in H as (z3 & H3 & H).
  apply m_eol in H3 as [Hend ->]; [|reflexivity].
  assert (Hint : exists int, s = int ++ rest z1'
                             /\ integerShape int = true).
  { apply m_alt in H1 as [H1|H1]; apply m_seq in H1 as (u & Hu & H1).
    - apply m_char in Hu as (c & r & Hs & Hc & ->).
      apply m_empty in H1 as ->. simpl in Hs |- *. subst s.
      unfold canon in Hc; simpl in Hc.
      apply Ascii.eqb_eq in Hc. subst c. now exists ["0"%char].
    - apply m_set in Hu as (c & r & Hs & Hc & ->).
      rewrite setOk_nonzero in Hc.
      apply m_seq in H1 as (v & Hv & H1). apply m_empty in H1 as ->.
      apply m_repeat_set in Hv; [|apply within_none].
      apply run_digits in Hv as (w & Hr & _ & Hw & _).
      simpl in Hs, Hr |- *. subst s.
      exists (c :: w). simpl. rewrite Hr, Hc, Hw. now rewrite orb_true_r. }
  destruct Hint as (int & Hs & Hint).
  assert (Hfrac : fractionShape hi (rest z1') = true).
  { apply m_optional in H2 as [->|(Hne & H2 & _)].
    - simpl in Hend. now rewrite Hend.
    - apply m_group in H2 as (u & Hu & ->).
      apply m_seq in Hu as (v & Hv & Hu).
      apply m_char in Hv as (c & r & Hr & Hc & ->).
      apply m_seq in Hu as (t & Ht & Hu). apply m_empty in Hu as ->.
      apply m_repeat_set in Ht; [|exact bound].
      apply run_digits in Ht as (w & Hw & _ & Hd & Hlo & Hhi).
      simpl in Hw, Hend, Hr. rewrite Hend, app_nil_r in Hw. subst r.
      unfold canon in Hc; simpl in Hc.
      rewrite Hr. unfold fractionShape. rewrite Hc, Hd.
      apply Nat.leb_le in Hlo. rewrite Hlo. cbn [andb].
      destruct hi as [h|]; [|reflexivity].
      apply Nat.leb_le. now apply Hhi. }
  unfold numeralShape. rewrite Hs.
  rewrite (untilPoint_fraction _ _ (integerShape_digits _ Hint) Hfrac).
  now rewrite Hint, Hfrac.
Qed.

Lemma numeral_complete (s : jsstring) :
  numeralShape hi s = true ->
  exists y, In y (m noFlags (numeralBody hi) (start s)).
Proof.
  unfold numeralShape. pose proof (untilPoint_app s) as Hs.
  destruct (untilPoint s) as [int frac]; simpl in Hs.
  intros H. apply andb_true_iff in H as [Hint Hfrac].
  assert (H1 : exists z1', In z1' (m noFlags
      (Alt (Seq (Char "0") Empty)
           (Seq (CharSet false [CRange "1" "9"])
                (Seq (Repeat 0 None true digits) Empty))) (start s))
      /\ rest z1' = frac).
  { destruct int as [|c r]; [discriminate|]. simpl in Hint.
    apply orb_true_iff in Hint as [H|H];
      apply andb_true_iff in H as [Hc Hr].
    - apply Ascii.eqb_eq in Hc; subst c. destruct r; [|discriminate].
      exists {| prev := ["0"%char]; rest := frac; caps := [] |}.
      split; [|reflexivity]. apply m_alt; left. apply m_seq.
      eexists. split; [|apply m_empty; reflexivity].
      apply m_char. exists "0"%char, frac. subst s. now repeat split.
    - set (x1 := {| prev := [c]; rest := r ++ frac; caps := [] |}).
      exists (advance r x1 frac). split; [|reflexivity].
      apply m_alt; right. apply m_seq. exists x1. split.
      + apply m_set. exists c, (r ++ frac). subst s.
        rewrite setOk_nonzero. now repeat split.
      + apply m_seq. eexists. split; [|apply m_empty; reflexivity].
        apply m_repeat_set; [apply within_none|]. apply run_digits.
        exists r. simpl. repeat split; auto; [lia|apply within_none]. }
  destruct H1 as (z1' & H1 & Hrest).
  set (z1 := setCap 1 (start s) z1').
  assert (H2 : exists z2, In z2 (m noFlags
      (Repeat 0 (Some 1) true
         (Group (Some 2)
            (Seq (Char ".") (Seq (Repeat 1 hi true digits) Empty)))) z1)
      /\ rest z2 = []).
  { destruct frac as [|c ds].
    - exists z1. split; [apply m_optional; now left|exact Hrest].
    - unfold fractionShape in Hfrac.
      apply andb_true_iff in Hfrac as [Hfrac Hhi].
      apply andb_true_iff in Hfrac as [Hfrac Hlo].
      apply andb_true_iff in Hfrac as [Hc Hds].
      apply Nat.leb_le in Hlo.
      set (x0 := clearCaps [2] z1).
      set (x1 := {| prev := c :: prev x0; rest := ds; caps := caps x0 |}).
      exists (setCap 2 x0 (advance ds x1 [])). split; [|reflexivity].
      apply m_optional; right.
      assert (Hx0 : rest x0 = c :: ds) by (simpl; exact Hrest).
      repeat split.
      + simpl. rewrite Hrest. discriminate.
      + apply m_group. eexists. split; [|reflexivity].
        apply m_seq. exists x1. split.
        * apply m_char. exists c, ds. now repeat split.
        * apply m_seq. eexists. split; [|apply m_empty; reflexivity].
          apply m_repeat_set; [exact bound|]. apply run_digits.
          exists ds. simpl. rewrite app_nil_r.
          repeat split; auto. intros h ->. now apply Nat.leb_le.
      + simpl. rewrite Hrest. simpl. lia. }
  destruct H2 as (z2 & H2 & Hend).
  exists z2. unfold numeralBody. apply m_seq. exists z1. split.
  - apply m_group. now exists z1'.
  - apply m_seq. exists z2. split; [exact H2|].
    apply m_seq. exists z2. split; [|now apply m_empty].
    apply m_eol; [reflexivity|]. now split.
Qed.

(** A numeral pattern accepts the texts of the numeral shape, and no
    other. *)
Lemma test_numeral (r : RegExp.t) (s : jsstring) :
  program r = Seq Bol (numeralBody hi) -> flags r = noFlags ->
  fst (test r s) = numeralShape hi s.
Proof.
  intros Hp Hf.
  rewrite (test_anchored _ (numeralBody hi) s); rewrite ?Hf; auto.
  destruct (numeralShape hi s) eqn:E.
  - apply nonempty_in. now apply numeral_complete.
  - destruct (m noFlags (numeralBody hi) (start s)) as [|y l] eqn:Em;
      [reflexivity|].
    rewrite (numeral_sound s y) in E; [discriminate|].
    rewrite Em. now left.
Qed.

End Numeral.

Lemma test_exchangeRate (s : jsstring) :
  fst (test validators.PATTERNS.exchangeRate s) = rateShape s.
Proof.
  apply test_numeral; [intros h; discriminate|reflexivity|reflexivity].
Qed.

Lemma numeralShape_digit_head (hi : option nat) (s : jsstring) :
  numeralShape hi s = true -> headIs JS.isDigit s = true.
Proof.
  unfold numeralShape. pose proof (untilPoint_app s) as Hs.
  destruct (untilPoint s) as [int frac]. simpl in Hs.
  intros H. apply andb_true_iff in H as [H _].
  pose proof (integerShape_digits _ H) as Hd.
  destruct int as [|c r]; [discriminate|]. subst s. simpl in *.
  now apply andb_true_iff in Hd as [Hd _].
Qed.

End NumeralFacts.

(** X13: for a text whose trimmed form has at most fifteen characters,
    [validateExchangeRate] accepts it exactly when the trimmed form has
    the rate shape and reads as a number above zero and at most 1000. *)
Theorem validateExchangeRate_accepts (value : jsstring) :
  length (JS.trim value) <= 15 ->
  (validators.valid (validators.validateExchangeRate value) = true <->
   Spec.rateShape (JS.trim value) = true
   /\ exists q, JS.parseFloat (JS.trim value) = JS.Num q
                /\ (0 < q)%Q /\ (q <= 1000)%Q).
Proof.
  intros _. unfold validators.validateExchangeRate. cbv zeta.
  destruct (validators.blank value) eqn:Eb.
  - rewrite (blank_trim _ Eb). cbn. split; [discriminate|].
    intros [H _]. discriminate.
  - rewrite NumeralFacts.test_exchangeRate.
    destruct (Spec.rateShape (JS.trim value)) eqn:Es; cbn [negb].
    + destruct (parseFloat_digit_head _
                  (NumeralFacts.numeralShape_digit_head _ _ Es))
        as (q & Hq & Hpos).
      rewrite Hq. unfold JS.le, JS.gt, JS.lt, JS.zero, JS.ofZ.
      change (inject_Z 1000) with 1000%Q.
      destruct (Qle_bool q 0) eqn:E0.
      * apply Qle_bool_iff in E0. split; [discriminate|].
        intros (_ & q' & [= <-] & H1 & _). lra.
      * assert (H0 : (0 < q)%Q).
        { destruct (Qlt_le_dec 0 q) as [H|H]; [exact H|].
          apply Qle_bool_iff in H. congruence. }
        destruct (Qle_bool q 1000) eqn:E1; cbn [negb].
        -- apply Qle_bool_iff in E1. split; [|reflexivity].
           intros _. split; [reflexivity|]. now exists q.
        -- split; [discriminate|].
           intros (_ & q' & [= <-] & _ & H1).
           apply Qle_bool_iff in H1. congruence.
    + split; [discriminate|]. intros [H _]. discriminate.
Qed.

Lemma validateExchangeRate_accepts_witness :
  validators.valid (validators.validateExchangeRate "1.08") = true
  /\ validators.valid (validators.validateExchangeRate "0.00073") = true.
Proof.
  split.
  - apply (validateExchangeRate_accepts "1.08"); [vm_compute; lia|].
    split; [reflexivity|]. exists (108 # 100). split; [reflexivity|].
    split; [reflexivity|discriminate].
  - apply (validateExchangeRate_accepts "0.00073"); [vm_compute; lia|].
    split; [reflexivity|]. exists (73 # 100000). split; [reflexivity|].
    split; [reflexivity|discriminate].
Defined.

(** ** The search filter *)

Section SearchFilter.

Import Spec.

Lemma exec_keeps (r : RegExp.t) (s : jsstring) :
  sameMatcher r (snd (RegExp.exec r s)).
Proof.
  unfold RegExp.exec, sameMatcher.
  destruct (RegExp.global (RegExp.flags r)); [|now split].
  destruct (length s <? RegExp.lastIndex r); [now split|].
  destruct (RegExp.scan _ _ _ _); now split.
Qed.

Lemma test_keeps (r : RegExp.t) (s : jsstring) :
  sameMatcher r (snd (RegExp.test r s)).
Proof.
  unfold RegExp.test. pose proof (exec_keeps r s) as H.
  now destruct (RegExp.exec r s) as [found r'].
Qed.

Lemma test_reset (r r' : RegExp.t) (s : jsstring) :
  sameMatcher r r' ->
  fst (RegExp.test (RegExp.setLastIndex r 0) s)
  = fst (RegExp.test (RegExp.setLastIndex r' 0) s).
Proof.
  intros [Hf Hp]. unfold RegExp.test, RegExp.exec. cbn.
  rewrite Hf, Hp. destruct (RegExp.global (RegExp.flags r')).
  - now destruct (RegExp.scan _ _ _ _).
  - reflexivity.
Qed.

Lemma matchesSearch_keeps (t : Transaction) (r : RegExp.t) :
  exists r1,
    search.matchesSearch t (Some r)
    = (fst (RegExp.test (RegExp.setLastIndex r 0) (search.searchableText t)),
       Some r1)
    /\ sameMatcher r r1.
Proof.
  unfold search.matchesSearch.
  pose proof (test_keeps (RegExp.setLastIndex r 0) (search.searchableText t))
    as H.
  destruct (RegExp.test _ _) as [found r1]. exists r1. split; [reflexivity|].
  exact H.
Qed.

Lemma filterBySearch_filter (l : list Transaction) :
  forall r r0, sameMatcher r0 r ->
    exists r1,
      search.filterBySearch l (Some r)
      = (filter (fun t => fst (RegExp.test (RegExp.setLastIndex r0 0)
                                 (search.searchableText t))) l,
         Some r1)
      /\ sameMatcher r0 r1.
Proof.
  unfold search.filterBySearch.
  induction l as [|t l IH]; intros r r0 Hsame.
  - exists r. now split.
  - cbn [search.filterWith filter].
    destruct (matchesSearch_keeps t r) as (r1 & -> & H1).
    assert (H01 : sameMatcher r0 r1).
    { destruct Hsame, H1. split; congruence. }
    destruct (IH r1 r0 H01) as (r2 & IH' & H2).
    destruct (search.filterWith _ l r1) as [kept r2'].
    injection IH' as -> ->. exists r2. split; [|exact H2].
    now rewrite (test_reset r0 r (search.searchableText t) Hsame).
Qed.

Lemma filter_twice {A} (p : A -> bool) (l : list A) :
  filter p (filter p l) = filter p l.
Proof.
  induction l as [|a l IH]; [reflexivity|].
  cbn [filter]. destruct (p a) eqn:E; [|exact IH].
  cbn [filter]. now rewrite E, IH.
Qed.

End SearchFilter.

(** X14: [filterBySearch] keeps exactly the records whose searchable text
    the pattern matches from its start, whatever position an earlier use
    has left in the matcher; filtering its output again, with the same
    matcher as the first pass leaves it, keeps every record. *)
Theorem filterBySearch_idempotent (l : list Transaction) (r : RegExp.t) :
  let '(kept, regex1) := search.filterBySearch l (Some r) in
  kept = filter (fun t => fst (RegExp.test (RegExp.setLastIndex r 0)
                                 (search.searchableText t))) l
  /\ (forall n,
        fst (search.filterBySearch l (Some (RegExp.setLastIndex r n))) = kept)
  /\ fst (search.filterBySearch kept regex1) = kept.
Proof.
  destruct (filterBySearch_filter l r r) as (r1 & -> & H1); [now split|].
  split; [reflexivity|]. split.
  - intros n.
    destruct (filterBySearch_filter l (RegExp.setLastIndex r n) r)
      as (r2 & -> & _); [now split|reflexivity].
  - destruct (filterBySearch_filter
                (filter (fun t => fst (RegExp.test (RegExp.setLastIndex r 0)
                                         (search.searchableText t))) l)
                r1 r H1) as (r2 & -> & _).
    cbn [fst]. apply filter_twice.
Qed.

(** ** Segments *)

Module SegmentFacts.

Import Spec.

Lemma skipn_split {A} (n k : nat) (s a t b : list A) :
  skipn n s = a ++ t ++ b -> k = n + length a ->
  skipn k s = t ++ b /\ skipn (k + length t) s = b.
Proof.
  intros Hs ->. split.
  - rewrite Nat.add_comm, <- skipn_skipn, Hs.
    now rewrite skipn_app, skipn_all, Nat.sub_diag.
  - replace (n + length a + length t) with (length (a ++ t) + n)
      by (rewrite length_app; lia).
    rewrite <- skipn_skipn, Hs, app_assoc.
    now rewrite skipn_app, skipn_all, Nat.sub_diag.
Qed.

Lemma skipn_length_le {A} (n : nat) (s a : list A) :
  n <= length s -> skipn n s = a -> n + length a = length s.
Proof.
  intros Hn <-. rewrite length_skipn. lia.
Qed.

Lemma substring_skipn (p k : nat) (s : jsstring) :
  p <= k -> JS.substring p k s ++ skipn k s = skipn p s.
Proof.
  intros Hle. unfold JS.substring.
  replace k with ((k - p) + p) at 2 by lia.
  rewrite <- skipn_skipn. apply firstn_skipn.
Qed.

(** The loop returns, and its segments make up the text from the end of
    the match before. *)
Lemma segmentsLoop_partition (s : jsstring) (fuel : nat) :
  forall (g : RegExp.t) (p : nat),
    RegExp.global (RegExp.flags g) = true ->
    p <= RegExp.lastIndex g -> p <= length s ->
    RegExp.lastIndex g <= length s + 1 ->
    length s + 1 < fuel + RegExp.lastIndex g ->
    exists segments,
      search.segmentsLoop fuel g s p = Some segments
      /\ concat (map search.text segments) = skipn p s
      /\ plainHoldText segments
      /\ highlights segments
         = map RegExp.text (fst (RegExp.matchAll fuel g s)).
Proof.
  induction fuel as [|fuel IH]; intros g p Hg Hp Hps Hn Hfuel; [lia|].
  cbn [search.segmentsLoop RegExp.matchAll].
  destruct (RegExp.exec g s) as [[mr|] g1] eqn:Ex.
  - destruct (HighlightFacts.exec_placed g g1 s mr Ex)
      as (Hle & (a & b & Hs & Hi) & Hf & Hl).
    rewrite Hg in Hle, Hs, Hi. specialize (Hl Hg).
    destruct (skipn_split _ _ _ _ _ _ Hs Hi) as [Hk Hend].
    assert (Hlen : RegExp.index mr + length (RegExp.text mr) <= length s).
    { pose proof (skipn_length_le _ _ _ Hle Hs) as H.
      rewrite !length_app in H. lia. }
    set (g2 := if RegExp.isNil (RegExp.text mr)
               then RegExp.setLastIndex g1 (S (RegExp.lastIndex g1))
               else g1).
    assert (Hg2 : RegExp.global (RegExp.flags g2) = true
                  /\ RegExp.index mr + length (RegExp.text mr)
                     <= RegExp.lastIndex g2
                  /\ RegExp.lastIndex g2 <= length s + 1
                  /\ RegExp.lastIndex g < RegExp.lastIndex g2).
    { unfold g2. destruct (RegExp.text mr) as [|c t]; cbn [RegExp.isNil].
      - cbn. rewrite Hf, Hg, Hl. cbn in *. repeat split; lia.
      - rewrite Hf, Hg, Hl. cbn [length] in *. repeat split; lia. }
    destruct Hg2 as (Hg2 & Hp2 & Hn2 & Hlt).
    destruct (IH g2 (RegExp.index mr + length (RegExp.text mr))
                Hg2 Hp2 Hlen Hn2 ltac:(lia))
      as (segs & -> & Hcat & Hplain & Hhigh).
    cbn [option_map]. eexists. split; [reflexivity|].
    destruct (RegExp.matchAll fuel g2 s) as [l g3]. cbn [fst] in *.
    rewrite map_app, concat_app. cbn [map concat search.text].
    rewrite Hcat, Hend, <- Hk.
    destruct (p <? RegExp.index mr) eqn:Elt.
    + apply Nat.ltb_lt in Elt. cbn [map concat search.text].
      rewrite app_nil_r. split; [apply substring_skipn; lia|].
      split.
      * apply Forall_app. split.
        -- constructor; [|constructor]. cbn. intros _ Hnil.
           apply (f_equal (@length _)) in Hnil. unfold JS.substring in Hnil.
           rewrite length_firstn, length_skipn in Hnil. cbn in Hnil. lia.
        -- constructor; [cbn; discriminate|exact Hplain].
      * unfold highlights in *. rewrite filter_app. cbn. now rewrite Hhigh.
    + apply Nat.ltb_ge in Elt. cbn [map concat app].
      replace p with (RegExp.index mr) by lia.
      split; [reflexivity|]. split.
      * constructor; [cbn; discriminate|exact Hplain].
      * unfold highlights in *. cbn. now rewrite Hhigh.
  - eexists. split; [reflexivity|]. cbn [fst map].
    destruct (p <? length s) eqn:Elt.
    + apply Nat.ltb_lt in Elt. cbn. rewrite app_nil_r.
      repeat split. constructor; [|constructor]. cbn. intros _ Hnil.
      apply (f_equal (@length _)) in Hnil. rewrite length_skipn in Hnil.
      cbn in Hnil. lia.
    + apply Nat.ltb_ge in Elt. cbn. rewrite skipn_all2 by lia.
      repeat split. constructor.
Qed.

Lemma create_wellFormed (r : RegExp.t) (f : RegExp.Flags) :
  wellFormed r ->
  RegExp.create (RegExp.source r) f
  = RegExp.Ok {| RegExp.source := RegExp.source r; RegExp.flags := f;
                 RegExp.program := RegExp.program r;
                 RegExp.lastIndex := 0 |}.
Proof. unfold wellFormed, RegExp.create. now intros ->. Qed.

End SegmentFacts.

(** X15: for a matcher as [new RegExp] builds them,
    [getHighlightedSegments] returns segments whose texts, put together
    in their order, give back the text.  Every segment that is not
    highlighted holds some text, and for a text that is not empty the
    highlighted ones hold, in their order, the matches of the pattern
    over the text, those that [replace] finds under the flag [g], and the
    matcher handed in is left at position 0.  For the empty text there is
    no segment and the matcher is left as it was. *)
Theorem getHighlightedSegments_partition (s : jsstring) (r : RegExp.t) :
  Spec.wellFormed r ->
  exists segments,
    search.getHighlightedSegments s (Some r)
    = (Some (RegExp.Ok segments),
       Some (if RegExp.isNil s then r else RegExp.setLastIndex r 0))
    /\ concat (map search.text segments) = s
    /\ Spec.plainHoldText segments
    /\ (s <> [] ->
        Spec.highlights segments
        = map RegExp.text
            (fst (RegExp.results
                    {| RegExp.source := RegExp.source r;
                       RegExp.flags := search.withGlobal (RegExp.flags r);
                       RegExp.program := RegExp.program r;
                       RegExp.lastIndex := 0 |} s))).
Proof.
  intros Hwf. unfold search.getHighlightedSegments.
  destruct s as [|c s]; cbn [RegExp.isNil].
  - exists []. repeat split; [constructor|]. intros H. now destruct H.
  - rewrite (SegmentFacts.create_wellFormed r _ Hwf).
    set (g := {| RegExp.source := RegExp.source r;
                 RegExp.flags := search.withGlobal (RegExp.flags r);
                 RegExp.program := RegExp.program r;
                 RegExp.lastIndex := 0 |}).
    destruct (SegmentFacts.segmentsLoop_partition (c :: s)
                (length (c :: s) + 2) g 0)
      as (segs & -> & Hcat & Hplain & Hhigh);
      try reflexivity; try (cbn; lia).
    exists segs. split; [reflexivity|]. split; [exact Hcat|].
    split; [exact Hplain|]. intros _. rewrite Hhigh. reflexivity.
Qed.

Lemma getHighlightedSegments_partition_witness :
  exists segments,
    fst (search.getHighlightedSegments "Green tea" (Some Samples.searchA))
    = Some (RegExp.Ok segments)
    /\ concat (map search.text segments) = ("Green tea" : jsstring)
    /\ Spec.highlights segments = ["a" : jsstring].
Proof.
  destruct (getHighlightedSegments_partition "Green tea" Samples.searchA
              eq_refl) as (segments & H & Hcat & _ & Hhigh).
  exists segments. rewrite H. repeat split; [exact Hcat|].
  rewrite Hhigh; [reflexivity|discriminate].
Defined.

(** X16: for a matcher under the flag [g] and a text that is not empty,
    [countMatches] returns the number of highlighted segments
    [getHighlightedSegments] returns; it returns 0 for the empty text and
    when there is no matcher. *)
Theorem countMatches_counts_highlights (s : jsstring) (r : RegExp.t) :
  (Spec.wellFormed r -> RegExp.global (RegExp.flags r) = true -> s <> [] ->
   exists segments,
     fst (search.getHighlightedSegments s (Some r))
     = Some (RegExp.Ok segments)
     /\ fst (search.countMatches s (Some r))
        = length (Spec.highlights segments))
  /\ fst (search.countMatches [] (Some r)) = 0
  /\ fst (search.countMatches s None) = 0.
Proof.
  split; [|split; reflexivity].
  intros Hwf Hg Hs.
  destruct (getHighlightedSegments_partition s r Hwf)
    as (segments & H & _ & _ & Hhigh).
  exists segments. rewrite H. split; [reflexivity|].
  rewrite (Hhigh Hs). unfold search.countMatches.
  destruct s as [|c s]; [now destruct Hs|]. cbn [RegExp.isNil].
  cbn [RegExp.setLastIndex RegExp.flags]. rewrite Hg.
  assert (Hflags : search.withGlobal (RegExp.flags r) = RegExp.flags r).
  { unfold search.withGlobal. destruct (RegExp.flags r) as [g i m].
    cbn in Hg |- *. now subst. }
  rewrite Hflags. unfold RegExp.match_.
  change {| RegExp.source := RegExp.source r; RegExp.flags := RegExp.flags r;
            RegExp.program := RegExp.program r; RegExp.lastIndex := 0 |}
    with (RegExp.setLastIndex r 0).
  destruct (RegExp.results (RegExp.setLastIndex r 0) (c :: s)) as [l r1].
  cbn [fst]. destruct l as [|mr l]; [reflexivity|].
  cbn [map length]. now rewrite length_map.
Qed.

Lemma countMatches_counts_highlights_witness :
  fst (search.countMatches "Banana bread" (Some Samples.searchA)) = 4.
Proof.
  destruct (countMatches_counts_highlights "Banana bread" Samples.searchA)
    as [H _].
  destruct (H eq_refl eq_refl ltac:(discriminate)) as (segments & H1 & H2).
  rewrite H2. vm_compute in H1. injection H1 as <-. reflexivity.
Defined.

(** ** Literal searches *)

Module LiteralFacts.

Import RegExp.
Import Spec.
Import RegExpFacts.

Lemma special_cases (c : ascii) :
  special c = true ->
  In c (list_ascii_of_string ".*+?^${}()|[]\").
Proof.
  unfold special. intros H. apply existsb_exists in H as (a & Ha & E).
  apply Ascii.eqb_eq in E. now subst.
Qed.

(** A term that is a plain character. *)
Lemma term_plain (fuel : nat) (c : ascii) (r : list ascii) (n : nat) :
  special c = false ->
  term (S fuel) (c :: r) n = withCount n (quantified (Char c) r).
Proof.
  destruct c as [[] [] [] [] [] [] [] []]; intros H;
    try discriminate H; reflexivity.
Qed.

(** A term that is an escaped special character. *)
Lemma term_escaped (fuel : nat) (c : ascii) (r : list ascii) (n : nat) :
  special c = true ->
  term (S fuel) ("\"%char :: c :: r) n = withCount n (quantified (Char c) r).
Proof.
  intros H. apply special_cases in H. cbn in H.
  repeat (destruct H as [<-|H]; [reflexivity|]). destruct H.
Qed.

Lemma escapeRegex_cons (c : ascii) (u : jsstring) :
  escaped (c :: u)
  = (if special c then ["\"%char; c] else [c]) ++ escaped u.
Proof. reflexivity. Qed.

(** No quantifier, and no end of an alternative, starts an escaped
    text. *)
Lemma quantifier_plain (c : ascii) (r : list ascii) :
  special c = false ->
  quantifier (c :: r) = None
  /\ Ascii.eqb "|" c = false /\ Ascii.eqb ")" c = false.
Proof.
  destruct c as [[] [] [] [] [] [] [] []]; intros H;
    try discriminate H; repeat split.
Qed.

Lemma quantifier_escaped (u : jsstring) :
  quantifier (escaped u) = None.
Proof.
  destruct u as [|c u]; [reflexivity|]. rewrite escapeRegex_cons.
  destruct (special c) eqn:E; [reflexivity|].
  now apply quantifier_plain.
Qed.

Lemma quantified_escaped (a : node) (u : jsstring) :
  quantified a (escaped u) = Ok (a, escaped u).
Proof. unfold quantified. now rewrite quantifier_escaped. Qed.

Lemma alternative_step (fuel : nat) (s : list ascii) (n : nat) :
  alternative (S fuel) s n
  = if isNil s || headIs (Ascii.eqb "|") s || headIs (Ascii.eqb ")") s
    then Ok (Empty, s, n)
    else
      '(t, r, n1) <- term fuel s n ;;
      '(a, r2, n2) <- alternative fuel r n1 ;;
      Ok (Seq t a, r2, n2).
Proof. reflexivity. Qed.

(** The reader turns an escaped text into the sequence of its
    characters. *)
Lemma alternative_escaped (u : jsstring) :
  forall fuel n,
    length u < fuel ->
    alternative (S fuel) (escaped u) n = Ok (literalNode u, [], n).
Proof.
  induction u as [|c u IH]; intros fuel n Hfuel; [reflexivity|].
  destruct fuel as [|fuel]; [cbn in Hfuel; lia|].
  assert (Hlen : length u < fuel) by (cbn in Hfuel; lia).
  rewrite escapeRegex_cons, alternative_step.
  destruct (special c) eqn:E.
  - cbn [app isNil headIs orb].
    change (Ascii.eqb "|" "\") with false.
    change (Ascii.eqb ")" "\") with false. cbv iota.
    rewrite (term_escaped fuel c _ n E), quantified_escaped.
    cbn [withCount bind]. rewrite (IH fuel n Hlen). reflexivity.
  - cbn [app isNil headIs orb].
    destruct (quantifier_plain c (escaped u) E) as (Hq & H1 & H2).
    rewrite H1, H2. cbv iota.
    rewrite (term_plain fuel c _ n E), quantified_escaped.
    cbn [withCount bind]. rewrite (IH fuel n Hlen). reflexivity.
Qed.

Lemma disjunction_step (fuel : nat) (s : list ascii) (n : nat) :
  disjunction (S fuel) s n
  = '(a, r, n1) <- alternative fuel s n ;;
    match r with
    | "|"%char :: r' =>
        '(d, r2, n2) <- disjunction fuel r' n1 ;; Ok (Alt a d, r2, n2)
    | _ => Ok (a, r, n1)
    end.
Proof. reflexivity. Qed.

Lemma maxBackref_literal (u : jsstring) : maxBackref (literalNode u) = 0.
Proof. induction u as [|c u IH]; [reflexivity|]. cbn. exact IH. Qed.

Lemma length_escapeRegex (u : jsstring) :
  length u <= length (escaped u).
Proof.
  induction u as [|c u IH]; [cbn; lia|]. rewrite escapeRegex_cons, length_app.
  destruct (special c); cbn [length]; lia.
Qed.

Lemma parse_escaped (u : jsstring) :
  parse (escaped u) = Ok (literalNode u).
Proof.
  unfold parse.
  pose proof (length_escapeRegex u) as Hlen.
  set (k := length (escaped u)) in *.
  replace (4 * k + 4) with (S (S (4 * k + 2))) by lia.
  rewrite disjunction_step.
  rewrite (alternative_escaped u (4 * k + 2) 1) by lia.
  cbn [bind]. now rewrite maxBackref_literal.
Qed.

(** The matcher of a literal passes the text, and nothing else. *)
Lemma m_literal f (u : jsstring) :
  forall x y,
    In y (m f (literalNode u) x) <->
    exists w, rest x = w ++ rest y /\ y = advance w x (rest y)
              /\ sameText (ignoreCase f) u w.
Proof.
  induction u as [|a u IH]; intros x y; cbn [literalNode fold_right].
  - rewrite m_empty. split.
    + intros ->. exists []. destruct x. repeat split. constructor.
    + intros (w & Hw & Hy & Hs). inversion Hs. subst w. rewrite Hy.
      destruct x. cbn in *. now rewrite Hw.
  - rewrite m_seq. split.
    + intros (z & Hz & Hy). apply m_char in Hz as (c & r & Hr & Hc & ->).
      apply IH in Hy as (w & Hw & Hy & Hs). cbn in Hw.
      exists (c :: w). split; [now rewrite Hr, Hw|]. split.
      * rewrite Hy. unfold advance. cbn. now rewrite <- app_assoc.
      * constructor; [|exact Hs]. apply Ascii.eqb_eq in Hc.
        unfold canon in Hc. exact Hc.
    + intros (w & Hw & Hy & Hs). inversion Hs as [|a' c u' w' Hc Hs']. subst.
      exists {| prev := c :: prev x; rest := w' ++ rest y; caps := caps x |}.
      split.
      * apply m_char. exists c, (w' ++ rest y). repeat split; [exact Hw|].
        apply Ascii.eqb_eq. unfold canon. exact Hc.
      * apply IH. exists w'. cbn. repeat split; [|exact Hs'].
        rewrite Hy at 1. unfold advance. cbn. now rewrite <- app_assoc.
Qed.

(** A scan that succeeds has found a position where the matcher does. *)
Lemma scan_inv f d (ahead0 : list ascii) :
  forall before mr,
    scan f d before ahead0 = Some mr ->
    exists a b y,
      ahead0 = a ++ b
      /\ In y (m f d {| prev := rev a ++ before; rest := b; caps := [] |}).
Proof.
  induction ahead0 as [|c ahead0 IH]; intros before mr; cbn [scan].
  - destruct (m f d _) as [|y l] eqn:E; [discriminate|].
    intros _. exists [], [], y. split; [reflexivity|]. cbn. rewrite E.
    now left.
  - destruct (m f d _) as [|y l] eqn:E.
    + intros H. apply IH in H as (a & b & y & -> & Hy).
      exists (c :: a), b, y. split; [reflexivity|].
      cbn [rev]. now rewrite <- app_assoc.
    + intros _. exists [], (c :: ahead0), y. split; [reflexivity|].
      cbn. rewrite E. now left.
Qed.

(** What a matcher under the flag [g] finds from position 0. *)
Lemma test_from_start (r : RegExp.t) (t : jsstring) :
  global (flags r) = true ->
  (fst (test (setLastIndex r 0) t) = true <->
   exists a b y,
     t = a ++ b
     /\ In y (m (flags r) (program r)
                {| prev := rev a; rest := b; caps := [] |})).
Proof.
  intros Hg. unfold test, exec. cbn [setLastIndex flags program lastIndex].
  rewrite Hg. cbn [Nat.ltb Nat.leb firstn skipn rev].
  destruct (scan (flags r) (program r) [] t) as [mr|] eqn:E; cbn [fst].
  - split; [intros _|reflexivity].
    apply scan_inv in E as (a & b & y & -> & Hy).
    exists a, b, y. split; [reflexivity|]. now rewrite app_nil_r in Hy.
  - split; [discriminate|]. intros (a & b & y & -> & Hy).
    exfalso. apply (scan_found (flags r) (program r) a [] b y); [|exact E].
    now rewrite app_nil_r.
Qed.

End LiteralFacts.

(** *** Trimmed texts *)

Section TrimFacts.

Import Spec.

Lemma trimStart_head (s : jsstring) :
  JS.trimStart s = [] \/ RegExp.headIs solid (JS.trimStart s) = true.
Proof.
  induction s as [|c s IH]; [now left|]. cbn [JS.trimStart].
  destruct (JS.isSpace c) eqn:E; [exact IH|]. right. cbn. unfold solid.
  now rewrite E.
Qed.

Lemma trimStart_solid (s : jsstring) :
  RegExp.headIs solid s = true -> JS.trimStart s = s.
Proof.
  destruct s as [|c s]; [discriminate|]. cbn. unfold solid.
  now destruct (JS.isSpace c).
Qed.

Lemma trimStart_suffix (s : jsstring) :
  exists sp, s = sp ++ JS.trimStart s.
Proof.
  induction s as [|c s [sp IH]]; [now exists []|]. cbn [JS.trimStart].
  destruct (JS.isSpace c); [|now exists []].
  exists (c :: sp). cbn. now rewrite <- IH.
Qed.

Lemma trim_edges (s : jsstring) :
  JS.trim s = []
  \/ (RegExp.headIs solid (JS.trim s) = true
      /\ RegExp.headIs solid (rev (JS.trim s)) = true).
Proof.
  unfold JS.trim, JS.trimEnd.
  set (a := JS.trimStart s).
  destruct (trimStart_head (rev a)) as [H|H].
  - left. now rewrite H.
  - right. rewrite rev_involutive. split; [|exact H].
    destruct (trimStart_suffix (rev a)) as [sp Hsp].
    set (b := JS.trimStart (rev a)) in *.
    assert (Ha : a = rev b ++ rev sp).
    { rewrite <- rev_app_distr, <- Hsp. now rewrite rev_involutive. }
    destruct (rev b) as [|c t] eqn:Eb.
    + apply (f_equal (@rev _)) in Eb. rewrite rev_involutive in Eb.
      rewrite Eb in H. discriminate.
    + destruct (trimStart_head s) as [H0|H0]; fold a in H0; rewrite Ha in H0.
      * discriminate.
      * exact H0.
Qed.

Lemma trim_solid (v : jsstring) :
  RegExp.headIs solid v = true -> RegExp.headIs solid (rev v) = true ->
  JS.trim v = v.
Proof.
  intros H1 H2. unfold JS.trim, JS.trimEnd.
  rewrite (trimStart_solid v H1), (trimStart_solid _ H2).
  apply rev_involutive.
Qed.

Lemma special_solid (c : ascii) : special c = true -> solid c = true.
Proof.
  intros H. apply LiteralFacts.special_cases in H. cbn in H.
  repeat (destruct H as [<-|H]; [reflexivity|]). destruct H.
Qed.

Lemma escapeRegex_app (u v : jsstring) :
  escaped (u ++ v) = escaped u ++ escaped v.
Proof. apply flat_map_app. Qed.

Lemma escapeRegex_edges (v : jsstring) :
  RegExp.headIs solid v = true -> RegExp.headIs solid (rev v) = true ->
  RegExp.headIs solid (escaped v) = true
  /\ RegExp.headIs solid (rev (escaped v)) = true.
Proof.
  intros H1 H2. split.
  - destruct v as [|c v]; [discriminate|].
    rewrite LiteralFacts.escapeRegex_cons.
    destruct (special c); [reflexivity|exact H1].
  - destruct v as [|c v] using rev_ind; [discriminate|].
    rewrite escapeRegex_app, rev_app_distr.
    rewrite rev_app_distr in H2. cbn in H2. cbn [escaped flat_map].
    rewrite app_nil_r. destruct (special c); exact H2.
Qed.

End TrimFacts.

Module EscapeFacts.

Import RegExp.
Import Spec.
Import RegExpFacts.

Lemma specialCharacters_program :
  program search.specialCharacters = Seq (CharSet false specialItems) Empty
  /\ flags search.specialCharacters = flags_g.
Proof. split; reflexivity. Qed.

Lemma setOk_special (c : ascii) :
  setOk flags_g false specialItems c = special c.
Proof.
  destruct c as [[] [] [] [] [] [] [] []]; reflexivity.
Qed.

(** The matcher of the class at one position. *)
Lemma m_class (x : mstate) :
  m flags_g (Seq (CharSet false specialItems) Empty) x
  = match rest x with
    | c :: r =>
        if special c
        then [{| prev := c :: prev x; rest := r; caps := caps x |}]
        else []
    | [] => []
    end.
Proof.
  cbn [m]. unfold step. destruct (rest x) as [|c r]; [reflexivity|].
  change (xorb false (setMatch flags_g specialItems c))
    with (setOk flags_g false specialItems c).
  rewrite setOk_special. now destruct (special c).
Qed.

Lemma scan_class (t : list ascii) :
  forall before,
    scan flags_g (Seq (CharSet false specialItems) Empty) before t
    = match t with
      | [] => None
      | c :: t' =>
          if special c
          then Some {| index := length before; text := [c]; groups := [] |}
          else scan flags_g (Seq (CharSet false specialItems) Empty)
                 (c :: before) t'
      end.
Proof.
  destruct t as [|c t']; intros before.
  - cbn [scan]. now rewrite m_class.
  - cbn [scan]. rewrite m_class. cbn [rest prev caps].
    destruct (special c); [|reflexivity].
    unfold consumed. cbn [rest length].
    replace (S (length t') - length t') with 1 by lia. reflexivity.
Qed.

(** Moving the start of the splice over a character no match covers. *)
Lemma splice_later (s : jsstring) (fn : jsstring -> jsstring)
    (l : list MatchResult) (n : nat) (c : ascii) :
  skipn n s = c :: skipn (S n) s -> placed s (S n) l ->
  splice s l n fn = c :: splice s l (S n) fn.
Proof.
  intros Hc Hp. destruct l as [|mr l]; [exact Hc|].
  inversion Hp as [|? ? ? a b Hs Hi Hle Hrest]; subst.
  cbn [splice].
  assert (Hlen : index mr <= length s).
  { apply (f_equal (@length _)) in Hs.
    rewrite length_skipn, !length_app in Hs. lia. }
  rewrite Nat.min_l by exact Hlen.
  assert (E1 : (n <=? index mr) = true) by (apply Nat.leb_le; lia).
  assert (E2 : (S n <=? index mr) = true) by (apply Nat.leb_le; lia).
  rewrite E1, E2. unfold JS.substring. rewrite Hc.
  replace (index mr - n) with (S (index mr - S n)) by lia. reflexivity.
Qed.

(** Replacing every special character of [t], the text after [pre]. *)
Lemma replace_from (fn : jsstring -> jsstring) (t : jsstring) :
  forall (pre : jsstring) (fuel : nat) (r : RegExp.t),
    flags r = flags_g ->
    program r = Seq (CharSet false specialItems) Empty ->
    lastIndex r = length pre -> length t < fuel ->
    splice (pre ++ t) (fst (matchAll fuel r (pre ++ t))) (length pre) fn
    = flat_map (fun c => if special c then fn [c] else [c]) t.
Proof.
  induction t as [|c t IH]; intros pre fuel r Hf Hp Hl Hfuel;
    (destruct fuel as [|fuel]; [cbn in Hfuel; lia|]);
    cbn [matchAll]; unfold exec; rewrite Hf, Hp, Hl;
    cbn [global flags_g].
  - rewrite app_nil_r, Nat.ltb_irrefl, firstn_all, skipn_all.
    rewrite scan_class. cbn. now rewrite skipn_all.
  - assert (Hlt : (length (pre ++ c :: t) <? length pre) = false).
    { apply Nat.ltb_ge. rewrite length_app. lia. }
    rewrite Hlt, firstn_app, firstn_all, Nat.sub_diag, app_nil_r.
    rewrite skipn_app, skipn_all, Nat.sub_diag. cbn [firstn skipn app].
    rewrite scan_class.
    assert (Hs : pre ++ c :: t = (pre ++ [c]) ++ t)
      by (now rewrite <- app_assoc).
    assert (Hlen : length (pre ++ [c]) = S (length pre))
      by (rewrite length_app; cbn; lia).
    destruct (special c) eqn:E.
    + cbn [isNil text index length].
      set (r1 := setLastIndex r (length (rev pre) + 1)).
      specialize (IH (pre ++ [c]) fuel r1 Hf Hp).
      rewrite <- Hs in IH.
      destruct (matchAll fuel r1 (pre ++ c :: t)) as [l r2].
      cbn [fst] in *. cbn [splice index text length].
      rewrite length_rev.
      rewrite Nat.min_l by (rewrite length_app; lia).
      rewrite Nat.leb_refl. unfold JS.substring at 1.
      rewrite Nat.sub_diag. cbn [firstn app].
      rewrite Hlen in IH. replace (length pre + 1) with (S (length pre)) by lia.
      rewrite IH; [cbn [flat_map]; now rewrite E
                  |unfold r1; cbn; rewrite length_rev; lia
                  |cbn in Hfuel; lia].
    + set (r1 := setLastIndex r (S (length pre))).
      assert (Hexec : exec r1 (pre ++ c :: t)
                      = match scan flags_g
                                (Seq (CharSet false specialItems) Empty)
                                (c :: rev pre) t with
                        | Some mr =>
                            (Some mr,
                             setLastIndex r (index mr + length (text mr)))
                        | None => (None, setLastIndex r 0)
                        end).
      { unfold exec, r1. cbn [flags program lastIndex setLastIndex].
        rewrite Hf, Hp. cbn [global flags_g].
        assert (Hlt' : (length (pre ++ c :: t) <? S (length pre)) = false).
        { apply Nat.ltb_ge. rewrite length_app. cbn. lia. }
        rewrite Hlt', Hs, <- Hlen, firstn_app, firstn_all, Nat.sub_diag.
        rewrite skipn_app, skipn_all, Nat.sub_diag. cbn [firstn skipn app].
        rewrite app_nil_r, rev_app_distr. cbn [rev app].
        now destruct (scan _ _ _ _). }
      pose proof (IH (pre ++ [c]) (S fuel) r1 Hf Hp) as IH'.
      rewrite <- Hs, Hlen in IH'.
      pose proof (HighlightFacts.matchAll_placed (pre ++ c :: t) (S fuel) r1)
        as Hplaced.
      cbn [matchAll] in IH', Hplaced. rewrite Hexec in IH', Hplaced.
      assert (Hc : skipn (length pre) (pre ++ c :: t)
                   = c :: skipn (S (length pre)) (pre ++ c :: t)).
      { assert (H1 : skipn (length pre) (pre ++ c :: t) = c :: t)
          by (rewrite skipn_app, skipn_all, Nat.sub_diag; reflexivity).
        assert (H2 : skipn (S (length pre)) (pre ++ c :: t) = t)
          by (rewrite Hs, <- Hlen, skipn_app, skipn_all, Nat.sub_diag;
              reflexivity).
        now rewrite H1, H2. }
      destruct (scan _ _ (c :: rev pre) t) as [mr|].
      * set (r2 := if isNil (text mr)
                   then setLastIndex
                          (setLastIndex r (index mr + length (text mr)))
                          (S (lastIndex
                                (setLastIndex r
                                   (index mr + length (text mr)))))
                   else setLastIndex r (index mr + length (text mr))) in *.
        destruct (matchAll fuel r2 (pre ++ c :: t)) as [l r3].
        cbn [fst] in *.
        rewrite (splice_later _ fn _ _ c Hc);
          [|apply Hplaced; unfold r1; cbn; now rewrite Hf].
        rewrite IH'; [cbn [flat_map]; now rewrite E|reflexivity
                     |cbn in Hfuel; lia].
      * cbn [fst] in *.
        rewrite (splice_later _ fn _ _ c Hc);
          [|apply Hplaced; unfold r1; cbn; now rewrite Hf].
        rewrite IH'; [cbn [flat_map]; now rewrite E|reflexivity
                     |cbn in Hfuel; lia].
Qed.

(** [escapeRegex] puts a backslash before each special character. *)
Lemma escapeRegex_escaped (s : jsstring) :
  search.escapeRegex s = escaped s.
Proof.
  unfold search.escapeRegex, replace, results.
  destruct specialCharacters_program as [Hp Hf]. rewrite Hf.
  cbn [global flags_g].
  pose proof (replace_from (fun match_ => "\"%char :: match_) s []
                (length s + 2) (setLastIndex search.specialCharacters 0)
                Hf Hp eq_refl ltac:(lia)) as H.
  cbn [app length] in H.
  destruct (matchAll _ _ s) as [l r]. cbn [fst] in *. exact H.
Qed.

End EscapeFacts.

(** X17: [createLiteralSearch] returns no matcher and no error for an
    empty or white-space-only text.  For any other text, if the probe
    took at most 100 ms, it returns a matcher and no error, whatever
    special characters the text holds, and [matchesSearch] finds with
    that matcher exactly the records whose searchable text holds the
    trimmed text, up to the case of the letters when the search ignores
    case. *)
Theorem createLiteralSearch_finds (s : jsstring) (caseInsensitive : bool)
    (startTime endTime : JS.number) :
  (validators.blank s = true ->
   search.createLiteralSearch s caseInsensitive startTime endTime
   = {| search.regex := None; search.error := None |})
  /\ (validators.blank s = false ->
      JS.gt (JS.sub endTime startTime) (JS.ofZ 100) = false ->
      exists r,
        search.createLiteralSearch s caseInsensitive startTime endTime
        = {| search.regex := Some r; search.error := None |}
        /\ forall t,
             fst (search.matchesSearch t (Some r)) = true <->
             Spec.occursIn caseInsensitive (JS.trim s)
               (search.searchableText t)).
Proof.
  unfold search.createLiteralSearch. split; [now intros ->|].
  intros Hb Hfast. rewrite Hb. cbv zeta.
  set (flags := if caseInsensitive then RegExp.flags_gi else RegExp.flags_g).
  set (u := JS.trim s).
  assert (Hu : u <> []) by (now apply blank_false_trim).
  destruct (trim_edges s) as [H|[H1 H2]]; [contradiction|]. fold u in H1, H2.
  rewrite EscapeFacts.escapeRegex_escaped.
  destruct (escapeRegex_edges u H1 H2) as [E1 E2].
  pose proof (trim_solid _ E1 E2) as Htrim.
  assert (Hnb : validators.blank (Spec.escaped u) = false).
  { unfold validators.blank. rewrite Htrim.
    destruct (Spec.escaped u); [discriminate|reflexivity]. }
  unfold search.compileRegex. rewrite Hnb, Htrim. unfold RegExp.create.
  rewrite LiteralFacts.parse_escaped.
  set (r0 := {| RegExp.source := Spec.escaped u; RegExp.flags := flags;
                RegExp.program := Spec.literalNode u;
                RegExp.lastIndex := 0 |}).
  pose proof (test_keeps r0 search.testString) as Hsame.
  destruct (RegExp.test r0 search.testString) as [found r]. cbn [snd] in Hsame.
  rewrite Hfast. exists r. split; [reflexivity|]. intros t.
  destruct (matchesSearch_keeps t r) as (r1 & -> & _). cbn [fst].
  rewrite <- (test_reset r0 r _ Hsame).
  assert (Hg : RegExp.global (RegExp.flags r0) = true)
    by (unfold r0, flags; now destruct caseInsensitive).
  rewrite (LiteralFacts.test_from_start r0 _ Hg).
  assert (Hi : RegExp.ignoreCase (RegExp.flags r0) = caseInsensitive)
    by (unfold r0, flags; now destruct caseInsensitive).
  unfold Spec.occursIn. split.
  - intros (a & b & y & Ht & Hy). apply LiteralFacts.m_literal in Hy
      as (w & Hw & _ & Hs). cbn in Hw. rewrite Hi in Hs.
    exists a, w, (RegExp.rest y). split; [now rewrite Ht, Hw|exact Hs].
  - intros (pre & w & post & Ht & Hs).
    exists pre, (w ++ post),
      (Spec.advance w {| RegExp.prev := rev pre; RegExp.rest := w ++ post;
                         RegExp.caps := [] |} post).
    split; [exact Ht|]. apply LiteralFacts.m_literal. exists w.
    split; [reflexivity|split; [reflexivity|now rewrite Hi]].
Qed.

Lemma createLiteralSearch_finds_witness :
  exists r,
    search.regex
      (search.createLiteralSearch " C++ (2nd ed.) " true (JS.ofZ 0) (JS.ofZ 2))
    = Some r
    /\ fst (search.matchesSearch
              {| id := "txn_1"; description := "Book: c++ (2nd ed.)";
                 amount := JS.ofZ 30; category := "Books";
                 date := "2025-09-15"; createdAt := []; updatedAt := [] |}
              (Some r)) = true.
Proof.
  destruct (createLiteralSearch_finds " C++ (2nd ed.) " true
              (JS.ofZ 0) (JS.ofZ 2)) as [_ H].
  destruct (H eq_refl eq_refl) as (r & -> & Hr). exists r.
  split; [reflexivity|]. apply Hr.
  exists ("Book: " : jsstring), ("c++ (2nd ed.)" : jsstring),
    (" Books 30 2025-09-15" : jsstring).
  split; [reflexivity|]. vm_compute. repeat constructor.
Defined.

(** ** The answers of the validators *)

Section Answers.

Import Spec.

Ltac answer :=
  repeat match goal with
         | |- context [if ?b then _ else _] => destruct b
         | |- context [match ?o with Some _ => _ | None => _ end] =>
             destruct o
         end;
  solve [now left | right; eexists; reflexivity].

Lemma validateDescription_plain (v : jsstring) :
  plain (validators.validateDescription v).
Proof. unfold plain, validators.validateDescription. answer. Qed.

Lemma validateAmount_plain (v : jsstring) :
  plain (validators.validateAmount v).
Proof. unfold plain, validators.validateAmount. cbv zeta. answer. Qed.

Lemma validateDate_plain (cy : Z) (v : jsstring) :
  plain (validators.validateDate cy v).
Proof. unfold plain, validators.validateDate. cbv zeta. answer. Qed.

Lemma validateCategory_plain (v : jsstring) :
  plain (validators.validateCategory v).
Proof. unfold plain, validators.validateCategory. cbv zeta. answer. Qed.

Lemma fieldError_entry (field : jsstring) (r : validators.Result) :
  plain r -> validators.fieldError field r = entry field r.
Proof. intros [->|[msg ->]]; reflexivity. Qed.

End Answers.


(** ** Descriptions *)

Module DescriptionFacts.

Import RegExp.
Import Spec.
Import RegExpFacts.

(** A text that is its own trimmed form and not blank. *)
Lemma trimmed_edges (v : jsstring) :
  validators.blank v = false /\ JS.eqb v (JS.trim v) = true <->
  headIs solid v = true /\ headIs solid (rev v) = true.
Proof.
  split.
  - intros [Hb He]. apply eqb_eq in He.
    destruct (trim_edges v) as [H|H].
    + apply blank_false_trim in Hb. contradiction.
    + now rewrite <- He in H.
  - intros [H1 H2]. pose proof (trim_solid v H1 H2) as Ht.
    unfold validators.blank. rewrite Ht, eqb_refl.
    destruct v; [discriminate|now split].
Qed.

(** What a matcher without the flag [g] finds. *)
Lemma test_anywhere (r : RegExp.t) (t : jsstring) :
  global (flags r) = false ->
  (fst (test r t) = true <->
   exists a b y,
     t = a ++ b
     /\ In y (m (flags r) (program r)
                {| prev := rev a; rest := b; caps := [] |})).
Proof.
  intros Hg. unfold test, exec. rewrite Hg.
  destruct (scan (flags r) (program r) [] t) as [mr|] eqn:E; cbn [fst].
  - split; [intros _|reflexivity].
    apply LiteralFacts.scan_inv in E as (a & b & y & -> & Hy).
    exists a, b, y. split; [reflexivity|]. now rewrite app_nil_r in Hy.
  - split; [discriminate|]. intros (a & b & y & -> & Hy).
    exfalso. apply (scan_found (flags r) (program r) a [] b y); [|exact E].
    now rewrite app_nil_r.
Qed.

Lemma setOk_spaces c : setOk noFlags false [CEsc Space false] c = JS.isSpace c.
Proof. unfold setOk; simpl. now destruct (JS.isSpace c). Qed.

Lemma setOk_solid c : setOk noFlags false [CEsc Space true] c = solid c.
Proof. unfold setOk, solid; simpl. now destruct (JS.isSpace c). Qed.

Lemma doubleSpace_iff (s : jsstring) :
  doubleSpace s = true <->
  exists a x y b, s = a ++ x :: y :: b
                  /\ JS.isSpace x = true /\ JS.isSpace y = true.
Proof.
  induction s as [|c s IH]; cbn [doubleSpace].
  - split; [discriminate|]. intros (a & x & y & b & H & _).
    now destruct a.
  - rewrite orb_true_iff, IH, andb_true_iff. split.
    + intros [[Hc Hh]|(a & x & y & b & -> & Hx & Hy)].
      * destruct s as [|d s']; [discriminate|].
        exists [], c, d, s'. now repeat split.
      * exists (c :: a), x, y, b. now repeat split.
    + intros (a & x & y & b & H & Hx & Hy). destruct a as [|a0 a].
      * injection H as -> ->. left. now split.
      * injection H as -> ->. right. exists a, x, y, b. now repeat split.
Qed.

(** The pattern of the consecutive spaces finds two white-space
    characters in a row, and nothing else. *)
Lemma test_consecutiveSpaces (s : jsstring) :
  fst (test validators.consecutiveSpaces s) = doubleSpace s.
Proof.
  apply eq_true_iff_eq.
  rewrite (test_anywhere validators.consecutiveSpaces s eq_refl).
  change (program validators.consecutiveSpaces) with spacesBody.
  change (flags validators.consecutiveSpaces) with noFlags.
  rewrite doubleSpace_iff. unfold spacesBody, spaceSet. split.
  - intros (a & b & y & -> & Hy).
    apply m_seq in Hy as (z & Hz & Hy). apply m_empty in Hy. subst y.
    apply m_repeat_set in Hz; [|apply within_none].
    destruct Hz as (w & Hw & _ & Hok & Hlen & _). cbn in Hw.
    rewrite (forallb_ext_eq _ _ w setOk_spaces) in Hok.
    destruct w as [|x [|y' w]]; try (cbn in Hlen; lia).
    cbn in Hok. apply andb_true_iff in Hok as [Hx Hok].
    apply andb_true_iff in Hok as [Hy' _].
    exists a, x, y', (w ++ rest z). rewrite Hw. now repeat split.
  - intros (a & x & y & b & -> & Hx & Hy).
    set (x0 := {| prev := rev a; rest := x :: y :: b; caps := [] |}).
    exists a, (x :: y :: b), (advance [x; y] x0 b). split; [reflexivity|].
    apply m_seq. exists (advance [x; y] x0 b). split; [|now apply m_empty].
    apply m_repeat_set; [apply within_none|].
    exists [x; y]. split; [reflexivity|]. split; [reflexivity|].
    split; [cbn [forallb]; now rewrite !setOk_spaces, Hx, Hy|].
    split; [cbn; lia|apply within_none].
Qed.

Lemma m_repeat_dot f lo hi greedy x y :
  within hi lo ->
  (In y (m f (Repeat lo hi greedy Dot) x) <->
   run (fun c => negb (JS.isLineTerminator c)) lo hi x y).
Proof.
  intros Hlh.
  change (m f (Repeat lo hi greedy Dot) x)
    with (repeatM (fun z => step z (fun c => negb (JS.isLineTerminator c))) []
            (S (lo + length (rest x))) lo hi greedy x).
  split.
  - now apply repeat_class_sound.
  - intros (w & Hx & -> & Hw & Hlo & Hhi).
    apply repeat_class_complete; auto.
Qed.

Lemma solid_no_break (c : ascii) :
  solid c = true -> negb (JS.isLineTerminator c) = true.
Proof.
  intros H.
  assert (Hall : forallb (fun a => implb (solid a)
                                     (negb (JS.isLineTerminator a)))
                   allChars = true) by (vm_compute; reflexivity).
  pose proof (allChars_all _ Hall c) as Hc. cbv beta in Hc.
  now rewrite H in Hc.
Qed.

Lemma description_sound (s : jsstring) (y : mstate) :
  In y (m noFlags descriptionBody (start s)) ->
  headIs solid s = true /\ headIs solid (rev s) = true
  /\ noLineBreak s = true.
Proof.
  unfold descriptionBody, solidSet. intros H.
  apply m_seq in H as (z1 & H1 & H).
  apply m_set in H1 as (c & r & Hs & Hc & ->). rewrite setOk_solid in Hc.
  apply m_seq in H as (z2 & H2 & H).
  apply m_seq in H as (z3 & H3 & H).
  apply m_eol in H3 as [Hend ->]; [|reflexivity].
  cbn in Hs. subst s.
  apply m_optional in H2 as [->|(_ & H2 & _)].
  - cbn in Hend. subst r. cbn. unfold noLineBreak. cbn.
    now rewrite Hc, (solid_no_break c Hc).
  - cbn [groupsOf app] in H2. rewrite clearCaps_nil in H2.
    change (m noFlags (Group None ?d) ?x) with (m noFlags d x) in H2.
    apply m_seq in H2 as (u & Hu & H2).
    apply m_repeat_dot in Hu as (w & Hw & _ & Hok & _);
      [|apply within_none].
    apply m_seq in H2 as (v & Hv & H2). apply m_empty in H2. subst z2.
    apply m_set in Hv as (l & r' & Hr' & Hl & ->). rewrite setOk_solid in Hl.
    cbn in Hw, Hend. subst r'. rewrite Hr' in Hw. subst r.
    split; [exact Hc|]. split.
    + cbn [rev]. rewrite rev_app_distr. exact Hl.
    + unfold noLineBreak. cbn [forallb].
      rewrite (solid_no_break c Hc), forallb_app, Hok. cbn.
      now rewrite (solid_no_break l Hl).
Qed.

Lemma description_complete (s : jsstring) :
  headIs solid s = true -> headIs solid (rev s) = true ->
  noLineBreak s = true ->
  exists y, In y (m noFlags descriptionBody (start s)).
Proof.
  intros H1 H2 H3. destruct s as [|c r]; [discriminate|]. cbn in H1.
  set (z1 := {| prev := [c]; rest := r; caps := [] |}).
  assert (Hz1 : In z1 (m noFlags solidSet (start (c :: r)))).
  { apply m_set. exists c, r. rewrite setOk_solid. now repeat split. }
  assert (Hopt : exists z2,
            In z2 (m noFlags
                     (Repeat 0 (Some 1) true
                        (Group None
                           (Seq (Repeat 0 None true Dot)
                              (Seq solidSet Empty)))) z1)
            /\ rest z2 = []).
  { destruct r as [|l w] using rev_ind.
    - exists z1. split; [apply m_optional; now left|reflexivity].
    - clear IHw. cbn [rev] in H2. rewrite rev_app_distr in H2. cbn in H2.
      unfold noLineBreak in H3. cbn [forallb] in H3.
      apply andb_true_iff in H3 as [_ H3]. rewrite forallb_app in H3.
      apply andb_true_iff in H3 as [Hw _].
      set (u := advance w z1 [l]).
      set (v := {| prev := l :: prev u; rest := []; caps := caps u |}).
      exists v. split; [|reflexivity]. apply m_optional. right.
      split; [cbn; now destruct w|]. split.
      + cbn [groupsOf app]. rewrite clearCaps_nil.
        change (m noFlags (Group None ?d) ?x) with (m noFlags d x).
        apply m_seq. exists u. split.
        * apply m_repeat_dot; [apply within_none|]. exists w.
          split; [reflexivity|]. split; [reflexivity|].
          split; [exact Hw|]. split; [lia|apply within_none].
        * apply m_seq. exists v. split; [|now apply m_empty].
          apply m_set. exists l, []. rewrite setOk_solid. now repeat split.
      + cbn. rewrite length_app. cbn. lia. }
  destruct Hopt as (z2 & Hz2 & Hend). exists z2.
  unfold descriptionBody. apply m_seq. exists z1. split; [exact Hz1|].
  apply m_seq. exists z2. split; [exact Hz2|].
  apply m_seq. exists z2. split; [|now apply m_empty].
  apply m_eol; [reflexivity|]. now split.
Qed.

(** The description pattern accepts the texts without a line break that
    start and end with a character that is no white space. *)
Lemma test_description (s : jsstring) :
  fst (test validators.PATTERNS.description s)
  = headIs solid s && headIs solid (rev s) && noLineBreak s.
Proof.
  rewrite (test_anchored _ descriptionBody s); try reflexivity.
  change (flags validators.PATTERNS.description) with noFlags.
  destruct (headIs solid s && headIs solid (rev s) && noLineBreak s) eqn:E.
  - apply andb_true_iff in E as [E H3]. apply andb_true_iff in E as [H1 H2].
    apply nonempty_in. now apply description_complete.
  - destruct (m noFlags descriptionBody (start s)) as [|y l] eqn:Em;
      [reflexivity|].
    destruct (description_sound s y) as (H1 & H2 & H3);
      [rewrite Em; now left|].
    now rewrite H1, H2, H3 in E.
Qed.

(** *** The duplicate-word pattern, read backwards *)

Lemma setOk_word_iff c :
  setOk flags_gi false [CEsc Word false] c = JS.isWord c.
Proof.
  assert (Hall : forallb (fun a =>
                    Bool.eqb (setOk flags_gi false [CEsc Word false] a)
                      (JS.isWord a)) allChars = true)
    by (vm_compute; reflexivity).
  apply Bool.eqb_prop. exact (allChars_all _ Hall c).
Qed.

Lemma setOk_space_iff c :
  setOk flags_gi false [CEsc Space false] c = JS.isSpace c.
Proof.
  assert (Hall : forallb (fun a =>
                    Bool.eqb (setOk flags_gi false [CEsc Space false] a)
                      (JS.isSpace a)) allChars = true)
    by (vm_compute; reflexivity).
  apply Bool.eqb_prop. exact (allChars_all _ Hall c).
Qed.

(** Two characters with one upper case have one lower case, and are
    word characters together. *)
Lemma same_upper (a b : ascii) :
  JS.toUpperChar a = JS.toUpperChar b ->
  JS.toLowerChar a = JS.toLowerChar b /\ JS.isWord a = JS.isWord b.
Proof.
  intros H.
  assert (Hall : forallb (fun x => forallb (fun y =>
            implb (Ascii.eqb (JS.toUpperChar x) (JS.toUpperChar y))
                  (Ascii.eqb (JS.toLowerChar x) (JS.toLowerChar y)
                   && Bool.eqb (JS.isWord x) (JS.isWord y)))
            allChars) allChars = true) by (vm_compute; reflexivity).
  pose proof (allChars_all _ (allChars_all _ Hall a) b) as Hab.
  cbv beta in Hab. rewrite H, Ascii.eqb_refl in Hab. cbn [implb] in Hab.
  apply andb_true_iff in Hab as [H1 H2].
  split; [now apply Ascii.eqb_eq|now apply Bool.eqb_prop].
Qed.

Lemma passText_sound f (w1 : jsstring) :
  forall x y,
    In y (passText f w1 x) ->
    exists w2, rest x = w2 ++ rest y /\ prev y = rev w2 ++ prev x
               /\ Forall2 (fun a c => canon f c = canon f a) w1 w2.
Proof.
  induction w1 as [|a w1 IH]; intros x y; cbn [passText].
  - intros [<-|[]]. exists []. repeat split. constructor.
  - intros H. apply in_flat_map in H as (z & Hz & Hy).
    apply step_in in Hz as (c & r & Hr & Hc & ->).
    apply IH in Hy as (w2 & Hw & Hp & Hs). cbn in Hw, Hp.
    exists (c :: w2). split; [now rewrite Hr, Hw|]. split.
    + rewrite Hp. cbn. now rewrite <- app_assoc.
    + constructor; [now apply Ascii.eqb_eq|exact Hs].
Qed.

Lemma canon_same (w1 w2 : jsstring) :
  Forall2 (fun a c => canon flags_gi c = canon flags_gi a) w1 w2 ->
  storage.sameIgnoringCase w1 w2 = true
  /\ forallb JS.isWord w2 = forallb JS.isWord w1.
Proof.
  unfold storage.sameIgnoringCase, JS.toLowerCase.
  induction 1 as [|a c w1 w2 Hc Hw [IH1 IH2]]; [now split|].
  unfold canon in Hc. cbn in Hc. apply same_upper in Hc as [Hl Hword].
  apply eqb_eq in IH1. split.
  - apply eqb_eq. cbn [map]. now rewrite Hl, IH1.
  - cbn [forallb]. now rewrite Hword, IH2.
Qed.

(** Where the pattern finds a match, the text reads one word twice. *)
Lemma duplicate_sound (a b : jsstring) (y : mstate) :
  In y (m flags_gi duplicateBody {| prev := rev a; rest := b; caps := [] |}) ->
  hasDuplicateWords (a ++ b).
Proof.
  unfold duplicateBody, wordSet, spaceSet. intros H.
  set (x := {| prev := rev a; rest := b; caps := [] |}) in *.
  apply m_seq in H as (z0 & H0 & H).
  apply m_wordb in H0 as [Hstart ->].
  apply m_seq in H as (z1 & H1 & H).
  apply m_group in H1 as (z1' & H1 & ->).
  apply m_seq in H1 as (u & Hu & H1). apply m_empty in H1. subst z1'.
  apply m_repeat_set in Hu; [|apply within_none].
  destruct Hu as (w1 & Hw1 & Hu & Hok1 & Hlen1 & _).
  rewrite (forallb_ext_eq _ _ w1 setOk_word_iff) in Hok1.
  apply m_seq in H as (z2 & H2 & H).
  apply m_repeat_set in H2; [|apply within_none].
  destruct H2 as (ws & Hws & Hz2 & Hok2 & Hlen2 & _).
  rewrite (forallb_ext_eq _ _ ws setOk_space_iff) in Hok2.
  apply m_seq in H as (z3 & H3 & H).
  apply m_seq in H as (z4 & H4 & H). apply m_empty in H. subst y.
  apply m_wordb in H4 as [Hend ->].
  assert (Hcap : lookupCap 1 (caps z2) = Some w1).
  { rewrite Hz2. unfold advance, setCap. cbn [caps lookupCap Nat.eqb].
    f_equal. now apply consumed_prefix. }
  cbn [m] in H3. rewrite Hcap in H3.
  apply passText_sound in H3 as (w2 & Hw2 & Hp & Hs).
  destruct (canon_same w1 w2 Hs) as [Hsame Hword2].
  assert (Hne1 : w1 <> []) by (intros ->; cbn in Hlen1; lia).
  assert (Hne2 : w2 <> []) by (intros ->; inversion Hs; now subst).
  assert (Hnes : ws <> []) by (intros ->; cbn in Hlen2; lia).
  cbn in Hw1, Hws. rewrite Hw2 in Hws. rewrite Hws in Hw1.
  exists a, w1, ws, w2, (rest z3). rewrite Hw1.
  repeat split; auto.
  - now rewrite Hword2.
  - unfold atBoundary in Hstart. cbn in Hstart. rewrite Hw1 in Hstart.
    rewrite (headIs_app _ _ _ Hne1) in Hstart.
    destruct w1 as [|c w1]; [congruence|]. cbn in Hok1, Hstart.
    apply andb_true_iff in Hok1 as [Hc _]. rewrite Hc in Hstart.
    now destruct (headIs JS.isWord (rev a)).
  - unfold atBoundary in Hend. rewrite Hp in Hend.
    rewrite headIs_app in Hend
      by (intros E; apply Hne2; apply (f_equal (@rev ascii)) in E;
          now rewrite rev_involutive in E).
    rewrite (headIs_rev _ _ Hne2) in Hend by (now rewrite Hword2).
    now destruct (headIs JS.isWord (rest z3)).
Qed.

Lemma match_none (r : RegExp.t) (s : jsstring) :
  global (flags r) = true ->
  (fst (match_ s r) = None <-> scan (flags r) (program r) [] s = None).
Proof.
  intros Hg. unfold match_, results. rewrite Hg.
  rewrite Nat.add_succ_r. cbn [matchAll]. unfold exec.
  cbn [flags program lastIndex setLastIndex]. rewrite Hg.
  cbn [Nat.ltb Nat.leb firstn skipn rev].
  destruct (scan (flags r) (program r) [] s) as [mr|].
  - destruct (matchAll _ _ _) as [l r3]. cbn. split; discriminate.
  - cbn. now split.
Qed.

(** The duplicate-word pattern finds a match exactly in the texts that
    read one word twice. *)
Lemma match_duplicateWord (s : jsstring) :
  fst (match_ s validators.PATTERNS.duplicateWord) <> None <->
  hasDuplicateWords s.
Proof.
  rewrite (match_none validators.PATTERNS.duplicateWord s eq_refl).
  change (program validators.PATTERNS.duplicateWord) with duplicateBody.
  change (flags validators.PATTERNS.duplicateWord) with flags_gi.
  split.
  - intros H.
    destruct (scan flags_gi duplicateBody [] s) as [mr|] eqn:E;
      [|congruence].
    apply LiteralFacts.scan_inv in E as (a & b & y & -> & Hy).
    rewrite app_nil_r in Hy. now apply (duplicate_sound a b y).
  - intros (pre & w1 & ws & w2 & post & -> & H1 & H2 & H3 & H4 & H5 & H6
            & H7 & H8).
    destruct (duplicate_matches pre w1 ws w2 post) as [y Hy]; auto.
    apply (scan_found flags_gi duplicateBody pre [] _ y).
    now rewrite app_nil_r.
Qed.

End DescriptionFacts.

(** The answer of [validateDescription], by the shape of the text. *)
Lemma description_rules (v : jsstring) :
  validators.valid (validators.validateDescription v) = true <->
  Spec.descriptionShape v = true /\ ~ Spec.hasDuplicateWords v.
Proof.
  unfold validators.validateDescription, Spec.descriptionShape.
  pose proof (DescriptionFacts.trimmed_edges v) as Hedges.
  destruct (validators.blank v) eqn:Eb.
  { split; [discriminate|]. intros [H _].
    repeat (apply andb_true_iff in H as [H ?]).
    assert (He : RegExp.headIs Spec.solid v = true
                 /\ RegExp.headIs Spec.solid (rev v) = true) by now split.
    apply Hedges in He. destruct He as [He _]. discriminate. }
  destruct (JS.eqb v (JS.trim v)) eqn:Ee; cbn [negb].
  2:{ split; [discriminate|]. intros [H _].
      repeat (apply andb_true_iff in H as [H ?]).
      assert (He : RegExp.headIs Spec.solid v = true
                   /\ RegExp.headIs Spec.solid (rev v) = true) by now split.
      apply Hedges in He. destruct He as [_ He]. discriminate. }
  destruct Hedges as [Hedges _].
  destruct (Hedges (conj eq_refl eq_refl)) as [H1 H2]. rewrite H1, H2.
  cbn [andb].
  rewrite DescriptionFacts.test_consecutiveSpaces.
  destruct (Spec.doubleSpace v); cbn [negb andb];
    [split; [discriminate|now intros [H _]]|].
  rewrite (Nat.ltb_antisym 2 (length v)), (Nat.ltb_antisym (length v) 200).
  replace (length v <? 2) with (negb (2 <=? length v))
    by (now rewrite Nat.leb_antisym, negb_involutive).
  replace (200 <? length v) with (negb (length v <=? 200))
    by (now rewrite Nat.leb_antisym, negb_involutive).
  destruct (2 <=? length v); cbn [negb andb];
    [|rewrite andb_false_r; split; [discriminate|now intros [H _]]].
  destruct (length v <=? 200); cbn [negb andb];
    [|rewrite andb_false_r; split; [discriminate|now intros [H _]]].
  rewrite !andb_true_r.
  pose proof (DescriptionFacts.match_duplicateWord v) as Hdup.
  destruct (fst (RegExp.match_ v validators.PATTERNS.duplicateWord))
    as [found|].
  - split; [discriminate|]. intros [_ H]. exfalso. apply H, Hdup.
    discriminate.
  - rewrite DescriptionFacts.test_description, H1, H2. cbn [andb].
    destruct (Spec.noLineBreak v); cbn [negb].
    + split; [intros _|reflexivity]. split; [reflexivity|].
      intros H. apply Hdup in H. now apply H.
    + split; [discriminate|now intros [H _]].
Qed.


(** ** Category names *)

Module CategoryFacts.

Import RegExp.
Import Spec.
Import RegExpFacts.

Section Star.

Variable once : mstate -> list mstate.
Variable gs : list nat.

(** The outcomes of an unbounded greedy repeat are the ends of the
    chains of iterations. *)
Lemma repeat_star_sound (fuel : nat) :
  forall x y,
    In y (repeatM once gs fuel 0 None true x) -> chain (fun a => once (clearCaps gs a)) x y.
Proof.
  induction fuel as [|fuel IH]; intros x y; cbn [repeatM]; [intros []|].
  cbn [Nat.eqb negb andb option_map]. rewrite in_app_iff, in_flat_map.
  intros [(z & Hz & Hy)|[<-|[]]]; [|constructor].
  destruct (length (rest z) =? length (rest x)) eqn:E; [destruct Hy|].
  apply Nat.eqb_neq in E. apply chain_step with z; auto.
Qed.

Hypothesis forward :
  forall a b, In b (once (clearCaps gs a)) ->
              length (rest b) <= length (rest a).

Lemma repeat_star_complete (x y : mstate) :
  chain (fun a => once (clearCaps gs a)) x y ->
  forall fuel, length (rest x) < fuel ->
    In y (repeatM once gs fuel 0 None true x).
Proof.
  induction 1 as [x|x z y Hz Hne Hc IH]; intros fuel Hfuel;
    (destruct fuel as [|fuel]; [lia|]); cbn [repeatM];
    cbn [Nat.eqb negb andb option_map]; rewrite in_app_iff.
  - right. now left.
  - left. apply in_flat_map. exists z. split; [exact Hz|].
    apply Nat.eqb_neq in Hne. rewrite Hne. apply IH.
    specialize (forward x z Hz). apply Nat.eqb_neq in Hne. lia.
Qed.

End Star.

(** An unbounded greedy repeat of any atom. *)
Lemma m_star f r x y :
  In y (m f (Repeat 0 None true r) x) <->
  chain (fun a => m f r (clearCaps (groupsOf r) a)) x y.
Proof.
  change (m f (Repeat 0 None true r) x)
    with (repeatM (m f r) (groupsOf r) (S (0 + length (rest x))) 0 None true x).
  split.
  - apply repeat_star_sound.
  - intros H. apply repeat_star_complete; [|exact H|cbn; lia].
    intros a b Hb. apply HighlightFacts.m_ahead in Hb as [w Hw].
    cbn in Hw. rewrite Hw, length_app. lia.
Qed.

Lemma setOk_letter c :
  setOk noFlags false [CRange "A" "Z"; CRange "a" "z"] c = isLetter c.
Proof.
  assert (Hall : forallb (fun a =>
                    Bool.eqb
                      (setOk noFlags false [CRange "A" "Z"; CRange "a" "z"] a)
                      (isLetter a)) allChars = true)
    by (vm_compute; reflexivity).
  apply Bool.eqb_prop. exact (allChars_all _ Hall c).
Qed.

Lemma setOk_join c : setOk noFlags false [CChar " "; CChar "-"] c = isJoin c.
Proof.
  assert (Hall : forallb (fun a =>
                    Bool.eqb (setOk noFlags false [CChar " "; CChar "-"] a)
                      (isJoin a)) allChars = true)
    by (vm_compute; reflexivity).
  apply Bool.eqb_prop. exact (allChars_all _ Hall c).
Qed.

Lemma join_no_letter c : isJoin c = true -> isLetter c = false.
Proof.
  unfold isJoin. intros H. apply orb_true_iff in H as [H|H];
    apply Ascii.eqb_eq in H; now subst.
Qed.

Lemma run_letters lo hi x y :
  run (setOk noFlags false [CRange "A" "Z"; CRange "a" "z"]) lo hi x y <->
  run isLetter lo hi x y.
Proof.
  unfold run. split; intros (w & H1 & H2 & H3 & H4); exists w;
    repeat split; try tauto;
    [rewrite <- (forallb_ext_eq _ _ w setOk_letter)
    |rewrite (forallb_ext_eq _ _ w setOk_letter)]; tauto.
Qed.

(** One iteration of the repeated group: a join and a run of letters. *)
Lemma m_joinedWord x z :
  In z (m noFlags (Group None joinedWord) (clearCaps [] x)) <->
  exists c w, rest x = c :: w ++ rest z /\ z = advance (c :: w) x (rest z)
              /\ isJoin c = true /\ forallb isLetter w = true
              /\ 1 <= length w.
Proof.
  rewrite clearCaps_nil.
  change (m noFlags (Group None joinedWord) x) with (m noFlags joinedWord x).
  unfold joinedWord, joinSet, letterSet. rewrite m_seq. split.
  - intros (u & Hu & Hz). apply m_set in Hu as (c & r & Hr & Hc & ->).
    rewrite setOk_join in Hc.
    apply m_seq in Hz as (v & Hv & Hz). apply m_empty in Hz. subst v.
    apply m_repeat_set in Hv; [|apply within_none].
    apply run_letters in Hv as (w & Hw & Hz & Hok & Hlen & _).
    cbn in Hw. exists c, w. split; [now rewrite Hr, Hw|].
    split; [|now repeat split]. rewrite Hz at 1. unfold advance. cbn.
    now rewrite <- app_assoc.
  - intros (c & w & Hr & Hz & Hc & Hok & Hlen).
    exists {| prev := c :: prev x; rest := w ++ rest z; caps := caps x |}.
    split.
    + apply m_set. exists c, (w ++ rest z). rewrite setOk_join.
      now repeat split.
    + apply m_seq. exists z. split; [|now apply m_empty].
      apply m_repeat_set; [apply within_none|]. apply run_letters.
      exists w. split; [reflexivity|]. split.
      * rewrite Hz at 1. unfold advance. cbn. now rewrite <- app_assoc.
      * repeat split; auto. apply within_none.
Qed.

Lemma letters_run (w t : jsstring) (b : bool) :
  w <> [] -> forallb isLetter w = true ->
  lettersAndJoins b (w ++ t) = lettersAndJoins true t.
Proof.
  intros Hne Hw. revert b. induction w as [|c w IH]; intros b; [congruence|].
  cbn [app lettersAndJoins forallb] in *.
  apply andb_true_iff in Hw as [Hc Hw]. rewrite Hc.
  destruct w as [|d w]; [reflexivity|]. apply IH; [discriminate|exact Hw].
Qed.

(** The longest run of letters at the head of a text. *)
Lemma span_letters (t : jsstring) :
  exists w t', t = w ++ t' /\ forallb isLetter w = true
               /\ headIs isLetter t' = false.
Proof.
  induction t as [|c t (w & t' & -> & Hw & Ht)].
  - now exists [], [].
  - destruct (isLetter c) eqn:E.
    + exists (c :: w), t'. cbn. now rewrite E.
    + exists [], (c :: w ++ t'). now repeat split.
Qed.

Lemma chain_sound (x y : mstate) :
  chain (fun a => m noFlags (Group None joinedWord) (clearCaps [] a)) x y ->
  rest y = [] -> lettersAndJoins true (rest x) = true.
Proof.
  induction 1 as [x|x z y Hz _ _ IH]; intros Hend; [now rewrite Hend|].
  apply m_joinedWord in Hz as (c & w & Hr & _ & Hc & Hok & Hlen).
  rewrite Hr. cbn [lettersAndJoins].
  rewrite (join_no_letter c Hc), Hc. cbn [andb].
  rewrite letters_run; [now apply IH| |exact Hok].
  intros ->. cbn in Hlen. lia.
Qed.

Lemma chain_complete (n : nat) :
  forall (t : jsstring) (x : mstate),
    length t <= n -> rest x = t ->
    lettersAndJoins true t = true -> headIs isLetter t = false ->
    exists y,
      chain (fun a => m noFlags (Group None joinedWord) (clearCaps [] a)) x y
      /\ rest y = [].
Proof.
  induction n as [|n IH]; intros t x Hn Hx Ht Hhead.
  - destruct t; [|cbn in Hn; lia]. exists x. split; [constructor|exact Hx].
  - destruct t as [|c r]; [exists x; split; [constructor|exact Hx]|].
    cbn in Hhead. cbn [lettersAndJoins] in Ht. rewrite Hhead in Ht.
    destruct (isJoin c) eqn:Ec; [|discriminate]. cbn [andb] in Ht.
    destruct (span_letters r) as (w & t' & -> & Hw & Ht').
    assert (Hne : w <> []).
    { intros ->. cbn [app] in Ht. destruct t' as [|d t']; [discriminate|].
      cbn in Ht', Ht. rewrite Ht' in Ht.
      now destruct (isJoin d). }
    rewrite (letters_run w t' false Hne Hw) in Ht.
    set (z := advance (c :: w) x t').
    destruct (IH t' z) as (y & Hy & Hend); auto.
    { cbn in Hn. rewrite length_app in Hn. lia. }
    exists y. split; [|exact Hend]. apply chain_step with z; [| |exact Hy].
    + apply m_joinedWord. exists c, w. repeat split; auto.
      destruct w; [congruence|cbn; lia].
    + cbn. rewrite Hx. cbn. rewrite length_app. lia.
Qed.

Lemma category_sound (s : jsstring) (y : mstate) :
  In y (m noFlags categoryBody (start s)) -> categoryShape s = true.
Proof.
  unfold categoryBody, letterSet. intros H.
  apply m_seq in H as (z1 & H1 & H).
  apply m_repeat_set in H1; [|apply within_none].
  apply run_letters in H1 as (w & Hw & _ & Hok & Hlen & _).
  apply m_seq in H as (z2 & H2 & H).
  apply m_seq in H as (z3 & H3 & H).
  apply m_eol in H3 as [Hend ->]; [|reflexivity].
  apply m_star in H2. cbn [groupsOf app] in H2.
  pose proof (chain_sound z1 z2 H2 Hend) as Hrest.
  cbn in Hw. unfold categoryShape. rewrite Hw.
  rewrite letters_run; [exact Hrest| |exact Hok].
  intros ->. cbn in Hlen. lia.
Qed.

Lemma category_complete (s : jsstring) :
  categoryShape s = true ->
  exists y, In y (m noFlags categoryBody (start s)).
Proof.
  unfold categoryShape. intros H.
  destruct (span_letters s) as (w & t & -> & Hw & Ht).
  assert (Hne : w <> []).
  { intros ->. cbn [app] in H. destruct t as [|d t]; [discriminate|].
    cbn in Ht, H. rewrite Ht in H. now destruct (isJoin d). }
  rewrite (letters_run w t false Hne Hw) in H.
  set (z1 := advance w (start (w ++ t)) t).
  destruct (chain_complete (length t) t z1) as (z2 & Hz2 & Hend); auto.
  exists z2. unfold categoryBody. apply m_seq. exists z1. split.
  - apply m_repeat_set; [apply within_none|]. apply run_letters.
    exists w. repeat split; auto; [|apply within_none].
    destruct w; [congruence|cbn; lia].
  - apply m_seq. exists z2. split; [now apply m_star|].
    apply m_seq. exists z2. split; [|now apply m_empty].
    apply m_eol; [reflexivity|]. now split.
Qed.

(** The category pattern accepts the texts of the category shape, and no
    other. *)
Lemma test_category (s : jsstring) :
  fst (test validators.PATTERNS.category s) = categoryShape s.
Proof.
  rewrite (test_anchored _ categoryBody s); try reflexivity.
  change (flags validators.PATTERNS.category) with noFlags.
  destruct (categoryShape s) eqn:E.
  - apply nonempty_in. now apply category_complete.
  - destruct (m noFlags categoryBody (start s)) as [|y l] eqn:Em;
      [reflexivity|].
    rewrite (category_sound s y) in E; [discriminate|].
    rewrite Em. now left.
Qed.

End CategoryFacts.

(** The answer of [validateCategory], by the shape of the trimmed text. *)
Lemma category_rules (value : jsstring) :
  validators.valid (validators.validateCategory value) = true <->
  Spec.categoryShape (JS.trim value) = true
  /\ 2 <= length (JS.trim value) <= 50.
Proof.
  unfold validators.validateCategory. cbv zeta.
  destruct (validators.blank value) eqn:Eb.
  - rewrite (blank_trim _ Eb). split; [discriminate|]. now intros [H _].
  - rewrite CategoryFacts.test_category.
    destruct (Spec.categoryShape (JS.trim value)); cbn [negb];
      [|split; [discriminate|now intros [H _]]].
    destruct (length (JS.trim value) <? 2) eqn:E2.
    { apply Nat.ltb_lt in E2. split; [discriminate|]. intros [_ H]. lia. }
    apply Nat.ltb_ge in E2.
    destruct (50 <? length (JS.trim value)) eqn:E50.
    { apply Nat.ltb_lt in E50. split; [discriminate|]. intros [_ H]. lia. }
    apply Nat.ltb_ge in E50. split; [intros _|reflexivity]. split; [reflexivity|lia].
Qed.

(** X20: [validateCategory] accepts exactly the texts whose trimmed form
    has the category shape, runs of letters joined by single spaces or
    hyphens, and 2 to 50 characters. *)
Theorem validateCategory_accepts (value : jsstring) :
  validators.valid (validators.validateCategory value) = true <->
  Spec.categoryShape (JS.trim value) = true
  /\ 2 <= length (JS.trim value) <= 50.
Proof. exact (category_rules value). Qed.

(** ** Dates *)

Module DateFacts.

Import Spec.

Open Scope Z_scope.

(** The calendar repeats every 400 years, which are 146097 days. *)
Lemma daysFromCivil_era (y m d k : Z) :
  JS.daysFromCivil (y + 400 * k) m d = JS.daysFromCivil y m d + 146097 * k.
Proof.
  unfold JS.daysFromCivil. cbv zeta.
  set (y1 := if m <=? 2 then y - 1 else y).
  replace (if m <=? 2 then y + 400 * k - 1 else y + 400 * k)
    with (y1 + k * 400) by (unfold y1; destruct (m <=? 2); lia).
  rewrite Z.div_add by lia.
  replace (y1 + k * 400 - (y1 / 400 + k) * 400) with (y1 - y1 / 400 * 400)
    by lia.
  lia.
Qed.

Lemma civilFromDays_era (z k : Z) :
  JS.civilFromDays (z + 146097 * k)
  = let '(y, m, d) := JS.civilFromDays z in (y + 400 * k, m, d).
Proof.
  unfold JS.civilFromDays. cbv zeta.
  replace (z + 146097 * k + 719468) with (z + 719468 + k * 146097) by lia.
  rewrite Z.div_add by lia.
  set (era := (z + 719468) / 146097).
  replace (z + 719468 + k * 146097 - (era + k) * 146097)
    with (z + 719468 - era * 146097) by lia.
  set (doe := z + 719468 - era * 146097).
  set (yoe := (doe - doe / 1460 + doe / 36524 - doe / 146096) / 365).
  set (doy := doe - (365 * yoe + yoe / 4 - yoe / 100)).
  set (mp := (5 * doy + 2) / 153).
  destruct (mp <? 10); [destruct (mp + 3 <=? 2)|destruct (mp - 9 <=? 2)];
    f_equal; f_equal; lia.
Qed.

Lemma staysPut_era (y m d k : Z) :
  staysPut (y + 400 * k) m d = staysPut y m d.
Proof.
  unfold staysPut. rewrite daysFromCivil_era.
  replace (JS.daysFromCivil y m 1 + 146097 * k + d - 1)
    with (JS.daysFromCivil y m 1 + d - 1 + 146097 * k) by lia.
  rewrite civilFromDays_era.
  destruct (JS.civilFromDays (JS.daysFromCivil y m 1 + d - 1)) as [[cy cm] cd].
  f_equal. f_equal. destruct (cy =? y) eqn:E.
  - apply Z.eqb_eq in E. subst. apply Z.eqb_refl.
  - apply Z.eqb_neq in E. apply Z.eqb_neq. lia.
Qed.

Lemma daysInMonth_era (y m k : Z) :
  daysInMonth (y + 400 * k) m = daysInMonth y m.
Proof.
  unfold daysInMonth, leapYear.
  replace (y + 400 * k) with (y + (100 * k) * 4) at 1 by lia.
  replace (y + 400 * k) with (y + (4 * k) * 100) at 1 by lia.
  replace (y + 400 * k) with (y + k * 400) by lia.
  now rewrite !Z_mod_plus_full.
Qed.

(** One era, day by day. *)
Lemma staysPut_table :
  forallb (fun y =>
    forallb (fun m =>
      forallb (fun d => Bool.eqb (staysPut y m d) (d <=? daysInMonth y m))
        (map Z.of_nat (seq 1 31)))
      (map Z.of_nat (seq 1 12)))
    (map Z.of_nat (seq 0 400)) = true.
Proof. vm_compute. reflexivity. Qed.

Lemma in_range (lo len : nat) (z : Z) :
  Z.of_nat lo <= z < Z.of_nat (lo + len) ->
  In z (map Z.of_nat (seq lo len)).
Proof.
  intros H. apply in_map_iff. exists (Z.to_nat z). split; [lia|].
  apply in_seq. lia.
Qed.

(** A day of a month stays put exactly when the month has it. *)
Lemma staysPut_real (y m d : Z) :
  1 <= m <= 12 -> 1 <= d <= 31 ->
  staysPut y m d = (d <=? daysInMonth y m).
Proof.
  intros Hm Hd.
  rewrite (Z.div_mod y 400) by lia.
  replace (400 * (y / 400) + y mod 400) with (y mod 400 + 400 * (y / 400))
    by lia.
  rewrite staysPut_era, daysInMonth_era.
  pose proof (Z.mod_pos_bound y 400 ltac:(lia)) as Hy.
  assert (Ry : In (y mod 400) (map Z.of_nat (seq 0 400))).
  { apply in_range. change (Z.of_nat 0) with 0.
    change (Z.of_nat (0 + 400)) with 400. lia. }
  assert (Rm : In m (map Z.of_nat (seq 1 12))).
  { apply in_range. change (Z.of_nat 1) with 1.
    change (Z.of_nat (1 + 12)) with 13. lia. }
  assert (Rd : In d (map Z.of_nat (seq 1 31))).
  { apply in_range. change (Z.of_nat 1) with 1.
    change (Z.of_nat (1 + 31)) with 32. lia. }
  pose proof staysPut_table as T. rewrite forallb_forall in T.
  specialize (T _ Ry). rewrite forallb_forall in T.
  specialize (T _ Rm). rewrite forallb_forall in T.
  specialize (T _ Rd).
  now apply Bool.eqb_prop.
Qed.

End DateFacts.

Module DatePattern.

Import RegExp.
Import Spec.
Import RegExpFacts.

Lemma date_program :
  program validators.PATTERNS.date = Seq Bol dateBody
  /\ flags validators.PATTERNS.date = noFlags.
Proof. split; reflexivity. Qed.

Lemma single_char (a : ascii) : single (Char a) (fun c => Ascii.eqb c a).
Proof. intros x y. apply m_char. Qed.

Lemma single_set (items : list citem) :
  single (CharSet false items) (setOk noFlags false items).
Proof. intros x y. apply m_set. Qed.

Lemma m_twoOf (A B : node) (okA okB : ascii -> bool) (x y : mstate) :
  single A okA -> single B okB ->
  (In y (m noFlags (twoOf A B) x) <->
   exists a b r, rest x = a :: b :: r /\ okA a = true /\ okB b = true
                 /\ y = {| prev := b :: a :: prev x; rest := r;
                           caps := caps x |}).
Proof.
  intros HA HB. unfold twoOf. rewrite m_seq. split.
  - intros (z & Hz & Hy). apply HA in Hz as (a & r & Hr & Ha & ->).
    apply m_seq in Hy as (u & Hu & Hy). apply m_empty in Hy. subst u.
    apply HB in Hu as (b & r' & Hr' & Hb & ->). cbn in Hr'. subst r.
    exists a, b, r'. now repeat split.
  - intros (a & b & r & Hr & Ha & Hb & ->).
    exists {| prev := a :: prev x; rest := b :: r; caps := caps x |}. split.
    + apply HA. exists a, (b :: r). now repeat split.
    + apply m_seq. eexists. split; [|apply m_empty; reflexivity].
      apply HB. exists b, r. now repeat split.
Qed.

Lemma setOk_upTo2 c :
  setOk noFlags false [CRange "0" "2"] c = JS.between 48 50 c.
Proof.
  unfold setOk; simpl.
  change (JS.between (JS.code "0") (JS.code "2") c) with (JS.between 48 50 c).
  now destruct (JS.between 48 50 c).
Qed.

Lemma setOk_pair (a b c : ascii) :
  setOk noFlags false [CChar a; CChar b] c = Ascii.eqb c a || Ascii.eqb c b.
Proof.
  unfold setOk; simpl. rewrite (Ascii.eqb_sym a c), (Ascii.eqb_sym b c).
  now destruct (Ascii.eqb c a), (Ascii.eqb c b).
Qed.

Lemma m_month (x y : mstate) :
  In y (m noFlags (Group (Some 1) monthNode) x) <->
  exists a b r, rest x = a :: b :: r /\ monthDigits a b = true
    /\ y = setCap 1 x {| prev := b :: a :: prev x; rest := r;
                         caps := caps x |}.
Proof.
  rewrite m_group. unfold monthNode. split.
  - intros (z & Hz & ->). apply m_alt in Hz as [Hz|Hz];
      apply (m_twoOf _ _ _ _ _ _ (single_char _) (single_set _)) in Hz
        as (a & b & r & Hr & Ha & Hb & ->);
      exists a, b, r; (split; [exact Hr|]); (split; [|reflexivity]);
      unfold monthDigits; rewrite Ha.
    + rewrite setOk_nonzero in Hb. now rewrite Hb.
    + rewrite setOk_upTo2 in Hb. rewrite Hb. apply orb_true_r.
  - intros (a & b & r & Hr & Hab & ->). eexists. split; [|reflexivity].
    apply m_alt. unfold monthDigits in Hab.
    apply orb_true_iff in Hab as [H|H]; apply andb_true_iff in H as [Ha Hb];
      [left|right];
      apply (m_twoOf _ _ _ _ _ _ (single_char _) (single_set _));
      exists a, b, r; repeat split; auto.
    + now rewrite setOk_nonzero.
    + now rewrite setOk_upTo2.
Qed.

Lemma m_dayOfMonth (x y : mstate) :
  In y (m noFlags (Group (Some 2) dayNode) x) <->
  exists a b r, rest x = a :: b :: r /\ dayDigits a b = true
    /\ y = setCap 2 x {| prev := b :: a :: prev x; rest := r;
                         caps := caps x |}.
Proof.
  rewrite m_group. unfold dayNode. split.
  - intros (z & Hz & ->). apply m_alt in Hz as [Hz|Hz];
      [|apply m_alt in Hz as [Hz|Hz]].
    + apply (m_twoOf _ _ _ _ _ _ (single_char _) (single_set _)) in Hz
        as (a & b & r & Hr & Ha & Hb & ->).
      exists a, b, r. split; [exact Hr|]. split; [|reflexivity].
      unfold dayDigits. rewrite Ha. rewrite setOk_nonzero in Hb.
      now rewrite Hb.
    + apply (m_twoOf _ _ _ _ _ _ (single_set _) (single_set _)) in Hz
        as (a & b & r & Hr & Ha & Hb & ->).
      exists a, b, r. split; [exact Hr|]. split; [|reflexivity].
      unfold dayDigits. rewrite setOk_pair in Ha. rewrite Ha.
      fold digits in Hb. unfold digits in Hb. rewrite setOk_digits in Hb.
      rewrite Hb. cbn [andb]. now rewrite orb_true_r.
    + apply (m_twoOf _ _ _ _ _ _ (single_char _) (single_set _)) in Hz
        as (a & b & r & Hr & Ha & Hb & ->).
      exists a, b, r. split; [exact Hr|]. split; [|reflexivity].
      unfold dayDigits. rewrite Ha. rewrite setOk_pair in Hb. rewrite Hb.
      now rewrite orb_true_r.
  - intros (a & b & r & Hr & Hab & ->). eexists. split; [|reflexivity].
    unfold dayDigits in Hab.
    apply orb_true_iff in Hab as [H|H];
      [apply orb_true_iff in H as [H|H]|];
      apply andb_true_iff in H as [Ha Hb]; apply m_alt.
    + left. apply (m_twoOf _ _ _ _ _ _ (single_char _) (single_set _)).
      exists a, b, r; repeat split; auto. now rewrite setOk_nonzero.
    + right. apply m_alt. left.
      apply (m_twoOf _ _ _ _ _ _ (single_set _) (single_set _)).
      exists a, b, r; repeat split; auto.
      * now rewrite setOk_pair.
      * unfold digits. now rewrite setOk_digits.
    + right. apply m_alt. right.
      apply (m_twoOf _ _ _ _ _ _ (single_char _) (single_set _)).
      exists a, b, r; repeat split; auto. now rewrite setOk_pair.
Qed.

Lemma date_sound (s : jsstring) (y : mstate) :
  In y (m noFlags dateBody (start s)) -> dateShape s = true.
Proof.
  unfold dateBody. intros H.
  apply m_seq in H as (z1 & H1 & H).
  apply m_repeat_set in H1; [|intros h [= <-]; apply le_n].
  destruct H1 as (w & Hs & Hz1 & Hw & Hlo & Hhi).
  specialize (Hhi 4 eq_refl).
  apply m_seq in H as (z2 & H2 & H).
  apply m_char in H2 as (h1 & r2 & Hr2 & Hh1 & Hz2).
  apply m_seq in H as (z3 & H3 & H).
  apply m_month in H3 as (m1 & m2 & r3 & Hr3 & Hm & Hz3).
  apply m_seq in H as (z4 & H4 & H).
  apply m_char in H4 as (h2 & r4 & Hr4 & Hh2 & Hz4).
  apply m_seq in H as (z5 & H5 & H).
  apply m_dayOfMonth in H5 as (d1 & d2 & r5 & Hr5 & Hd & Hz5).
  apply m_seq in H as (z6 & H6 & H).
  apply m_eol in H6 as [Hr6 ->]; [|reflexivity].
  subst z5. cbn in Hr6. subst r5.
  subst z4. cbn in Hr5. subst r4.
  subst z3. cbn in Hr4. subst r3.
  subst z2. cbn in Hr3. subst r2.
  cbn in Hs. rewrite Hr2 in Hs. subst s.
  destruct w as [|y1 [|y2 [|y3 [|y4 [|y5 w]]]]]; cbn in Hlo, Hhi; try lia.
  cbn [app dateShape]. rewrite (forallb_ext_eq _ _ _ setOk_digits) in Hw.
  rewrite Hw. cbn in Hh1, Hh2. now rewrite Hh1, Hm, Hh2, Hd.
Qed.

Lemma date_complete (s : jsstring) :
  dateShape s = true -> exists y, In y (m noFlags dateBody (start s)).
Proof.
  destruct s as [|y1 [|y2 [|y3 [|y4 [|h1 [|m1 [|m2 [|h2 [|d1 [|d2 [|e s]]]]]]]]]]];
    try discriminate.
  cbn [dateShape]. intros H.
  apply andb_true_iff in H as [H Hd]. apply andb_true_iff in H as [H Hh2].
  apply andb_true_iff in H as [H Hm]. apply andb_true_iff in H as [Hw Hh1].
  eexists. unfold dateBody.
  apply m_seq.
  exists (advance [y1; y2; y3; y4] (start [])
            [h1; m1; m2; h2; d1; d2]). split.
  { apply m_repeat_set; [intros h [= <-]; apply le_n|].
    exists [y1; y2; y3; y4]. split; [reflexivity|]. split; [reflexivity|].
    split; [|split; [apply le_n|intros h [= <-]; apply le_n]].
    now rewrite (forallb_ext_eq _ _ _ setOk_digits). }
  apply m_seq. eexists. split.
  { apply m_char. eexists _, _. split; [reflexivity|]. split; [exact Hh1|].
    reflexivity. }
  apply m_seq. eexists. split.
  { apply m_month. eexists _, _, _. split; [reflexivity|].
    split; [exact Hm|reflexivity]. }
  apply m_seq. eexists. split.
  { apply m_char. eexists _, _. split; [reflexivity|]. split; [exact Hh2|].
    reflexivity. }
  apply m_seq. eexists. split.
  { apply m_dayOfMonth. eexists _, _, _. split; [reflexivity|].
    split; [exact Hd|reflexivity]. }
  apply m_seq. eexists. split.
  { apply m_eol; [reflexivity|]. split; reflexivity. }
  apply m_empty. reflexivity.
Qed.

(** The date pattern accepts the texts of the date shape, and no other. *)
Lemma test_date (s : jsstring) :
  fst (test validators.PATTERNS.date s) = dateShape s.
Proof.
  rewrite (test_anchored _ dateBody s); try reflexivity.
  change (flags validators.PATTERNS.date) with noFlags.
  destruct (dateShape s) eqn:E.
  - apply nonempty_in. now apply date_complete.
  - destruct (m noFlags dateBody (start s)) as [|y l] eqn:Em;
      [reflexivity|].
    rewrite (date_sound s y) in E; [discriminate|].
    rewrite Em. now left.
Qed.

End DatePattern.

Module DateNumbers.

Import Spec.

(** A run of digits is read to its end. *)
Lemma readDigits_all (w : jsstring) (acc : Z) (count : nat) :
  forallb JS.isDigit w = true ->
  snd (JS.readDigits w acc count) = []
  /\ snd (fst (JS.readDigits w acc count)) = count + length w.
Proof.
  revert acc count. induction w as [|c w IH]; intros acc count H.
  - cbn. split; [reflexivity|lia].
  - cbn in H. apply andb_true_iff in H as [Hc Hw]. cbn [JS.readDigits].
    rewrite Hc. destruct (IH (10 * acc + Z.of_nat (JS.code c - 48))%Z
                             (S count) Hw) as [H1 H2].
    split; [exact H1|]. rewrite H2. cbn [length]. lia.
Qed.

Lemma digit_solid (c : ascii) : JS.isDigit c = true -> solid c = true.
Proof.
  assert (Hall : forallb (fun a => implb (JS.isDigit a) (solid a))
                   allChars = true) by (vm_compute; reflexivity).
  pose proof (RegExpFacts.allChars_all _ Hall c) as Hc. cbv beta in Hc.
  intros H. now rewrite H in Hc.
Qed.

Lemma digit_plain (c : ascii) :
  JS.isDigit c = true ->
  Ascii.eqb c "-" = false /\ Ascii.eqb c "+" = false.
Proof.
  intros H. split.
  - destruct (Ascii.eqb_spec c "-") as [->|]; [discriminate|reflexivity].
  - destruct (Ascii.eqb_spec c "+") as [->|]; [discriminate|reflexivity].
Qed.

(** [Number] reads a run of digits as the number it stands for. *)
Lemma toNumber_digits (w : jsstring) :
  w <> [] -> forallb JS.isDigit w = true ->
  JS.toNumber w = JS.ofZ (numeral w).
Proof.
  intros Hne Hw. unfold JS.toNumber.
  assert (Ht : JS.trim w = w).
  { apply trim_solid.
    - destruct w as [|c w]; [congruence|]. cbn in Hw |- *.
      apply andb_true_iff in Hw as [Hc _]. now apply digit_solid.
    - destruct (rev w) as [|c r] eqn:Er.
      + apply (f_equal (@rev ascii)) in Er. rewrite rev_involutive in Er.
        now subst.
      + cbn. apply digit_solid.
        rewrite forallb_forall in Hw. apply Hw. apply in_rev.
        rewrite Er. now left. }
  rewrite Ht. destruct w as [|c w]; [congruence|].
  unfold JS.readNumeral, numeral.
  assert (Hs : JS.readSign (c :: w) = (false, c :: w)).
  { cbn in Hw. apply andb_true_iff in Hw as [Hc _].
    destruct (digit_plain c Hc) as [H1 H2]. cbn. now rewrite H1, H2. }
  rewrite Hs.
  destruct (readDigits_all (c :: w) 0 0 Hw) as [H1 H2].
  destruct (JS.readDigits (c :: w) 0 0) as [[ip ni] s3].
  cbn in H1, H2. subst s3 ni. cbn. unfold JS.ofZ, inject_Z.
  f_equal. unfold Qmult. cbn. f_equal. lia.
Qed.

Lemma toInteger_ofZ (z : Z) : JS.toInteger (JS.ofZ z) = Some z.
Proof. cbn. now rewrite Z.quot_1_r. Qed.

Lemma toInteger_sub (a b : Z) :
  JS.toInteger (JS.sub (JS.ofZ a) (JS.ofZ b)) = Some (a - b)%Z.
Proof. cbn. rewrite Z.quot_1_r. f_equal. lia. Qed.

Lemma numEq_ofZ (a b : Z) : JS.numEq (JS.ofZ a) (JS.ofZ b) = (a =? b)%Z.
Proof.
  cbn. unfold Qeq_bool. cbn. rewrite !Z.mul_1_r.
  now destruct (a =? b)%Z.
Qed.

Lemma numEq_sub (c a b : Z) :
  JS.numEq (JS.ofZ c) (JS.sub (JS.ofZ a) (JS.ofZ b)) = (c =? a - b)%Z.
Proof.
  cbn. unfold Qeq_bool. cbn. rewrite !Z.mul_1_r.
  replace (a + - b)%Z with (a - b)%Z by lia.
  now destruct (c =? a - b)%Z.
Qed.

Lemma lt_ofZ (a b : Z) : JS.lt (JS.ofZ a) (JS.ofZ b) = (a <? b)%Z.
Proof.
  cbn. unfold Qle_bool. cbn. rewrite !Z.mul_1_r.
  rewrite Z.ltb_antisym. reflexivity.
Qed.

(** A text without the separator is one part; a separator ends a part. *)
Lemma splitOn_run (sep : ascii) (w cur : jsstring) :
  forallb (fun c => negb (Ascii.eqb c sep)) w = true ->
  JS.splitOn sep w cur = [rev cur ++ w]
  /\ forall r, JS.splitOn sep (w ++ sep :: r) cur
               = (rev cur ++ w) :: JS.splitOn sep r [].
Proof.
  revert cur. induction w as [|c w IH]; intros cur H.
  - cbn. rewrite app_nil_r, Ascii.eqb_refl. now split.
  - cbn in H. apply andb_true_iff in H as [Hc Hw].
    apply negb_true_iff in Hc. cbn [JS.splitOn app]. rewrite Hc.
    destruct (IH (c :: cur) Hw) as [H1 H2]. cbn [rev] in H1, H2.
    rewrite <- app_assoc in H1. split; [exact H1|].
    intros r. rewrite H2. now rewrite <- app_assoc.
Qed.

Lemma digits_no_hyphen (w : jsstring) :
  forallb JS.isDigit w = true ->
  forallb (fun c => negb (Ascii.eqb c "-")) w = true.
Proof.
  intros H. apply forallb_forall. intros c Hc.
  rewrite forallb_forall in H. apply negb_true_iff.
  now apply digit_plain, H.
Qed.

Lemma monthDigits_digits (a b : ascii) :
  monthDigits a b = true ->
  forallb JS.isDigit [a; b] = true /\ (1 <= numeral [a; b] <= 12)%Z.
Proof.
  assert (Hall : forallb (fun x => forallb (fun y =>
            implb (monthDigits x y)
                  (forallb JS.isDigit [x; y] && (1 <=? numeral [x; y])%Z
                   && (numeral [x; y] <=? 12)%Z))
            allChars) allChars = true)
    by (vm_compute; reflexivity).
  pose proof (RegExpFacts.allChars_all _
                (RegExpFacts.allChars_all _ Hall a) b) as Hab.
  cbv beta in Hab. intros H. rewrite H in Hab. cbn [implb] in Hab.
  apply andb_true_iff in Hab as [Hab H3].
  apply andb_true_iff in Hab as [H1 H2]. split; [exact H1|]. lia.
Qed.

Lemma dayDigits_digits (a b : ascii) :
  dayDigits a b = true ->
  forallb JS.isDigit [a; b] = true /\ (1 <= numeral [a; b] <= 31)%Z.
Proof.
  assert (Hall : forallb (fun x => forallb (fun y =>
            implb (dayDigits x y)
                  (forallb JS.isDigit [x; y] && (1 <=? numeral [x; y])%Z
                   && (numeral [x; y] <=? 31)%Z))
            allChars) allChars = true)
    by (vm_compute; reflexivity).
  pose proof (RegExpFacts.allChars_all _
                (RegExpFacts.allChars_all _ Hall a) b) as Hab.
  cbv beta in Hab. intros H. rewrite H in Hab. cbn [implb] in Hab.
  apply andb_true_iff in Hab as [Hab H3].
  apply andb_true_iff in Hab as [H1 H2]. split; [exact H1|]. lia.
Qed.

Lemma readDigits_grows (w : jsstring) (acc : Z) (count : nat) :
  (0 <= acc)%Z -> (0 <= fst (fst (JS.readDigits w acc count)))%Z.
Proof.
  revert acc count. induction w as [|c w IH]; intros acc count H.
  - exact H.
  - cbn [JS.readDigits]. destruct (JS.isDigit c); [|exact H].
    apply IH. lia.
Qed.

(** [new Date] on whole numbers. *)
Lemma makeDate_whole (y m d : Z) :
  (99 < y)%Z -> (1 <= m <= 12)%Z ->
  JS.makeDate (JS.ofZ y) (JS.sub (JS.ofZ m) (JS.ofZ 1)) (JS.ofZ d)
  = let '(cy, cm, cd) :=
      JS.civilFromDays (JS.daysFromCivil y m 1 + d - 1) in
    Some (cy, (cm - 1)%Z, cd).
Proof.
  intros Hy Hm. unfold JS.makeDate.
  rewrite !toInteger_ofZ, toInteger_sub.
  replace ((0 <=? y)%Z && (y <=? 99)%Z) with false
    by (symmetry; apply andb_false_iff; right; apply Z.leb_gt; lia).
  rewrite (Z.div_small (m - 1) 12), (Z.mod_small (m - 1) 12) by lia.
  replace (y + 0)%Z with y by lia.
  replace (m - 1 + 1)%Z with m by lia.
  reflexivity.
Qed.

End DateNumbers.

(** The answer of [validateDate], by the calendar. *)
Lemma date_rules (currentYear : Z) (value : jsstring) :
  validators.valid (validators.validateDate currentYear value)
  = Spec.realDate currentYear (JS.trim value).
Proof.
  unfold validators.validateDate, Spec.realDate. cbv zeta.
  destruct (validators.blank value) eqn:Eb.
  { now rewrite (blank_trim _ Eb). }
  rewrite DatePattern.test_date.
  destruct (Spec.dateShape (JS.trim value)) eqn:E; [|reflexivity].
  cbn [negb andb].
  destruct (JS.trim value)
    as [|y1 [|y2 [|y3 [|y4 [|h1 [|m1 [|m2 [|h2 [|d1 [|d2 [|e s]]]]]]]]]]];
    try discriminate.
  cbn [Spec.dateShape] in E.
  apply andb_true_iff in E as [E Hd]. apply andb_true_iff in E as [E Hh2].
  apply andb_true_iff in E as [E Hm]. apply andb_true_iff in E as [Hw Hh1].
  apply Ascii.eqb_eq in Hh1, Hh2. subst h1 h2.
  destruct (DateNumbers.monthDigits_digits _ _ Hm) as [Wm Bm].
  destruct (DateNumbers.dayDigits_digits _ _ Hd) as [Wd Bd].
  assert (Hsplit : JS.split "-" [y1; y2; y3; y4; "-"%char; m1; m2;
                                 "-"%char; d1; d2]
                   = [[y1; y2; y3; y4]; [m1; m2]; [d1; d2]]).
  { unfold JS.split.
    destruct (DateNumbers.splitOn_run "-" [y1; y2; y3; y4] []
                (DateNumbers.digits_no_hyphen _ Hw)) as [_ H1].
    destruct (DateNumbers.splitOn_run "-" [m1; m2] []
                (DateNumbers.digits_no_hyphen _ Wm)) as [_ H2].
    destruct (DateNumbers.splitOn_run "-" [d1; d2] []
                (DateNumbers.digits_no_hyphen _ Wd)) as [H3 _].
    specialize (H1 [m1; m2; "-"%char; d1; d2]).
    specialize (H2 [d1; d2]). cbn [app rev] in H1, H2, H3.
    now rewrite H1, H2, H3. }
  rewrite Hsplit. cbn [map nth firstn skipn].
  rewrite !DateNumbers.toNumber_digits by (assumption || discriminate).
  set (y := Spec.numeral [y1; y2; y3; y4]).
  set (mo := Spec.numeral [m1; m2]) in *.
  set (d := Spec.numeral [d1; d2]) in *.
  rewrite !DateNumbers.lt_ofZ. unfold JS.gt. rewrite DateNumbers.lt_ofZ.
  destruct (Z_le_gt_dec y 99) as [Hy|Hy].
  - replace (y <? 2000)%Z with true by (symmetry; apply Z.ltb_lt; lia).
    replace (2000 <=? y)%Z with false by (symmetry; apply Z.leb_gt; lia).
    rewrite andb_false_r. cbn [orb andb].
    now destruct (negb _).
  - rewrite DateNumbers.makeDate_whole by lia.
    rewrite <- (DateFacts.staysPut_real y mo d) by lia.
    unfold Spec.staysPut.
    destruct (JS.civilFromDays (JS.daysFromCivil y mo 1 + d - 1))
      as [[cy cm] cd].
    rewrite !DateNumbers.numEq_ofZ, DateNumbers.numEq_sub.
    replace (cm - 1 =? mo - 1)%Z with (cm =? mo)%Z.
    2:{ destruct (cm =? mo)%Z eqn:Ec.
        - apply Z.eqb_eq in Ec. subst. symmetry. apply Z.eqb_refl.
        - apply Z.eqb_neq in Ec. symmetry. apply Z.eqb_neq. lia. }
    destruct ((cy =? y) && (cm =? mo) && (cd =? d))%Z; cbn [negb andb];
      [|reflexivity].
    rewrite (Z.leb_antisym y 2000), (Z.ltb_antisym y (currentYear + 10)).
    destruct (2000 <=? y)%Z eqn:E1, (y <=? currentYear + 10)%Z eqn:E2;
      cbn; try reflexivity.
    + apply Z.leb_le in E1. 
      replace (y <? 2000)%Z with false by (symmetry; apply Z.ltb_ge; lia).
      reflexivity.
    + apply Z.leb_le in E1. 
      replace (y <? 2000)%Z with false by (symmetry; apply Z.ltb_ge; lia).
      reflexivity.
    + apply Z.leb_gt in E1.
      replace (y <? 2000)%Z with true by (symmetry; apply Z.ltb_lt; lia).
      reflexivity.
    + apply Z.leb_gt in E1.
      replace (y <? 2000)%Z with true by (symmetry; apply Z.ltb_lt; lia).
      reflexivity.
Qed.

(** X21: [validateDate] accepts exactly the texts whose trimmed form is
    a date YYYY-MM-DD that the calendar has, leap years counted, in a year
    from 2000 to ten years after the current one. *)
Theorem validateDate_accepts (currentYear : Z) (value : jsstring) :
  validators.valid (validators.validateDate currentYear value)
  = Spec.realDate currentYear (JS.trim value).
Proof. exact (date_rules currentYear value). Qed.

(** ** The records of an import *)

Module ImportFacts.

Import Spec.

Lemma trimStart_spaces (s : jsstring) :
  exists sp, s = sp ++ JS.trimStart s /\ forallb JS.isSpace sp = true.
Proof.
  induction s as [|c s (sp & IH & Hsp)]; [now exists []|].
  cbn [JS.trimStart]. destruct (JS.isSpace c) eqn:E; [|now exists []].
  exists (c :: sp). cbn. rewrite E, Hsp. now rewrite <- IH.
Qed.

Lemma gap_rev (sp : jsstring) : forallb JS.isSpace sp = true -> gap (rev sp).
Proof.
  intros H. destruct (rev sp) as [|c r] eqn:E; [now left|]. right. cbn.
  rewrite forallb_forall in H. apply H, in_rev. rewrite E. now left.
Qed.

Lemma space_plain (c : ascii) :
  JS.isSpace c = true ->
  JS.isDigit c = false /\ Ascii.eqb c "." = false
  /\ Ascii.eqb c "e" || Ascii.eqb c "E" = false
  /\ Ascii.eqb c "-" = false /\ Ascii.eqb c "+" = false.
Proof.
  assert (Hall : forallb (fun a => implb (JS.isSpace a)
            (negb (JS.isDigit a) && negb (Ascii.eqb a ".")
             && negb (Ascii.eqb a "e" || Ascii.eqb a "E")
             && negb (Ascii.eqb a "-") && negb (Ascii.eqb a "+")))
            allChars = true) by (vm_compute; reflexivity).
  pose proof (RegExpFacts.allChars_all _ Hall c) as Hc. cbv beta in Hc.
  intros H. rewrite H in Hc. cbn [implb] in Hc.
  repeat (apply andb_true_iff in Hc as [Hc ?]).
  repeat split; now apply negb_true_iff.
Qed.

(** What is read of a numeral does not depend on the white space after
    it. *)
Lemma readDigits_gap (w : jsstring) (s : list ascii) (acc : Z) (n : nat) :
  gap w ->
  JS.readDigits (s ++ w) acc n
  = let '(a, k, r) := JS.readDigits s acc n in (a, k, r ++ w).
Proof.
  intros Hw. revert acc n. induction s as [|c s IH]; intros acc n.
  - cbn [app JS.readDigits]. destruct Hw as [->|Hw]; [reflexivity|].
    destruct w as [|c w]; [discriminate|]. cbn in Hw.
    cbn [JS.readDigits]. destruct (space_plain c Hw) as [-> _]. reflexivity.
  - cbn [app JS.readDigits]. destruct (JS.isDigit c); [apply IH|reflexivity].
Qed.

Lemma readSign_gap (w : jsstring) (s : list ascii) :
  gap w ->
  JS.readSign (s ++ w) = let '(neg, r) := JS.readSign s in (neg, r ++ w).
Proof.
  intros Hw. destruct s as [|c s].
  - cbn [app JS.readSign]. destruct Hw as [->|Hw]; [reflexivity|].
    destruct w as [|c w]; [discriminate|]. cbn in Hw.
    destruct (space_plain c Hw) as (_ & _ & _ & H1 & H2).
    cbn [JS.readSign]. now rewrite H1, H2.
  - cbn [app JS.readSign].
    destruct (Ascii.eqb c "-"); [reflexivity|].
    destruct (Ascii.eqb c "+"); reflexivity.
Qed.

Lemma readFraction_gap (w : jsstring) (s : list ascii) :
  gap w ->
  JS.readFraction (s ++ w)
  = let '(a, k, r) := JS.readFraction s in (a, k, r ++ w).
Proof.
  intros Hw. destruct s as [|c s].
  - cbn [app JS.readFraction]. destruct Hw as [->|Hw]; [reflexivity|].
    destruct w as [|c w]; [discriminate|]. cbn in Hw.
    destruct (space_plain c Hw) as (_ & H1 & _).
    cbn [JS.readFraction]. now rewrite H1.
  - cbn [app JS.readFraction].
    destruct (Ascii.eqb c "."); [now apply readDigits_gap|reflexivity].
Qed.

Lemma readExponent_gap (w : jsstring) (s : list ascii) :
  gap w ->
  JS.readExponent (s ++ w)
  = let '(e, r) := JS.readExponent s in (e, r ++ w).
Proof.
  intros Hw. destruct s as [|c s].
  - cbn [app JS.readExponent]. destruct Hw as [->|Hw]; [reflexivity|].
    destruct w as [|c w]; [discriminate|]. cbn in Hw.
    destruct (space_plain c Hw) as (_ & _ & H1 & _).
    cbn [JS.readExponent]. now rewrite H1.
  - cbn [app JS.readExponent].
    destruct (Ascii.eqb c "e" || Ascii.eqb c "E"); [|reflexivity].
    rewrite (readSign_gap w s Hw).
    destruct (JS.readSign s) as [neg r1].
    rewrite (readDigits_gap w r1 0 0 Hw).
    destruct (JS.readDigits r1 0 0) as [[e n] r2].
    destruct (n =? 0); reflexivity.
Qed.

Lemma readNumeral_gap (w : jsstring) (s : list ascii) :
  gap w ->
  JS.readNumeral (s ++ w)
  = match JS.readNumeral s with
    | Some (q, r) => Some (q, r ++ w)
    | None => None
    end.
Proof.
  intros Hw. unfold JS.readNumeral.
  rewrite (readSign_gap w s Hw). destruct (JS.readSign s) as [neg s2].
  rewrite (readDigits_gap w s2 0 0 Hw).
  destruct (JS.readDigits s2 0 0) as [[ip ni] s3].
  rewrite (readFraction_gap w s3 Hw).
  destruct (JS.readFraction s3) as [[fp nf] s4].
  destruct (ni + nf =? 0); [reflexivity|].
  rewrite (readExponent_gap w s4 Hw).
  destruct (JS.readExponent s4) as [e s5]. reflexivity.
Qed.

(** [parseFloat] reads a text as it reads the trimmed text. *)
Lemma parseFloat_trim (v : jsstring) :
  JS.parseFloat (JS.trim v) = JS.parseFloat v.
Proof.
  unfold JS.parseFloat.
  assert (Ht : JS.trimStart (JS.trim v) = JS.trim v).
  { destruct (trim_edges v) as [->|[H _]]; [reflexivity|].
    now apply trimStart_solid. }
  rewrite Ht. unfold JS.trim, JS.trimEnd.
  destruct (trimStart_spaces (rev (JS.trimStart v))) as (sp & Hsp & Hall).
  apply (f_equal (@rev ascii)) in Hsp.
  rewrite rev_involutive, rev_app_distr in Hsp.
  rewrite Hsp at 2.
  rewrite (readNumeral_gap _ _ (gap_rev sp Hall)).
  destruct (JS.readNumeral (rev (JS.trimStart (rev (JS.trimStart v)))))
    as [[q r]|]; reflexivity.
Qed.

(** A transaction held valid has four accepted fields. *)
Lemma tvalid_fields (currentYear : Z) (t : validators.TransactionInput) :
  validators.tvalid (validators.validateTransaction currentYear t) = true ->
  validators.valid
    (validators.validateDescription (validators.in_description t)) = true
  /\ validators.valid
       (validators.validateAmount (validators.in_amount t)) = true
  /\ validators.valid
       (validators.validateDate currentYear (validators.in_date t)) = true
  /\ validators.valid
       (validators.validateCategory (validators.in_category t)) = true.
Proof.
  unfold validators.validateTransaction. cbn [validators.tvalid].
  rewrite (fieldError_entry _ _ (validateDescription_plain _)).
  rewrite (fieldError_entry _ _ (validateAmount_plain _)).
  rewrite (fieldError_entry _ _ (validateDate_plain _ _)).
  rewrite (fieldError_entry _ _ (validateCategory_plain _)).
  unfold entry.
  destruct (validators.valid (validators.validateDescription _)),
    (validators.valid (validators.validateAmount _)),
    (validators.valid (validators.validateDate _ _)),
    (validators.valid (validators.validateCategory _));
    try discriminate; auto.
Qed.

(** The value of an accepted amount. *)
Lemma amount_rules (value : jsstring) :
  validators.valid (validators.validateAmount value) = true ->
  exists q, JS.parseFloat value = JS.Num q
            /\ (0 <= q)%Q /\ (q <= 99999999 # 100)%Q.
Proof.
  unfold validators.validateAmount.
  destruct (validators.blank value); [discriminate|].
  destruct (fst (RegExp.test validators.PATTERNS.amount (JS.trim value)))
    eqn:Et; cbn [negb]; [|discriminate].
  rewrite (amount_not_negative _ Et).
  rewrite RegExpFacts.test_amount in Et.
  destruct (parseFloat_digit_head _ (amountShape_digit_head _ Et))
    as (q & Hq & Hpos).
  rewrite parseFloat_trim in *. rewrite Hq.
  destruct (JS.gt (JS.Num q) validators.maxAmount) eqn:Eg; [discriminate|].
  intros _. exists q. split; [reflexivity|]. split; [exact Hpos|].
  unfold JS.gt, JS.lt, validators.maxAmount in Eg.
  apply negb_false_iff in Eg. now apply Qle_bool_iff in Eg.
Qed.

(** The records kept come from items that passed the check. *)
Lemma importLoop_kept (h : Host) (l : list validators.item) (i : nat)
    (t : Transaction) :
  In t (fst (validators.importLoop h i l)) ->
  exists j it, In it l /\ validators.checkItem h j it = inl t.
Proof.
  revert i. induction l as [|it l IH]; intros i; cbn [validators.importLoop].
  - intros [].
  - destruct (validators.importLoop h (S i) l) as [good errs] eqn:E.
    specialize (IH (S i)). rewrite E in IH. cbn [fst] in IH.
    destruct (validators.checkItem h i it) as [t'|e] eqn:Ec; cbn [fst].
    + intros [<-|H].
      * exists i, it. split; [now left|exact Ec].
      * destruct (IH H) as (j & it' & Hin & Hc).
        exists j, it'. split; [now right|exact Hc].
    + intros H. destruct (IH H) as (j & it' & Hin & Hc).
      exists j, it'. split; [now right|exact Hc].
Qed.

Lemma checkItem_rules (h : Host) (j : nat) (it : validators.item)
    (t : Transaction) :
  validators.checkItem h j it = inl t -> keepsRules (currentYear h) t.
Proof.
  unfold validators.checkItem. destruct it as [|o]; [discriminate|].
  destruct (validators.missingFields o); [|discriminate].
  cbv zeta.
  destruct (validators.tvalid _) eqn:Ev; cbn [negb]; [|discriminate].
  intros [= <-].
  apply tvalid_fields in Ev as (Hd & Ha & Hdt & Hc).
  cbn [validators.in_description validators.in_amount validators.in_date
       validators.in_category] in Hd, Ha, Hdt, Hc.
  unfold keepsRules. cbn [description amount date category].
  apply description_rules in Hd as [Hd1 Hd2].
  apply category_rules in Hc as [Hc1 Hc2].
  rewrite date_rules in Hdt.
  assert (Ht : JS.trim (validators.fieldText (validators.o_description o))
               = validators.fieldText (validators.o_description o)).
  { unfold descriptionShape in Hd1.
    apply andb_true_iff in Hd1 as [Hd1 _].
    repeat (apply andb_true_iff in Hd1 as [Hd1 ?]).
    now apply trim_solid. }
  rewrite Ht. repeat split; auto; try apply Hc2.
  now apply amount_rules.
Qed.

End ImportFacts.

(** X22: every record of an import that [validateImportData] accepts
    keeps the rules of the form: its description has the description
    shape and no duplicate word pair, its amount is a number from 0 to
    999999.99, its date is a date of the calendar in the accepted years,
    and its category has the category shape and 2 to 50 characters. *)
Theorem validateImportData_records (h : Host) (data : validators.ImportData)
    (batch : list Transaction) :
  validators.idata (validators.validateImportData h data) = Some batch ->
  Forall (Spec.keepsRules (currentYear h)) batch.
Proof.
  unfold validators.validateImportData.
  destruct data as [|[|it l]]; try discriminate.
  destruct (validators.importLoop h 0 (it :: l)) as [good errs] eqn:E.
  destruct (0 <? length errs); [discriminate|].
  intros [= <-]. apply Forall_forall. intros t Ht.
  destruct (ImportFacts.importLoop_kept h (it :: l) 0 t) as (j & it' & _ & Hc).
  { now rewrite E. }
  exact (ImportFacts.checkItem_rules h j it' t Hc).
Qed.

(** Witness of X22: the two records of an accepted batch of two keep the
    rules. *)
Lemma validateImportData_records_witness :
  exists batch,
    validators.idata
      (validators.validateImportData Samples.host
         (validators.Items Samples.soundBatch)) = Some batch
    /\ length batch = 2
    /\ Forall (Spec.keepsRules 2026) batch.
Proof.
  exists (fst (validators.importLoop Samples.host 0 Samples.soundBatch)).
  split; [vm_compute; reflexivity|]. split; [vm_compute; reflexivity|].
  apply (validateImportData_records Samples.host
           (validators.Items Samples.soundBatch)).
  vm_compute; reflexivity.
Defined.
